(** * ring_buffer.c: a multi-process pipeline over two shared circular buffers

    Producers, workers and loggers are separate processes that share two
    anonymous mappings (the task buffer and the log buffer).  Every source
    statement that touches shared state or calls the operating system is one
    atomic step of the process that executes it; the program points are
    named after the source line they embed.  A process is a record of its
    program point and its local variables.

    Two semantics are given.  [local_run] is the process alone: the events
    it produces when the memory it finds at each step is arbitrary, that
    is, under any interference of the others.  [run] is the system: the
    shared memory and the process table under a schedule, the list of the
    pids that move; a blocked call ([sem_wait] on a zero count, [waitpid]
    on a running child) has no step.  [run_local] relates the two: the
    events of a process in a run of the system are a local run of it. *)

From stdpp Require Import base list gmap.
From Stdlib Require Import ZArith Lia Ascii.

Local Open Scope Z_scope.

(** ** Constants (ring_buffer.c, lines 45-51, and <limits.h>, <stdlib.h>) *)

Definition BUFFER_SIZE : Z := 1024.
Definition MIN_TASK_SIZE : Z := 10000000.
Definition MAX_TASK_SIZE : Z := 100000000.
Definition WORKERS : nat := 10.
Definition PRODUCERS : nat := 5.
Definition LOGGERS : nat := 2.

(** [int] is 32 bits wide on the platforms the program targets. *)
Definition INT_MAX : Z := 2147483647.

(** [rand] returns an [int] between 0 and [RAND_MAX]; the GNU C library, which
    the program is written against, has [RAND_MAX] equal to [INT_MAX]. *)
Definition RAND_MAX : Z := 2147483647.

(** ** C arithmetic *)

(** Two's complement reduction to [int], and the conversions to
    [unsigned int] and to [unsigned long long] (the macro [ull]). *)
Definition to_int (x : Z) : Z := (x + 2 ^ 31) mod 2 ^ 32 - 2 ^ 31.
Definition to_uint (x : Z) : Z := x mod 2 ^ 32.
Definition to_ull (x : Z) : Z := x mod 2 ^ 64.

(** The C operator [%] truncates its quotient toward zero. *)
Definition c_rem (a b : Z) : Z := Z.rem a b.

(** Line 88: [ull taskSize = MIN_TASK_SIZE + rand() % MAX_TASK_SIZE], for the
    value [r] that [rand()] returned.  The sum is computed in [int] and then
    converted to [ull]. *)
Definition taskSize_of (r : Z) : Z :=
  to_ull (to_int (MIN_TASK_SIZE + c_rem r MAX_TASK_SIZE)).

(** Line 103: [rand() % INT_MAX], the payload a producer stores. *)
Definition payload_of (r : Z) : Z := c_rem r INT_MAX.

(** [__sync_fetch_and_add(&cursor, 1)] on a 64-bit cursor: the value returned
    and the value left in memory. *)
Definition fetch_and_add (cur : Z) : Z * Z := (cur, to_ull (cur + 1)).

(** The physical slot of a cursor value: [cursor % BUFFER_SIZE]. *)
Definition slot_of (cur : Z) : Z := cur mod BUFFER_SIZE.

(** ** Shared memory (lines 53-81) *)

Record TaskEntity := mkTaskEntity {
  te_producerPid : Z;
  te_data : Z;
  te_ready : Z
}.

Record LogEntity := mkLogEntity {
  le_workerPid : Z;
  le_producerPid : Z;
  le_data : Z;
  le_ready : Z
}.

(** A semaphore is its count.  The cursors [in] and [out] are 64-bit. *)
Record TaskBuffer := mkTaskBuffer {
  tb_buffer : list TaskEntity;
  tb_in : Z;
  tb_out : Z;
  tb_full : Z;
  tb_empty : Z
}.

Record LogBuffer := mkLogBuffer {
  lb_buffer : list LogEntity;
  lb_in : Z;
  lb_out : Z;
  lb_full : Z;
  lb_empty : Z
}.

Record shm := mkShm {
  tb : TaskBuffer;
  lb : LogBuffer
}.

Definition zero_task : TaskEntity := mkTaskEntity 0 0 0.
Definition zero_log : LogEntity := mkLogEntity 0 0 0 0.

(** An anonymous mapping is filled with zero bytes. *)
Definition zero_TaskBuffer : TaskBuffer :=
  mkTaskBuffer (replicate (Z.to_nat BUFFER_SIZE) zero_task) 0 0 0 0.
Definition zero_LogBuffer : LogBuffer :=
  mkLogBuffer (replicate (Z.to_nat BUFFER_SIZE) zero_log) 0 0 0 0.
Definition zero_shm : shm := mkShm zero_TaskBuffer zero_LogBuffer.

Inductive buf := TB | LB.
Inductive field := FProducerPid | FWorkerPid | FData | FReady.
Inductive cursor := CIn | COut.
Inductive sem := SFull | SEmpty.

Definition buf_eqb (a b : buf) : bool :=
  match a, b with TB, TB | LB, LB => true | _, _ => false end.
Definition cursor_eqb (a b : cursor) : bool :=
  match a, b with CIn, CIn | COut, COut => true | _, _ => false end.

(** Field access.  A [TaskEntity] has no [workerPid]; the program never names
    that field of a task slot. *)
Definition te_get (f : field) (t : TaskEntity) : Z :=
  match f with
  | FProducerPid => te_producerPid t
  | FWorkerPid => 0
  | FData => te_data t
  | FReady => te_ready t
  end.

Definition te_set (f : field) (v : Z) (t : TaskEntity) : TaskEntity :=
  match f with
  | FProducerPid => mkTaskEntity v (te_data t) (te_ready t)
  | FWorkerPid => t
  | FData => mkTaskEntity (te_producerPid t) v (te_ready t)
  | FReady => mkTaskEntity (te_producerPid t) (te_data t) v
  end.

Definition le_get (f : field) (t : LogEntity) : Z :=
  match f with
  | FProducerPid => le_producerPid t
  | FWorkerPid => le_workerPid t
  | FData => le_data t
  | FReady => le_ready t
  end.

Definition le_set (f : field) (v : Z) (t : LogEntity) : LogEntity :=
  match f with
  | FProducerPid => mkLogEntity (le_workerPid t) v (le_data t) (le_ready t)
  | FWorkerPid => mkLogEntity v (le_producerPid t) (le_data t) (le_ready t)
  | FData => mkLogEntity (le_workerPid t) (le_producerPid t) v (le_ready t)
  | FReady => mkLogEntity (le_workerPid t) (le_producerPid t) (le_data t) v
  end.

(** [b->buffer[idx].f] read and written; [idx] is always a [slot_of] value. *)
Definition load (m : shm) (b : buf) (idx : Z) (f : field) : Z :=
  match b with
  | TB => te_get f (default zero_task (tb_buffer (tb m) !! Z.to_nat idx))
  | LB => le_get f (default zero_log (lb_buffer (lb m) !! Z.to_nat idx))
  end.

Definition store (b : buf) (idx : Z) (f : field) (v : Z) (m : shm) : shm :=
  match b with
  | TB =>
      let t := tb m in
      mkShm (mkTaskBuffer (alter (te_set f v) (Z.to_nat idx) (tb_buffer t))
               (tb_in t) (tb_out t) (tb_full t) (tb_empty t)) (lb m)
  | LB =>
      let l := lb m in
      mkShm (tb m)
        (mkLogBuffer (alter (le_set f v) (Z.to_nat idx) (lb_buffer l))
           (lb_in l) (lb_out l) (lb_full l) (lb_empty l))
  end.

Definition get_cursor (m : shm) (b : buf) (c : cursor) : Z :=
  match b, c with
  | TB, CIn => tb_in (tb m)
  | TB, COut => tb_out (tb m)
  | LB, CIn => lb_in (lb m)
  | LB, COut => lb_out (lb m)
  end.

Definition set_cursor (b : buf) (c : cursor) (v : Z) (m : shm) : shm :=
  let t := tb m in
  let l := lb m in
  match b, c with
  | TB, CIn => mkShm (mkTaskBuffer (tb_buffer t) v (tb_out t) (tb_full t) (tb_empty t)) l
  | TB, COut => mkShm (mkTaskBuffer (tb_buffer t) (tb_in t) v (tb_full t) (tb_empty t)) l
  | LB, CIn => mkShm t (mkLogBuffer (lb_buffer l) v (lb_out l) (lb_full l) (lb_empty l))
  | LB, COut => mkShm t (mkLogBuffer (lb_buffer l) (lb_in l) v (lb_full l) (lb_empty l))
  end.

Definition get_sem (m : shm) (b : buf) (s : sem) : Z :=
  match b, s with
  | TB, SFull => tb_full (tb m)
  | TB, SEmpty => tb_empty (tb m)
  | LB, SFull => lb_full (lb m)
  | LB, SEmpty => lb_empty (lb m)
  end.

Definition set_sem (b : buf) (s : sem) (v : Z) (m : shm) : shm :=
  let t := tb m in
  let l := lb m in
  match b, s with
  | TB, SFull => mkShm (mkTaskBuffer (tb_buffer t) (tb_in t) (tb_out t) v (tb_empty t)) l
  | TB, SEmpty => mkShm (mkTaskBuffer (tb_buffer t) (tb_in t) (tb_out t) (tb_full t) v) l
  | LB, SFull => mkShm t (mkLogBuffer (lb_buffer l) (lb_in l) (lb_out l) v (lb_empty l))
  | LB, SEmpty => mkShm t (mkLogBuffer (lb_buffer l) (lb_in l) (lb_out l) (lb_full l) v)
  end.

(** ** The operating system and the C library, as seen by the program

    What the program cannot decide itself is supplied by the environment:
    the clock, the generator behind [srand]/[rand] (the sequence a seed
    determines), the outcome of [mmap] and [sem_init], and the process ids.
    [fork] is taken to succeed. *)
Record os_env := mkEnv {
  os_time : Z -> Z;
  os_rand : Z -> nat -> Z;
  os_mmap : nat -> bool;
  os_sem_init : nat -> Z;
  os_pid : Z;
  os_fork : nat -> Z
}.

Inductive role := RProducer | RWorker | RLogger.

Definition STDOUT : Z := 1.
Definition STDERR : Z := 2.

(** One event per executed statement.  [EvWrite] is a line written to a
    stream; the only one in the program is the logger's [printf]. *)
Inductive event :=
| EvLocal
| EvSrand (seed : Z)
| EvSemWait (b : buf) (s : sem)
| EvSemPost (b : buf) (s : sem)
| EvFetchAdd (b : buf) (c : cursor) (prev : Z)
| EvLoad (b : buf) (idx : Z) (f : field) (v : Z)
| EvStore (b : buf) (idx : Z) (f : field) (v : Z)
| EvBarrier
| EvUsleep
| EvWrite (fd : Z) (workerPid data producerPid : Z)
| EvExit (status : Z)
| EvMmap (b : buf) (ok : bool)
| EvSemInit (b : buf) (s : sem) (pshared value ret : Z)
| EvFork (r : role) (child : Z)
| EvWaitpid (pid : Z)
| EvMunmap (b : buf).

(** The effect of an event on the shared memory. *)
Definition mem_apply (ev : event) (m : shm) : shm :=
  match ev with
  | EvSemWait b s => set_sem b s (get_sem m b s - 1) m
  | EvSemPost b s => set_sem b s (get_sem m b s + 1) m
  | EvFetchAdd b c _ => set_cursor b c (snd (fetch_and_add (get_cursor m b c))) m
  | EvStore b idx f v => store b idx f v m
  | EvSemInit b s _ value ret => if ret =? 0 then set_sem b s value m else m
  | _ => m
  end.

(** ** producer (lines 83-116, and the [exit(0)] of line 204) *)

Inductive producer_pc :=
| P86 | P88 | P92 | P101 | P102 | P103 | P108 | P111 | P114 | P204 | Pexit.

(** [p_seed] and [p_calls] are the state of the generator: the seed last
    given to [srand] (1 before any call) and the number of [rand] calls
    since. *)
Record producer_st := mkProducer {
  p_pc : producer_pc;
  p_self : Z;
  p_seed : Z;
  p_calls : nat;
  p_taskSize : Z;
  p_i : Z;
  p_prevIn : Z
}.

Definition producer_init (pid : Z) : producer_st :=
  mkProducer P86 pid 1 0 0 0 0.

Definition p_goto (pc : producer_pc) (st : producer_st) : producer_st :=
  mkProducer pc (p_self st) (p_seed st) (p_calls st) (p_taskSize st) (p_i st)
    (p_prevIn st).

Definition producer_step (e : os_env) (st : producer_st) (m : shm)
  : option (event * producer_st) :=
  match p_pc st with
  | P86 =>
      let seed := to_uint (os_time e (p_self st)) in
      Some (EvSrand seed,
            mkProducer P88 (p_self st) seed 0 (p_taskSize st) (p_i st) (p_prevIn st))
  | P88 =>
      let n := taskSize_of (os_rand e (p_seed st) (p_calls st)) in
      Some (EvLocal,
            mkProducer (if 0 <? n then P92 else P204) (p_self st) (p_seed st)
              (S (p_calls st)) n 0 (p_prevIn st))
  | P92 => Some (EvSemWait TB SEmpty, p_goto P101 st)
  | P101 =>
      let prevIn := fst (fetch_and_add (tb_in (tb m))) in
      Some (EvFetchAdd TB CIn prevIn,
            mkProducer P102 (p_self st) (p_seed st) (p_calls st) (p_taskSize st)
              (p_i st) prevIn)
  | P102 =>
      Some (EvStore TB (slot_of (p_prevIn st)) FProducerPid (p_self st),
            p_goto P103 st)
  | P103 =>
      Some (EvStore TB (slot_of (p_prevIn st)) FData
              (payload_of (os_rand e (p_seed st) (p_calls st))),
            mkProducer P108 (p_self st) (p_seed st) (S (p_calls st))
              (p_taskSize st) (p_i st) (p_prevIn st))
  | P108 => Some (EvBarrier, p_goto P111 st)
  | P111 => Some (EvStore TB (slot_of (p_prevIn st)) FReady 1, p_goto P114 st)
  | P114 =>
      let i := to_ull (p_i st + 1) in
      Some (EvSemPost TB SFull,
            mkProducer (if i <? p_taskSize st then P92 else P204) (p_self st)
              (p_seed st) (p_calls st) (p_taskSize st) i (p_prevIn st))
  | P204 => Some (EvExit 0, p_goto Pexit st)
  | Pexit => None
  end.

(** ** worker (lines 118-156) *)

Inductive worker_pc :=
| W124 | W125 | W129 | W131 | W133 | W134 | W135 | W136 | W137 | W138 | W141
| W147 | W148 | W149 | W150 | W151 | W152 | W153 | W154 | Wexit.

Record worker_st := mkWorker {
  w_pc : worker_pc;
  w_self : Z;
  w_prevOut : Z;
  w_data : Z;
  w_workerPid : Z;
  w_producerPid : Z;
  w_prevIn : Z
}.

Definition worker_init (pid : Z) : worker_st := mkWorker W124 pid 0 0 0 0 0.

Definition w_goto (pc : worker_pc) (st : worker_st) : worker_st :=
  mkWorker pc (w_self st) (w_prevOut st) (w_data st) (w_workerPid st)
    (w_producerPid st) (w_prevIn st).

Definition worker_step (st : worker_st) (m : shm) : option (event * worker_st) :=
  let slot := slot_of (w_prevOut st) in
  let lslot := slot_of (w_prevIn st) in
  match w_pc st with
  | W124 => Some (EvSemWait TB SFull, w_goto W125 st)
  | W125 =>
      let prevOut := fst (fetch_and_add (tb_out (tb m))) in
      Some (EvFetchAdd TB COut prevOut,
            mkWorker W129 (w_self st) prevOut (w_data st) (w_workerPid st)
              (w_producerPid st) (w_prevIn st))
  | W129 =>
      let r := load m TB slot FReady in
      Some (EvLoad TB slot FReady r, w_goto (if r =? 0 then W131 else W133) st)
  | W131 => Some (EvUsleep, w_goto W129 st)
  | W133 =>
      let d := load m TB slot FData in
      Some (EvLoad TB slot FData d,
            mkWorker W134 (w_self st) (w_prevOut st) d (w_workerPid st)
              (w_producerPid st) (w_prevIn st))
  | W134 =>
      Some (EvLocal,
            mkWorker W135 (w_self st) (w_prevOut st) (w_data st) (w_self st)
              (w_producerPid st) (w_prevIn st))
  | W135 =>
      let p := load m TB slot FProducerPid in
      Some (EvLoad TB slot FProducerPid p,
            mkWorker W136 (w_self st) (w_prevOut st) (w_data st) (w_workerPid st)
              p (w_prevIn st))
  | W136 => Some (EvBarrier, w_goto W137 st)
  | W137 => Some (EvStore TB slot FReady 0, w_goto W138 st)
  | W138 =>
      Some (EvSemPost TB SEmpty,
            w_goto (if w_data st =? -1 then W141 else W147) st)
  | W141 => Some (EvExit 0, w_goto Wexit st)
  | W147 => Some (EvSemWait LB SEmpty, w_goto W148 st)
  | W148 =>
      let prevIn := fst (fetch_and_add (lb_in (lb m))) in
      Some (EvFetchAdd LB CIn prevIn,
            mkWorker W149 (w_self st) (w_prevOut st) (w_data st) (w_workerPid st)
              (w_producerPid st) prevIn)
  | W149 => Some (EvStore LB lslot FData (w_data st), w_goto W150 st)
  | W150 => Some (EvStore LB lslot FProducerPid (w_producerPid st), w_goto W151 st)
  | W151 => Some (EvStore LB lslot FWorkerPid (w_workerPid st), w_goto W152 st)
  | W152 => Some (EvBarrier, w_goto W153 st)
  | W153 => Some (EvStore LB lslot FReady 1, w_goto W154 st)
  | W154 => Some (EvSemPost LB SFull, w_goto W124 st)
  | Wexit => None
  end.

(** ** logger (lines 158-178) *)

Inductive logger_pc :=
| L162 | L163 | L164 | L165 | L167 | L168 | L169 | L170 | L171 | L172 | L174
| L176 | Lexit.

Record logger_st := mkLogger {
  l_pc : logger_pc;
  l_self : Z;
  l_prevOut : Z;
  l_data : Z;
  l_workerPid : Z;
  l_producerPid : Z
}.

Definition logger_init (pid : Z) : logger_st := mkLogger L162 pid 0 0 0 0.

Definition l_goto (pc : logger_pc) (st : logger_st) : logger_st :=
  mkLogger pc (l_self st) (l_prevOut st) (l_data st) (l_workerPid st)
    (l_producerPid st).

Definition logger_step (st : logger_st) (m : shm) : option (event * logger_st) :=
  let slot := slot_of (l_prevOut st) in
  match l_pc st with
  | L162 => Some (EvSemWait LB SFull, l_goto L163 st)
  | L163 =>
      let prevOut := fst (fetch_and_add (lb_out (lb m))) in
      Some (EvFetchAdd LB COut prevOut,
            mkLogger L164 (l_self st) prevOut (l_data st) (l_workerPid st)
              (l_producerPid st))
  | L164 =>
      let r := load m LB slot FReady in
      Some (EvLoad LB slot FReady r, l_goto (if r =? 0 then L165 else L167) st)
  | L165 => Some (EvUsleep, l_goto L164 st)
  | L167 =>
      let d := load m LB slot FData in
      Some (EvLoad LB slot FData d,
            mkLogger L168 (l_self st) (l_prevOut st) d (l_workerPid st)
              (l_producerPid st))
  | L168 =>
      let w := load m LB slot FWorkerPid in
      Some (EvLoad LB slot FWorkerPid w,
            mkLogger L169 (l_self st) (l_prevOut st) (l_data st) w
              (l_producerPid st))
  | L169 =>
      let p := load m LB slot FProducerPid in
      Some (EvLoad LB slot FProducerPid p,
            mkLogger L170 (l_self st) (l_prevOut st) (l_data st) (l_workerPid st) p)
  | L170 => Some (EvBarrier, l_goto L171 st)
  | L171 => Some (EvStore LB slot FReady 0, l_goto L172 st)
  | L172 =>
      Some (EvSemPost LB SEmpty,
            l_goto (if l_data st =? -1 then L174 else L176) st)
  | L174 => Some (EvExit 0, l_goto Lexit st)
  | L176 =>
      Some (EvWrite STDOUT (l_workerPid st) (l_data st) (l_producerPid st),
            l_goto L162 st)
  | Lexit => None
  end.

(** ** main, the orchestrator (lines 181-266)

    [m_i] is the loop variable [i]; the three pid arrays are lists of the
    arrays' length.  The kth call of [mmap], [sem_init] and [fork] gets the
    environment's kth answer. *)

Inductive main_pc :=
| M186 | M187 | M190 | M191 | M192 | M193 | M202 | M210 | M218 | M227
| M232 | M233 | M234 | M235 | M236 | M237 | M238
| M243 | M244 | M245 | M246 | M247 | M248 | M249
| M254 | M259 | M263 | M264 | M265 | Mexit.

Record main_st := mkMain {
  m_pc : main_pc;
  m_self : Z;
  m_i : nat;
  m_prevIn : Z;
  m_producers : list Z;
  m_workers : list Z;
  m_loggers : list Z
}.

Definition main_init (pid : Z) : main_st :=
  mkMain M186 pid 0 0 (replicate PRODUCERS 0) (replicate WORKERS 0)
    (replicate LOGGERS 0).

Definition m_goto (pc : main_pc) (st : main_st) : main_st :=
  mkMain pc (m_self st) (m_i st) (m_prevIn st) (m_producers st) (m_workers st)
    (m_loggers st).

(** The end of a loop body [for (int i = 0; i < n; i++)]: [i++], then the
    test; [again] is the first statement of the body, [after] the statement
    behind the loop.  Every loop bound of [main] is a positive constant, so
    the first test of each loop succeeds. *)
Definition m_next (n : nat) (again after : main_pc) (st : main_st) : main_st :=
  if decide (S (m_i st) < n)%nat
  then mkMain again (m_self st) (S (m_i st)) (m_prevIn st) (m_producers st)
         (m_workers st) (m_loggers st)
  else mkMain after (m_self st) 0 (m_prevIn st) (m_producers st)
         (m_workers st) (m_loggers st).

Definition m_set_producer (c : Z) (st : main_st) : main_st :=
  mkMain (m_pc st) (m_self st) (m_i st) (m_prevIn st)
    (<[m_i st := c]> (m_producers st)) (m_workers st) (m_loggers st).
Definition m_set_worker (c : Z) (st : main_st) : main_st :=
  mkMain (m_pc st) (m_self st) (m_i st) (m_prevIn st)
    (m_producers st) (<[m_i st := c]> (m_workers st)) (m_loggers st).
Definition m_set_logger (c : Z) (st : main_st) : main_st :=
  mkMain (m_pc st) (m_self st) (m_i st) (m_prevIn st)
    (m_producers st) (m_workers st) (<[m_i st := c]> (m_loggers st)).
Definition m_set_prevIn (v : Z) (st : main_st) : main_st :=
  mkMain (m_pc st) (m_self st) (m_i st) v (m_producers st) (m_workers st)
    (m_loggers st).

Definition main_step (e : os_env) (st : main_st) (m : shm)
  : option (event * main_st) :=
  let tslot := slot_of (m_prevIn st) in
  match m_pc st with
  | M186 => Some (EvMmap TB (os_mmap e 0), m_goto M187 st)
  | M187 => Some (EvMmap LB (os_mmap e 1), m_goto M190 st)
  | M190 => Some (EvSemInit TB SEmpty 1 BUFFER_SIZE (os_sem_init e 0), m_goto M191 st)
  | M191 => Some (EvSemInit TB SFull 1 0 (os_sem_init e 1), m_goto M192 st)
  | M192 => Some (EvSemInit LB SEmpty 1 BUFFER_SIZE (os_sem_init e 2), m_goto M193 st)
  | M193 => Some (EvSemInit LB SFull 1 0 (os_sem_init e 3), m_goto M202 st)
  | M202 =>
      let c := os_fork e (m_i st) in
      Some (EvFork RProducer c, m_next PRODUCERS M202 M210 (m_set_producer c st))
  | M210 =>
      let c := os_fork e (PRODUCERS + m_i st) in
      Some (EvFork RWorker c, m_next WORKERS M210 M218 (m_set_worker c st))
  | M218 =>
      let c := os_fork e (PRODUCERS + WORKERS + m_i st) in
      Some (EvFork RLogger c, m_next LOGGERS M218 M227 (m_set_logger c st))
  | M227 =>
      Some (EvWaitpid (default 0 (m_producers st !! m_i st)),
            m_next PRODUCERS M227 M232 st)
  | M232 => Some (EvSemWait TB SEmpty, m_goto M233 st)
  | M233 =>
      let prevIn := fst (fetch_and_add (tb_in (tb m))) in
      Some (EvFetchAdd TB CIn prevIn, m_goto M234 (m_set_prevIn prevIn st))
  | M234 => Some (EvStore TB tslot FData (-1), m_goto M235 st)
  | M235 => Some (EvStore TB tslot FProducerPid (m_self st), m_goto M236 st)
  | M236 => Some (EvBarrier, m_goto M237 st)
  | M237 => Some (EvStore TB tslot FReady 1, m_goto M238 st)
  | M238 => Some (EvSemPost TB SFull, m_next WORKERS M232 M243 st)
  | M243 => Some (EvSemWait LB SEmpty, m_goto M244 st)
  | M244 =>
      let prevIn := fst (fetch_and_add (lb_in (lb m))) in
      Some (EvFetchAdd LB CIn prevIn, m_goto M245 (m_set_prevIn prevIn st))
  | M245 => Some (EvStore LB tslot FData (-1), m_goto M246 st)
  | M246 => Some (EvStore LB tslot FProducerPid (m_self st), m_goto M247 st)
  | M247 => Some (EvBarrier, m_goto M248 st)
  | M248 => Some (EvStore LB tslot FReady 1, m_goto M249 st)
  | M249 => Some (EvSemPost LB SFull, m_next LOGGERS M243 M254 st)
  | M254 =>
      Some (EvWaitpid (default 0 (m_workers st !! m_i st)),
            m_next WORKERS M254 M259 st)
  | M259 =>
      Some (EvWaitpid (default 0 (m_loggers st !! m_i st)),
            m_next LOGGERS M259 M263 st)
  | M263 => Some (EvMunmap TB, m_goto M264 st)
  | M264 => Some (EvMunmap LB, m_goto M265 st)
  | M265 => Some (EvExit 0, m_goto Mexit st)
  | Mexit => None
  end.

(** ** Processes *)

Inductive code :=
| Producer (st : producer_st)
| Worker (st : worker_st)
| Logger (st : logger_st)
| Main (st : main_st).

(** A process is its code and its address space: [pr_tb] and [pr_lb] say
    whether the pointers [tb] and [lb] designate the live shared mappings
    (they do not after a failed [mmap], whose result is [MAP_FAILED], nor
    after [munmap]). *)
Record proc := mkProc {
  pr_tb : bool;
  pr_lb : bool;
  pr_code : code
}.

Definition code_step (e : os_env) (c : code) (m : shm) : option (event * code) :=
  match c with
  | Producer st => prod_map id Producer <$> producer_step e st m
  | Worker st => prod_map id Worker <$> worker_step st m
  | Logger st => prod_map id Logger <$> logger_step st m
  | Main st => prod_map id Main <$> main_step e st m
  end.

(** The events of one process when it is given the memory [views] one after
    the other, one per step: the memory may have been changed arbitrarily by
    the other processes between two of its steps. *)
Fixpoint local_run (e : os_env) (c : code) (views : list shm) : list event :=
  match views with
  | [] => []
  | m :: views' =>
      match code_step e c m with
      | Some (ev, c') => ev :: local_run e c' views'
      | None => []
      end
  end.

(** The state a process reaches on these views. *)
Fixpoint local_end (e : os_env) (c : code) (views : list shm) : code :=
  match views with
  | [] => c
  | m :: views' =>
      match code_step e c m with
      | Some (_, c') => local_end e c' views'
      | None => c
      end
  end.

Definition exited (c : code) : bool :=
  match c with
  | Producer st => match p_pc st with Pexit => true | _ => false end
  | Worker st => match w_pc st with Wexit => true | _ => false end
  | Logger st => match l_pc st with Lexit => true | _ => false end
  | Main st => match m_pc st with Mexit => true | _ => false end
  end.

(** ** The system *)

Record sys := mkSys {
  mem : shm;
  procs : gmap Z proc
}.

Definition init_sys (e : os_env) : sys :=
  mkSys zero_shm {[ os_pid e := mkProc false false (Main (main_init (os_pid e))) ]}.

Definition has_buf (p : proc) (b : buf) : bool :=
  match b with TB => pr_tb p | LB => pr_lb p end.

(** When the call behind an event returns.  [sem_wait] blocks while the
    count is zero; [waitpid] blocks while the child runs; an access through
    a pointer that is not a live mapping has no defined behaviour and gets
    no step. *)
Definition enabled (ev : event) (p : proc) (s : sys) : bool :=
  match ev with
  | EvSemWait b sm => has_buf p b && (0 <? get_sem (mem s) b sm)
  | EvSemPost b _ | EvFetchAdd b _ _ | EvLoad b _ _ _ | EvStore b _ _ _
  | EvSemInit b _ _ _ _ => has_buf p b
  | EvWaitpid pid =>
      match procs s !! pid with
      | Some q => exited (pr_code q)
      | None => true
      end
  | _ => true
  end.

(** The process after its step: [mmap] and [munmap] change its address
    space. *)
Definition proc_after (ev : event) (p : proc) (c' : code) : proc :=
  match ev with
  | EvMmap TB ok => mkProc ok (pr_lb p) c'
  | EvMmap LB ok => mkProc (pr_tb p) ok c'
  | EvMunmap TB => mkProc false (pr_lb p) c'
  | EvMunmap LB => mkProc (pr_tb p) false c'
  | _ => mkProc (pr_tb p) (pr_lb p) c'
  end.

(** The child of a [fork]: a copy of the parent's address space that runs
    the role's function (lines 202-204, 210-212, 218-220). *)
Definition child_of (p : proc) (r : role) (pid : Z) : proc :=
  mkProc (pr_tb p) (pr_lb p)
    match r with
    | RProducer => Producer (producer_init pid)
    | RWorker => Worker (worker_init pid)
    | RLogger => Logger (logger_init pid)
    end.

Definition spawn (ev : event) (p : proc) (ps : gmap Z proc) : gmap Z proc :=
  match ev with
  | EvFork r child => <[child := child_of p r child]> ps
  | _ => ps
  end.

(** One step of process [pid]. *)
Definition sys_step (e : os_env) (pid : Z) (s : sys) : option (event * sys) :=
  match procs s !! pid with
  | None => None
  | Some p =>
      match code_step e (pr_code p) (mem s) with
      | None => None
      | Some (ev, c') =>
          if enabled ev p s
          then Some (ev, mkSys (mem_apply ev (mem s))
                           (spawn ev p (<[pid := proc_after ev p c']> (procs s))))
          else None
      end
  end.

(** A schedule runs when each of its steps is enabled in turn; the trace
    records who did what. *)
Fixpoint run (e : os_env) (sched : list Z) (s : sys)
  : option (list (Z * event) * sys) :=
  match sched with
  | [] => Some ([], s)
  | pid :: sched' =>
      match sys_step e pid s with
      | None => None
      | Some (ev, s') =>
          match run e sched' s' with
          | None => None
          | Some (tr, s'') => Some ((pid, ev) :: tr, s'')
          end
      end
  end.

(** ** Sample environments

    The clock stands at [t], every setup call succeeds, the orchestrator is
    process 100 and its children are numbered from 101 on; the generator is
    an additive one with 31-bit output. *)
Definition weyl (seed : Z) (k : nat) : Z :=
  (to_uint seed + Z.of_nat (S k) * 1103515245) mod 2147483648.

Definition sample_env (t : Z) : os_env :=
  mkEnv (fun _ => t) weyl (fun _ => true) (fun _ => 0) 100
    (fun k => 101 + Z.of_nat k).

(** The same, but every [sem_init] fails (returns -1). *)
Definition failing_env : os_env :=
  mkEnv (fun _ => 0) weyl (fun _ => true) (fun _ => -1) 100
    (fun k => 101 + Z.of_nat k).

(** The same as [sample_env 0], but [rand] returns 99999999 every time. *)
Definition long_env : os_env :=
  mkEnv (fun _ => 0) (fun _ _ => 99999999) (fun _ => true) (fun _ => 0) 100
    (fun k => 101 + Z.of_nat k).

(** ** The orchestrator's calls, phase by phase

    [tin i] and [lin i] are the cursor values the ith sentinel injection
    into the task buffer and into the log buffer receives. *)

Definition setup_calls (e : os_env) : list event :=
  [EvMmap TB (os_mmap e 0); EvMmap LB (os_mmap e 1);
   EvSemInit TB SEmpty 1 BUFFER_SIZE (os_sem_init e 0);
   EvSemInit TB SFull 1 0 (os_sem_init e 1);
   EvSemInit LB SEmpty 1 BUFFER_SIZE (os_sem_init e 2);
   EvSemInit LB SFull 1 0 (os_sem_init e 3)].

Definition producer_pids (e : os_env) : list Z :=
  os_fork e <$> seq 0 PRODUCERS.
Definition worker_pids (e : os_env) : list Z :=
  os_fork e <$> seq PRODUCERS WORKERS.
Definition logger_pids (e : os_env) : list Z :=
  os_fork e <$> seq (PRODUCERS + WORKERS) LOGGERS.

Definition spawn_calls (e : os_env) : list event :=
  (EvFork RProducer <$> producer_pids e) ++ (EvFork RWorker <$> worker_pids e)
  ++ (EvFork RLogger <$> logger_pids e).

Definition sentinel (b : buf) (self prev : Z) : list event :=
  [EvSemWait b SEmpty; EvFetchAdd b CIn prev;
   EvStore b (slot_of prev) FData (-1);
   EvStore b (slot_of prev) FProducerPid self;
   EvBarrier; EvStore b (slot_of prev) FReady 1; EvSemPost b SFull].

Definition task_sentinels (e : os_env) (tin : nat -> Z) : list event :=
  concat ((fun i => sentinel TB (os_pid e) (tin i)) <$> seq 0 WORKERS).
Definition log_sentinels (e : os_env) (lin : nat -> Z) : list event :=
  concat ((fun i => sentinel LB (os_pid e) (lin i)) <$> seq 0 LOGGERS).

Definition teardown_calls : list event := [EvMunmap TB; EvMunmap LB; EvExit 0].

Definition main_trace (e : os_env) (tin lin : nat -> Z) : list event :=
  setup_calls e ++ spawn_calls e ++ (EvWaitpid <$> producer_pids e)
  ++ task_sentinels e tin ++ log_sentinels e lin
  ++ (EvWaitpid <$> worker_pids e) ++ (EvWaitpid <$> logger_pids e)
  ++ teardown_calls.

(** The cursor values [main] receives on given views: its ith injection into
    the task buffer reads the cursor at its step 29 + 7i, the ith into the
    log buffer at its step 99 + 7i. *)
Definition view_at (views : list shm) (k : nat) : shm :=
  default zero_shm (views !! k).
Definition tin_of (views : list shm) (i : nat) : Z :=
  tb_in (tb (view_at views (29 + 7 * i))).
Definition lin_of (views : list shm) (i : nat) : Z :=
  lb_in (lb (view_at views (99 + 7 * i))).

Definition main_code (e : os_env) : code := Main (main_init (os_pid e)).

(** ** Setup failure, as the orchestrator would have to treat it *)

Definition setup_fails (e : os_env) : Prop :=
  os_mmap e 0 = false \/ os_mmap e 1 = false
  \/ exists k, (k < 4)%nat /\ os_sem_init e k <> 0.

Definition is_diagnostic (ev : event) : bool :=
  match ev with EvWrite fd _ _ _ => fd =? STDERR | _ => false end.

Definition is_abort (ev : event) : bool :=
  match ev with EvExit status => negb (status =? 0) | _ => false end.

(** A trace that ends the run with a diagnostic and a non-zero status
    before any [fork]. *)
Definition aborts_before_spawn (tr : list event) : Prop :=
  exists pre status post,
    tr = pre ++ EvExit status :: post /\ status <> 0
    /\ (exists ev, ev ∈ pre /\ is_diagnostic ev = true)
    /\ (forall r c, EvFork r c ∉ pre).

Definition aborts_on_setup_failure (e : os_env) : Prop :=
  setup_fails e ->
  exists views, aborts_before_spawn (local_run e (main_code e) views).

(** ** The setup phase within the system

    The orchestrator's program point after [k] setup calls, and the process
    it is then: alone in the table, with the mappings that [mmap] gave
    it. *)
Definition setup_pc (k : nat) : main_pc :=
  match k with
  | 0%nat => M186 | 1%nat => M187 | 2%nat => M190 | 3%nat => M191
  | 4%nat => M192 | 5%nat => M193 | _ => M202
  end.

Definition setup_proc (e : os_env) (k : nat) : proc :=
  mkProc ((0 <? k)%nat && os_mmap e 0) ((1 <? k)%nat && os_mmap e 1)
    (Main (m_goto (setup_pc k) (main_init (os_pid e)))).

Definition in_setup (e : os_env) (k : nat) (s : sys) : Prop :=
  procs s = {[ os_pid e := setup_proc e k ]}.

(** An event that is neither a line on the error stream nor an exit with a
    non-zero status. *)
Definition quiet (x : Z * event) : Prop :=
  is_diagnostic x.2 = false /\ is_abort x.2 = false.

Definition is_fork (x : Z * event) : bool :=
  match x.2 with EvFork _ _ => true | _ => false end.

(** The same as [sample_env 0], but every [mmap] fails. *)
Definition unmapped_env : os_env :=
  mkEnv (fun _ => 0) weyl (fun _ => false) (fun _ => 0) 100
    (fun k => 101 + Z.of_nat k).

(** The same as [sample_env 0], but the mapping of the log buffer fails. *)
Definition lb_unmapped_env : os_env :=
  mkEnv (fun _ => 0) weyl (fun k => Nat.eqb k 0) (fun _ => 0) 100
    (fun k => 101 + Z.of_nat k).

(** All that the system does when the log buffer is not mapped. *)
Definition failed_mmap_trace : list (Z * event) :=
  [(100, EvMmap TB true); (100, EvMmap LB false);
   (100, EvSemInit TB SEmpty 1 1024 0); (100, EvSemInit TB SFull 1 0 0)].

(** ** Claims on a cursor *)

(** The values [n] successive [__sync_fetch_and_add] calls return on a
    cursor that holds [cur]. *)
Fixpoint claims (n : nat) (cur : Z) : list Z :=
  match n with
  | O => []
  | S n' => fst (fetch_and_add cur) :: claims n' (snd (fetch_and_add cur))
  end.

(** The cursor values handed out on cursor [c] of buffer [b] in a trace, in
    order. *)
Definition claim_of (b : buf) (c : cursor) (x : Z * event) : option Z :=
  match x.2 with
  | EvFetchAdd b' c' prev =>
      if buf_eqb b' b && cursor_eqb c' c then Some prev else None
  | _ => None
  end.

Definition claimed (b : buf) (c : cursor) (tr : list (Z * event)) : list Z :=
  omap (claim_of b c) tr.

(** The payloads a process publishes into the task buffer, in order. *)
Definition payload_of_event (ev : event) : option Z :=
  match ev with
  | EvStore TB _ FData v => Some v
  | _ => None
  end.

Definition payloads (tr : list event) : list Z := omap payload_of_event tr.

(** ** A schedule of the race on a task slot

    The orchestrator sets up and spawns (23 steps); producer 101 seeds,
    draws its task size and fills all 1024 slots (2 + 7 * 1024 steps);
    worker 106 claims cursor 0 and is preempted; worker 107 claims cursor 1,
    consumes slot 1 and posts [empty]; producer 101 then passes [sem_wait]
    and claims cursor 1024. *)
Definition race_schedule : list Z :=
  replicate 23 100 ++ replicate (2 + 7 * 1024) 101 ++ replicate 2 106
  ++ replicate 9 107 ++ replicate 2 101.

(** The race continued: the producer publishes into the slot it claimed,
    and only then does worker 106 read the slot of its cursor 0. *)
Definition race_schedule_lost : list Z :=
  race_schedule ++ replicate 5 101 ++ replicate 3 106.

(** The trace of [race_schedule]: 7206 events, 1025 of them write claims
    on the task buffer. *)
Definition race_trace : list (Z * event) :=
  match run (sample_env 0) race_schedule (init_sys (sample_env 0)) with
  | Some (tr, _) => tr
  | None => []
  end.

(** ** Publishing a slot *)

(** The last three events of a publication into slot [slot] of buffer [b]. *)
Definition publish_tail (b : buf) (slot : Z) : list event :=
  [EvBarrier; EvStore b slot FReady 1; EvSemPost b SFull].

(** A store to a payload or origin field of the slot. *)
Definition is_field_store (b : buf) (slot : Z) (ev : event) : Prop :=
  exists f v, ev = EvStore b slot f v /\ f <> FReady.

(** ** A worker's consumption and forwarding *)

(** Lines 133-138 on slot [slot], reading payload [d] and origin [pp]. *)
Definition consume_events (slot d pp : Z) : list event :=
  [EvLoad TB slot FData d; EvLocal; EvLoad TB slot FProducerPid pp;
   EvBarrier; EvStore TB slot FReady 0; EvSemPost TB SEmpty].

(** Lines 147-154 by worker [self] on the log cursor [prev]. *)
Definition forward_events (self d pp prev : Z) : list event :=
  [EvSemWait LB SEmpty; EvFetchAdd LB CIn prev;
   EvStore LB (slot_of prev) FData d;
   EvStore LB (slot_of prev) FProducerPid pp;
   EvStore LB (slot_of prev) FWorkerPid self;
   EvBarrier; EvStore LB (slot_of prev) FReady 1; EvSemPost LB SFull].

(** ** Producers that differ only in what the generator does not see *)

Definition same_progress (e : os_env) (a b : producer_st) : Prop :=
  p_pc a = p_pc b /\ p_seed a = p_seed b /\ p_calls a = p_calls b
  /\ p_taskSize a = p_taskSize b /\ p_i a = p_i b
  /\ os_time e (p_self a) = os_time e (p_self b).

Definition taskSize_in (c : code) : Z :=
  match c with Producer st => p_taskSize st | _ => 0 end.

(** The accesses to the payload of task slot [slot] in a trace. *)
Definition touches_payload (slot : Z) (x : Z * event) : option (Z * event) :=
  match x.2 with
  | EvStore TB idx FData _ | EvLoad TB idx FData _ =>
      if idx =? slot then Some x else None
  | _ => None
  end.

Definition payload_accesses (slot : Z) (tr : list (Z * event)) : list (Z * event) :=
  omap (touches_payload slot) tr.

(** ** How many write claims a process may still make

    [MAXB] is the largest task size line 88 can produce when [rand()] is
    not negative.  [budget TB c] bounds the write claims on the task buffer
    that the process [c], and the children it has yet to fork, may still
    make; [budget LB c] bounds the [full] posts it may still make on the
    task buffer plus its future write claims on the log buffer: every item
    posted on the task buffer is forwarded to the log buffer at most once. *)
Definition MAXB : Z := MIN_TASK_SIZE + MAX_TASK_SIZE - 1.

Definition producer_budget (b : buf) (st : producer_st) : Z :=
  match p_pc st with
  | P86 | P88 => MAXB
  | P92 | P101 => p_taskSize st - p_i st
  | P102 | P103 | P108 | P111 | P114 =>
      match b with
      | TB => p_taskSize st - p_i st - 1
      | LB => p_taskSize st - p_i st
      end
  | P204 | Pexit => 0
  end.

Definition worker_budget (b : buf) (st : worker_st) : Z :=
  match b with
  | TB => 0
  | LB =>
      match w_pc st with
      | W125 | W129 | W131 | W133 | W134 | W135 | W136 | W137 | W138
      | W147 | W148 => 1
      | _ => 0
      end
  end.

Definition main_budget (b : buf) (st : main_st) : Z :=
  let i := Z.of_nat (m_i st) in
  let logs := match b with TB => 0 | LB => Z.of_nat LOGGERS end in
  match m_pc st with
  | M186 | M187 | M190 | M191 | M192 | M193 =>
      Z.of_nat PRODUCERS * MAXB + Z.of_nat WORKERS + logs
  | M202 => (Z.of_nat PRODUCERS - i) * MAXB + Z.of_nat WORKERS + logs
  | M210 | M218 | M227 => Z.of_nat WORKERS + logs
  | M232 | M233 => Z.of_nat WORKERS - i + logs
  | M234 | M235 | M236 | M237 | M238 =>
      match b with
      | TB => Z.of_nat WORKERS - i - 1
      | LB => Z.of_nat WORKERS - i + logs
      end
  | M243 | M244 => match b with TB => 0 | LB => logs - i end
  | M245 | M246 | M247 | M248 | M249 =>
      match b with TB => 0 | LB => logs - i - 1 end
  | _ => 0
  end.

Definition budget (b : buf) (c : code) : Z :=
  match c with
  | Producer st => producer_budget b st
  | Worker st => worker_budget b st
  | Logger _ => 0
  | Main st => main_budget b st
  end.

(** What the loops keep true of their counters. *)
Definition producer_ok (st : producer_st) : Prop :=
  match p_pc st with
  | P92 | P101 | P102 | P103 | P108 | P111 | P114 =>
      0 <= p_i st < p_taskSize st /\ p_taskSize st <= MAXB
  | _ => True
  end.

Definition main_ok (st : main_st) : Prop :=
  match m_pc st with
  | M186 | M187 | M190 | M191 | M192 | M193 => m_i st = 0%nat
  | M202 => (m_i st < PRODUCERS)%nat
  | M232 | M233 | M234 | M235 | M236 | M237 | M238 => (m_i st < WORKERS)%nat
  | M243 | M244 | M245 | M246 | M247 | M248 | M249 => (m_i st < LOGGERS)%nat
  | _ => True
  end.

Definition code_ok (c : code) : Prop :=
  match c with
  | Producer st => producer_ok st
  | Main st => main_ok st
  | _ => True
  end.

(** What an event takes from the budget of the process that performs it:
    a write claim on [b]; for the log buffer, a post of the task buffer's
    [full] (and a wait on it gives back, to the worker that will forward
    the item); the budget handed to a forked producer. *)
Definition claim_gain (b : buf) (ev : event) : Z :=
  match ev with
  | EvFetchAdd b' CIn _ => if buf_eqb b' b then 1 else 0
  | _ => 0
  end.

Definition full_gain (b : buf) (ev : event) : Z :=
  match b, ev with
  | LB, EvSemWait TB SFull => -1
  | LB, EvSemPost TB SFull => 1
  | _, _ => 0
  end.

Definition fork_gain (ev : event) : Z :=
  match ev with
  | EvFork RProducer _ => MAXB
  | _ => 0
  end.

(** The only [sem_init] of a [full] semaphore sets it to zero. *)
Definition event_wf (ev : event) : Prop :=
  match ev with
  | EvSemInit _ SFull _ value _ => value = 0
  | _ => True
  end.

Definition total_budget (b : buf) (ps : gmap Z proc) : Z :=
  map_fold (fun _ p acc => budget b (pr_code p) + acc) 0 ps.

(** The potential of a state: the budgets of all processes, plus, for the
    log buffer, the items posted on the task buffer and not yet taken. *)
Definition potential (b : buf) (s : sys) : Z :=
  match b with TB => 0 | LB => tb_full (tb (mem s)) end
  + total_budget b (procs s).

Definition sys_ok (s : sys) : Prop :=
  (forall pid p, procs s !! pid = Some p -> code_ok (pr_code p))
  /\ 0 <= tb_full (tb (mem s)).

(** [rand] never returns a negative value. *)
Definition rand_nonneg (e : os_env) : Prop :=
  forall seed k, 0 <= os_rand e seed k.

(** The events of process [pid] in a trace of the system. *)
Definition event_by (pid : Z) (x : Z * event) : option event :=
  if x.1 =? pid then Some x.2 else None.

Definition events_of (pid : Z) (tr : list (Z * event)) : list event :=
  omap (event_by pid) tr.

(** ** Tokens held by a process

    A process that has passed [sem_wait] on [empty] and not yet claimed the
    write cursor, or that has claimed the read cursor and not yet posted
    [empty], holds one free-slot token of the buffer ([empty_hold]); the
    orchestrator also holds the [BUFFER_SIZE] tokens it is about to put
    into [empty] with [sem_init].  A process that has claimed the write
    cursor and not yet posted [full], or that has passed [sem_wait] on
    [full] and not yet claimed the read cursor, holds one filled-slot token
    ([full_hold]). *)
Definition empty_hold (b : buf) (c : code) : Z :=
  match b, c with
  | TB, Producer st => match p_pc st with P101 => 1 | _ => 0 end
  | TB, Worker st =>
      match w_pc st with
      | W129 | W131 | W133 | W134 | W135 | W136 | W137 | W138 => 1
      | _ => 0
      end
  | TB, Main st =>
      match m_pc st with
      | M186 | M187 | M190 => BUFFER_SIZE
      | M233 => 1
      | _ => 0
      end
  | LB, Worker st => match w_pc st with W148 => 1 | _ => 0 end
  | LB, Logger st =>
      match l_pc st with
      | L164 | L165 | L167 | L168 | L169 | L170 | L171 | L172 => 1
      | _ => 0
      end
  | LB, Main st =>
      match m_pc st with
      | M186 | M187 | M190 | M191 | M192 => BUFFER_SIZE
      | M244 => 1
      | _ => 0
      end
  | _, _ => 0
  end.

Definition full_hold (b : buf) (c : code) : Z :=
  match b, c with
  | TB, Producer st =>
      match p_pc st with
      | P102 | P103 | P108 | P111 | P114 => 1
      | _ => 0
      end
  | TB, Worker st => match w_pc st with W125 => 1 | _ => 0 end
  | TB, Main st =>
      match m_pc st with
      | M234 | M235 | M236 | M237 | M238 => 1
      | _ => 0
      end
  | LB, Worker st =>
      match w_pc st with
      | W149 | W150 | W151 | W152 | W153 | W154 => 1
      | _ => 0
      end
  | LB, Logger st => match l_pc st with L163 => 1 | _ => 0 end
  | LB, Main st =>
      match m_pc st with
      | M245 | M246 | M247 | M248 | M249 => 1
      | _ => 0
      end
  | _, _ => 0
  end.

(** The sum of a weight over the process table. *)
Definition total_with (w : code -> Z) (ps : gmap Z proc) : Z :=
  map_fold (fun _ p acc => w (pr_code p) + acc) 0 ps.

(** A read claim on buffer [b]. *)
Definition read_gain (b : buf) (ev : event) : Z :=
  match ev with
  | EvFetchAdd b' COut _ => if buf_eqb b' b then 1 else 0
  | _ => 0
  end.

(** The sum of a gain over the events of a trace. *)
Definition sum_gain (g : event -> Z) (tr : list (Z * event)) : Z :=
  foldr (fun x acc => g x.2 + acc) 0 tr.

(** No semaphore count is negative. *)
Definition sems_nonneg (m : shm) : Prop :=
  0 <= tb_empty (tb m) /\ 0 <= tb_full (tb m)
  /\ 0 <= lb_empty (lb m) /\ 0 <= lb_full (lb m).

(** ** What a producer publishes

    The task size producer [pid] draws and its jth payload, as functions of
    the clock and of the generator. *)
Definition producer_taskSize (e : os_env) (pid : Z) : Z :=
  taskSize_of (os_rand e (to_uint (os_time e pid)) 0).

Definition producer_payload (e : os_env) (pid : Z) (j : nat) : Z :=
  payload_of (os_rand e (to_uint (os_time e pid)) (S j)).

(** ** A logger's consumption

    Lines 167-172 on slot [slot], reading payload [d], processor [w] and
    origin [pp]. *)
Definition log_consume_events (slot d w pp : Z) : list event :=
  [EvLoad LB slot FData d; EvLoad LB slot FWorkerPid w;
   EvLoad LB slot FProducerPid pp; EvBarrier; EvStore LB slot FReady 0;
   EvSemPost LB SEmpty].

(** ** Sentinels and output

    What the tests of lines 140 and 173 establish: a worker past line 141
    and a logger at line 176 hold a payload that is not the sentinel.  The
    orchestrator's code runs under the orchestrator's pid only. *)
Definition code_inv (e : os_env) (pid : Z) (c : code) : Prop :=
  match c with
  | Producer _ => True
  | Worker st =>
      match w_pc st with
      | W147 | W148 | W149 | W150 | W151 | W152 | W153 | W154 => w_data st <> -1
      | _ => True
      end
  | Logger st =>
      match l_pc st with
      | L176 => l_data st <> -1
      | _ => True
      end
  | Main _ => pid = os_pid e
  end.

(** A store of the sentinel into a payload field is the orchestrator's. *)
Definition sentinel_from_main (e : os_env) (x : Z * event) : Prop :=
  match x.2 with
  | EvStore _ _ FData v => v = -1 -> x.1 = os_pid e
  | _ => True
  end.

(** A line goes to the standard output and carries no sentinel; an exit
    has status 0. *)
Definition clean_output (x : Z * event) : Prop :=
  match x.2 with
  | EvWrite fd _ d _ => fd = STDOUT /\ d <> -1
  | EvExit status => status = 0
  | _ => True
  end.

(** The pids [main] forks and the pids it waits for, in order, and the
    sentinels it stores into a buffer. *)
Definition forked (tr : list event) : list Z :=
  omap (fun ev => match ev with EvFork _ c => Some c | _ => None end) tr.

Definition waited (tr : list event) : list Z :=
  omap (fun ev => match ev with EvWaitpid p => Some p | _ => None end) tr.

Definition sentinel_stores (b : buf) (tr : list event) : list Z :=
  omap (fun ev =>
          match ev with
          | EvStore b' idx FData v =>
              if buf_eqb b' b && (v =? -1) then Some idx else None
          | _ => None
          end) tr.

(** ** A process running alone

    [solo e n p m] is [n] consecutive steps of the process [p] on the memory
    [m], with no step of any other process in between; it is undefined when
    a step is blocked.  A process that runs alone neither forks nor sees a
    child exit. *)
Definition solo_enabled (ev : event) (p : proc) (m : shm) : bool :=
  match ev with
  | EvSemWait b sm => has_buf p b && (0 <? get_sem m b sm)
  | EvSemPost b _ | EvFetchAdd b _ _ | EvLoad b _ _ _ | EvStore b _ _ _
  | EvSemInit b _ _ _ _ => has_buf p b
  | EvFork _ _ | EvWaitpid _ => false
  | _ => true
  end.

Fixpoint solo (e : os_env) (n : nat) (p : proc) (m : shm)
  : option (list event * proc * shm) :=
  match n with
  | O => Some ([], p, m)
  | S n' =>
      match code_step e (pr_code p) m with
      | None => None
      | Some (ev, c') =>
          if solo_enabled ev p m
          then match solo e n' (proc_after ev p c') (mem_apply ev m) with
               | Some (evs, p', m') => Some (ev :: evs, p', m')
               | None => None
               end
          else None
      end
  end.

(** One item through the pipeline: a producer's iteration (7 steps), a
    worker's (17 steps) and a logger's (10 steps), one after the other. *)
Definition pipeline_schedule (producer worker logger : Z) : list Z :=
  replicate 7 producer ++ replicate 17 worker ++ replicate 10 logger.

(** The state of the sample system once the orchestrator has spawned its
    children and producer 101 has drawn its task size. *)
Definition spawned_state : sys :=
  match run (sample_env 0) (replicate 23 100 ++ replicate 2 101)
          (init_sys (sample_env 0)) with
  | Some (_, s) => s
  | None => init_sys (sample_env 0)
  end.

(** The buffer and slot a consumer is polling, when it is in the loop of
    lines 129-132 or 164-166. *)
Definition polling (c : code) : option (buf * Z) :=
  match c with
  | Worker st =>
      match w_pc st with
      | W129 | W131 => Some (TB, slot_of (w_prevOut st))
      | _ => None
      end
  | Logger st =>
      match l_pc st with
      | L164 | L165 => Some (LB, slot_of (l_prevOut st))
      | _ => None
      end
  | _ => None
  end.

(** The sample system with one item pushed through the pipeline. *)
Definition sample_pipeline_schedule : list Z :=
  replicate 23 100 ++ replicate 2 101 ++ pipeline_schedule 101 106 116.

(** A task buffer whose slot 0 has been published. *)
Definition ready_shm : shm := store TB 0 FReady 1 (store TB 0 FData 7 zero_shm).

Definition sample_pipeline_trace : list (Z * event) :=
  match run (sample_env 0) sample_pipeline_schedule (init_sys (sample_env 0)) with
  | Some (tr, _) => tr
  | None => []
  end.

Definition sample_pipeline_state : sys :=
  match run (sample_env 0) sample_pipeline_schedule (init_sys (sample_env 0)) with
  | Some (_, s) => s
  | None => init_sys (sample_env 0)
  end.

(** * shell.c and unnamed/part_000: the two shells

    Both shells read a line, cut it into tokens with [strtok] and hand the
    token array to [processTask].  A C string is the list of the characters
    before its terminating NUL.  A cell of the token array is a pointer to
    a string, the null pointer, or indeterminate (memory as [malloc]
    returns it).  A function is undefined ([None]) where the source reads
    or writes outside the array or passes [strcmp] something that is not a
    string. *)

Definition str : Type := list ascii.

Inductive cell :=
  | Uninit
  | Null
  | Ptr (s : str).

Definition NUL : ascii := "000"%char.
Definition SPACE : str := [" "%char].
Definition EXIT : str := ["e"; "x"; "i"; "t"]%char.
Definition BAR : str := ["|"%char].
Definition AMP : str := ["&"%char].

(** ** <string.h> *)

(** [strcmp a b == 0]. *)
Fixpoint str_eqb (a b : str) : bool :=
  match a, b with
  | [], [] => true
  | x :: a', y :: b' => Ascii.eqb x y && str_eqb a' b'
  | _, _ => false
  end.

Definition strcmp0 (c : cell) (s : str) : option bool :=
  match c with
  | Ptr t => Some (str_eqb t s)
  | _ => None
  end.

Definition is_delim (delim : str) (c : ascii) : bool :=
  existsb (Ascii.eqb c) delim.

(** [strtok]: skip the leading delimiters; the token runs up to the next
    delimiter, which is overwritten with NUL, and the scan resumes behind
    it at the next call.  [strtok delim s] is the token found in [s], if
    any, and the string the next call with a null first argument scans. *)
Fixpoint skip_delims (delim s : str) : str :=
  match s with
  | [] => []
  | c :: s' => if is_delim delim c then skip_delims delim s' else s
  end.

Fixpoint token_end (delim s : str) : str * str :=
  match s with
  | [] => ([], [])
  | c :: s' =>
      if is_delim delim c then ([], s')
      else let (t, r) := token_end delim s' in (c :: t, r)
  end.

Definition strtok (delim s : str) : option str * str :=
  match skip_delims delim s with
  | [] => (None, [])
  | s' => let (t, r) := token_end delim s' in (Some t, r)
  end.

(** [strcpy]'s source: the characters before the first NUL. *)
Fixpoint c_string (bytes : str) : str :=
  match bytes with
  | [] => []
  | c :: bytes' => if Ascii.eqb c NUL then [] else c :: c_string bytes'
  end.

(** ** The token array *)

(** [tokens[i] = v]. *)
Definition tokens_store (tokens : list cell) (i : Z) (v : cell)
  : option (list cell) :=
  if (0 <=? i) && (i <? Z.of_nat (length tokens))
  then Some (<[Z.to_nat i := v]> tokens)
  else None.

(** [tokens[i]]. *)
Definition tokens_read (tokens : list cell) (i : Z) : option cell :=
  if 0 <=? i then tokens !! Z.to_nat i else None.

(** The argument vector [execvp] is given with a pointer to the head of
    [cells]: the strings up to the first null pointer. *)
Fixpoint argv_of (cells : list cell) : option (list str) :=
  match cells with
  | Ptr s :: cells' => (fun a => s :: a) <$> argv_of cells'
  | Null :: _ => Some []
  | _ => None
  end.

Definition argv_at (tokens : list cell) (start : Z) : option (list str) :=
  if 0 <=? start then argv_of (drop (Z.to_nat start) tokens) else None.

(** The loop of [getTokens] (shell.c, lines 12-19; part_000, lines 14-21)
    with [room] iterations left before [i] reaches its bound; [token] is
    the last result of [strtok] and [saved] what the next call scans. *)
Fixpoint getTokens_loop (room : nat) (delim : str) (token : option str)
    (saved : str) (i : Z) (tokens : list cell) : option (list cell * Z) :=
  match token, room with
  | Some t, S room' =>
      match tokens_store tokens i (Ptr t) with
      | Some tokens' =>
          let (token', saved') := strtok delim saved in
          getTokens_loop room' delim token' saved' (i + 1) tokens'
      | None => None
      end
  | _, _ =>
      match tokens_store tokens i Null with
      | Some tokens' => Some (tokens', i)
      | None => None
      end
  end.

(** What [processTask] does with the token array before it forks. *)
Inductive action :=
  | Exit (status : Z)
  | Pipeline (tokens : list cell) (command2 : Z)
  | Run (tokens : list cell) (bgProcess : bool).

(** The characters of the line that [main] copies into [token_line], a
    block of 100 bytes: the input without its last character, up to the
    first NUL (shell.c, lines 68-70; part_000, lines 186-188). *)
Definition token_line (input : str) : option str :=
  match input with
  | [] => None
  | _ =>
      let line := c_string (removelast input) in
      if (length line <? 100)%nat then Some line else None
  end.

Module ShellC.

(** shell.c, lines 8-20: the first token is cut at a space, whatever
    [delim] is; at most 19 tokens are stored. *)
Definition getTokens (tokens : list cell) (line delim : str)
  : option (list cell) :=
  let (token, saved) := strtok SPACE line in
  fst <$> getTokens_loop 19 delim token saved 0 tokens.

(** shell.c, lines 25-31. *)
Definition processTask (tokens : list cell) : option action :=
  command ← tokens_read tokens 0;
  is_exit ← strcmp0 command EXIT;
  if is_exit : bool then Some (Exit 0) else Some (Run tokens false).

(** shell.c, lines 64-73: one line of input. *)
Definition main_iteration (input : str) : option action :=
  line ← token_line input;
  tokens ← getTokens (replicate 20 Uninit) line SPACE;
  processTask tokens.

End ShellC.

Module Part000.

(** part_000, lines 11-22: at most 100 tokens are stored; the result is
    their number. *)
Definition getTokens (tokens : list cell) (line delim : str)
  : option (list cell * Z) :=
  let (token, saved) := strtok delim line in
  getTokens_loop 100 delim token saved 0 tokens.

(** The search of lines 86-91, from [i] on, with [n] tokens left. *)
Fixpoint find_pipe (tokens : list cell) (n : nat) (i : Z) : option Z :=
  match n with
  | O => Some (-1)
  | S n' =>
      c ← tokens_read tokens i;
      is_bar ← strcmp0 c BAR;
      if is_bar : bool then Some i else find_pipe tokens n' (i + 1)
  end.

(** part_000, lines 74-110. *)
Definition processTask (tokens : list cell) (tokensSize : Z) : option action :=
  lastToken ← tokens_read tokens (tokensSize - 1);
  command ← tokens_read tokens 0;
  is_exit ← strcmp0 command EXIT;
  if is_exit : bool then Some (Exit 0)
  else
    pipeIndex ← find_pipe tokens (Z.to_nat tokensSize) 0;
    if negb (pipeIndex =? -1) then
      tokens' ← tokens_store tokens pipeIndex Null;
      Some (Pipeline tokens' (pipeIndex + 1))
    else
      is_bg ← strcmp0 lastToken AMP;
      if is_bg : bool then
        tokens' ← tokens_store tokens (tokensSize - 1) Null;
        Some (Run tokens' true)
      else Some (Run tokens false).

(** part_000, lines 183-191: one line of input. *)
Definition main_iteration (input : str) : option action :=
  line ← token_line input;
  '(tokens, tokensSize) ← getTokens (replicate 101 Uninit) line SPACE;
  processTask tokens tokensSize.

End Part000.

(** ** Words and lines

    A token is a non-empty string without a delimiter; the words of a
    shell line hold neither a space nor a NUL.  [join ws] is the line that
    separates the words [ws] by single spaces.  [loop_tokens] lists the
    tokens that [getTokens_loop] stores. *)
Definition word (delim w : str) : Prop :=
  w <> [] /\ Forall (fun c => is_delim delim c = false) w.

Definition shell_word (w : str) : Prop :=
  w <> [] /\ Forall (fun c => c <> " "%char /\ c <> NUL) w.

Fixpoint join (ws : list str) : str :=
  match ws with
  | [] => []
  | [w] => w
  | w :: ws' => w ++ " "%char :: join ws'
  end.

Fixpoint loop_tokens (room : nat) (delim : str) (token : option str)
    (saved : str) : list str :=
  match token, room with
  | Some t, S room' =>
      t :: (let (token', saved') := strtok delim saved in
            loop_tokens room' delim token' saved')
  | _, _ => []
  end.

(** Sample words and an input line. *)
Definition LS : str := ["l"; "s"]%char.
Definition DASH_L : str := ["-"; "l"]%char.
Definition WC : str := ["w"; "c"]%char.
Definition sample_input : str := join [LS; DASH_L] ++ ["010"%char].

(** * Properties *)

(** Case analysis on the role and the program point of a process. *)
Ltac by_program_point c :=
  let st := fresh "st" in
  destruct c as [st|st|st|st]; simpl;
  [unfold producer_step; destruct (p_pc st)
  |unfold worker_step; destruct (w_pc st)
  |unfold logger_step; destruct (l_pc st)
  |unfold main_step; destruct (m_pc st)]; simpl.

(** ** C arithmetic of the producer *)

Lemma c_rem_nonneg_range (r n : Z) : 0 <= r -> 0 < n -> 0 <= c_rem r n < n.
Proof. intros Hr Hn. unfold c_rem. apply Z.rem_bound_pos; lia. Qed.

Lemma to_int_small (x : Z) : - 2 ^ 31 <= x < 2 ^ 31 -> to_int x = x.
Proof.
  intros Hx. unfold to_int.
  rewrite Z.mod_small by lia. lia.
Qed.

Lemma to_ull_small (x : Z) : 0 <= x < 2 ^ 64 -> to_ull x = x.
Proof. intros Hx. unfold to_ull. now apply Z.mod_small. Qed.

(** What line 88 really guarantees. *)
Lemma taskSize_of_range (r : Z) :
  0 <= r ->
  MIN_TASK_SIZE <= taskSize_of r <= MIN_TASK_SIZE + MAX_TASK_SIZE - 1.
Proof.
  intros Hr. unfold taskSize_of.
  pose proof (c_rem_nonneg_range r MAX_TASK_SIZE Hr eq_refl) as Hb.
  unfold MIN_TASK_SIZE, MAX_TASK_SIZE in *.
  rewrite to_int_small by lia.
  rewrite to_ull_small by lia. lia.
Qed.

Lemma payload_of_range (r : Z) : 0 <= r -> 0 <= payload_of r <= INT_MAX - 1.
Proof.
  intros Hr. unfold payload_of.
  pose proof (c_rem_nonneg_range r INT_MAX Hr eq_refl). lia.
Qed.

(** C3 (the code departs from it).  A producer whose first [rand()] returns
    99999999, a value within [0, RAND_MAX], performs 109999999 iterations,
    more than [MAX_TASK_SIZE]: line 88 adds [MIN_TASK_SIZE] to a remainder
    that already ranges up to [MAX_TASK_SIZE - 1]. *)
Theorem taskSize_exceeds_MAX_TASK_SIZE :
  0 <= 99999999 <= RAND_MAX
  /\ taskSize_of 99999999 = 109999999
  /\ MAX_TASK_SIZE < taskSize_of 99999999
  /\ local_end long_env (Producer (producer_init 101)) [zero_shm; zero_shm]
     = Producer (mkProducer P92 101 0 1 109999999 0 0).
Proof. vm_compute. repeat split; congruence. Qed.

(** C4.  Whenever a producer stores a payload (line 103) and the value
    [rand()] returned there lies in [0, RAND_MAX], the payload stored is
    not the sentinel -1. *)
Theorem producer_payload_not_sentinel (e : os_env) (st st' : producer_st)
    (m : shm) (idx v : Z) :
  0 <= os_rand e (p_seed st) (p_calls st) <= RAND_MAX ->
  producer_step e st m = Some (EvStore TB idx FData v, st') ->
  v <> -1.
Proof.
  intros Hr Hstep. unfold producer_step in Hstep.
  destruct (p_pc st); try discriminate; injection Hstep as _ Hv _.
  pose proof (payload_of_range _ (proj1 Hr)). lia.
Qed.

Lemma producer_payload_not_sentinel_witness :
  payload_of (weyl 0 0) <> -1.
Proof.
  apply (producer_payload_not_sentinel (sample_env 0)
           (mkProducer P103 101 0 0 10000000 0 0)
           (mkProducer P108 101 0 1 10000000 0 0) zero_shm 0).
  - vm_compute. split; congruence.
  - reflexivity.
Defined.

(** C9.  Every payload a producer stores is [r % INT_MAX] for the value
    [r] of [rand()], and for [r >= 0] it lies in [0, INT_MAX - 1]: it is
    non-negative, hence never a sentinel. *)
Theorem producer_payload_nonneg (e : os_env) (st st' : producer_st)
    (m : shm) (idx v : Z) :
  0 <= os_rand e (p_seed st) (p_calls st) ->
  producer_step e st m = Some (EvStore TB idx FData v, st') ->
  v = payload_of (os_rand e (p_seed st) (p_calls st))
  /\ 0 <= v <= INT_MAX - 1.
Proof.
  intros Hr Hstep. unfold producer_step in Hstep.
  destruct (p_pc st) eqn:Hpc; try discriminate.
  injection Hstep as _ Hv _. subst v. split; [reflexivity|].
  now apply payload_of_range.
Qed.

Lemma producer_payload_nonneg_witness :
  1103515245 = payload_of (weyl 0 0) /\ 0 <= 1103515245 <= INT_MAX - 1.
Proof.
  apply (producer_payload_nonneg (sample_env 0)
           (mkProducer P103 101 0 0 10000000 0 0)
           (mkProducer P108 101 0 1 10000000 0 0) zero_shm 0).
  - vm_compute. congruence.
  - reflexivity.
Defined.

(** ** The orchestrator *)

(** [main] has no branch on what it reads: on any views its events are the
    phases of [main_trace], cut to the number of steps taken. *)
Lemma main_local_run (e : os_env) (views : list shm) :
  local_run e (main_code e) views
  = take (length views) (main_trace e (tin_of views) (lin_of views)).
Proof.
  do 127 (destruct views as [|? views]; [reflexivity|]).
  destruct views; reflexivity.
Qed.

Lemma main_trace_length (e : os_env) (tin lin : nat -> Z) :
  length (main_trace e tin lin) = 127%nat.
Proof. reflexivity. Qed.

Lemma main_trace_quiet (e : os_env) (tin lin : nat -> Z) :
  Forall (fun ev => is_diagnostic ev = false /\ is_abort ev = false)
    (main_trace e tin lin).
Proof.
  unfold main_trace, setup_calls, spawn_calls, task_sentinels, log_sentinels,
    producer_pids, worker_pids, logger_pids, teardown_calls.
  cbn. repeat (constructor; [split; reflexivity|]). constructor.
Qed.

Lemma main_never_aborts (e : os_env) (views : list shm) (ev : event) :
  ev ∈ local_run e (main_code e) views ->
  is_diagnostic ev = false /\ is_abort ev = false.
Proof.
  rewrite main_local_run. intros Hin.
  apply (subseteq_take (length views)) in Hin.
  pose proof (main_trace_quiet e (tin_of views) (lin_of views)) as Hq.
  rewrite Forall_forall in Hq. now apply Hq.
Qed.

(** C1 (the code departs from it).  On a complete run the orchestrator's
    events are, in this order: setup, spawn, the wait for the producers,
    the [WORKERS] sentinels for the task buffer, the [LOGGERS] sentinels for
    the log buffer, and only then the wait for the workers, the wait for
    the loggers and the teardown.  The log sentinels are injected before
    any worker has been waited for. *)
Theorem main_shutdown_order (e : os_env) (views : list shm) :
  (127 <= length views)%nat ->
  local_run e (main_code e) views
  = (setup_calls e ++ spawn_calls e ++ (EvWaitpid <$> producer_pids e)
     ++ task_sentinels e (tin_of views))
    ++ log_sentinels e (lin_of views)
    ++ (EvWaitpid <$> worker_pids e)
    ++ (EvWaitpid <$> logger_pids e) ++ teardown_calls.
Proof.
  intros Hlen. rewrite main_local_run.
  rewrite take_ge by (rewrite main_trace_length; lia).
  unfold main_trace. now rewrite <- !app_assoc.
Qed.

Lemma main_shutdown_order_witness :
  local_run (sample_env 0) (main_code (sample_env 0)) (replicate 127 zero_shm)
  = (setup_calls (sample_env 0) ++ spawn_calls (sample_env 0)
     ++ (EvWaitpid <$> producer_pids (sample_env 0))
     ++ task_sentinels (sample_env 0) (tin_of (replicate 127 zero_shm)))
    ++ log_sentinels (sample_env 0) (lin_of (replicate 127 zero_shm))
    ++ (EvWaitpid <$> worker_pids (sample_env 0))
    ++ (EvWaitpid <$> logger_pids (sample_env 0)) ++ teardown_calls.
Proof.
  apply (main_shutdown_order (sample_env 0) (replicate 127 zero_shm)).
  rewrite length_replicate. lia.
Defined.


(** In the system itself: after the four failed [sem_init] calls the
    orchestrator forks, and process 101 runs the producer. *)
Example spawn_after_failed_sem_init :
  (fun x : list (Z * event) * sys =>
     (drop 2 x.1, pr_code <$> procs x.2 !! 101))
    <$> run failing_env (replicate 7 100) (init_sys failing_env)
  = Some ([(100, EvSemInit TB SEmpty 1 1024 (-1));
           (100, EvSemInit TB SFull 1 0 (-1));
           (100, EvSemInit LB SEmpty 1 1024 (-1));
           (100, EvSemInit LB SFull 1 0 (-1));
           (100, EvFork RProducer 101)],
          Some (Producer (producer_init 101))).
Proof. vm_compute. reflexivity. Qed.

(** ** Publication *)

Ltac field_stores :=
  repeat (apply Forall_cons_2;
          [eexists _, _; split; [reflexivity | discriminate] |]);
  apply Forall_nil_2.

(** C6.  Whoever claims a write cursor [prev] on a buffer (a producer, a
    worker forwarding to the log buffer, the orchestrator injecting a
    sentinel) next stores the payload and origin fields of slot
    [prev % BUFFER_SIZE], then issues the barrier, then sets the slot's
    [ready] to 1, and only then posts [full], whatever the other processes
    do to the memory in between. *)
Theorem publish_order (e : os_env) (c c' : code) (m : shm) (b : buf)
    (prev : Z) (views : list shm) :
  code_step e c m = Some (EvFetchAdd b CIn prev, c') ->
  (6 <= length views)%nat ->
  exists stores rest,
    local_run e c' views = stores ++ publish_tail b (slot_of prev) ++ rest
    /\ Forall (is_field_store b (slot_of prev)) stores
    /\ (exists d, EvStore b (slot_of prev) FData d ∈ stores)
    /\ (exists p, EvStore b (slot_of prev) FProducerPid p ∈ stores).
Proof.
  intros Hstep Hlen.
  do 6 (destruct views as [|? views]; [simpl in Hlen; lia|]).
  clear Hlen.
  destruct c as [st|st|st|st]; simpl in Hstep.
  - unfold producer_step in Hstep.
    destruct (p_pc st); try discriminate.
    injection Hstep as <- <- <-.
    exists [EvStore TB (slot_of (tb_in (tb m))) FProducerPid (p_self st);
            EvStore TB (slot_of (tb_in (tb m))) FData
              (payload_of (os_rand e (p_seed st) (p_calls st)))].
    eexists. split; [reflexivity|]. split.
    + field_stores.
    + split; eexists; [apply list_elem_of_further|]; apply list_elem_of_here.
  - unfold worker_step in Hstep.
    destruct (w_pc st); try discriminate.
    injection Hstep as <- <- <-.
    exists [EvStore LB (slot_of (lb_in (lb m))) FData (w_data st);
            EvStore LB (slot_of (lb_in (lb m))) FProducerPid (w_producerPid st);
            EvStore LB (slot_of (lb_in (lb m))) FWorkerPid (w_workerPid st)].
    eexists. split; [reflexivity|]. split.
    + field_stores.
    + split; eexists; [|apply list_elem_of_further]; apply list_elem_of_here.
  - unfold logger_step in Hstep.
    destruct (l_pc st); discriminate.
  - unfold main_step in Hstep.
    destruct (m_pc st); try discriminate; injection Hstep as <- <- <-.
    + exists [EvStore TB (slot_of (tb_in (tb m))) FData (-1);
              EvStore TB (slot_of (tb_in (tb m))) FProducerPid (m_self st)].
      eexists. split; [reflexivity|]. split.
      * field_stores.
      * split; eexists; [|apply list_elem_of_further]; apply list_elem_of_here.
    + exists [EvStore LB (slot_of (lb_in (lb m))) FData (-1);
              EvStore LB (slot_of (lb_in (lb m))) FProducerPid (m_self st)].
      eexists. split; [reflexivity|]. split.
      * field_stores.
      * split; eexists; [|apply list_elem_of_further]; apply list_elem_of_here.
Qed.

Lemma publish_order_witness :
  exists stores rest,
    local_run (sample_env 0) (Producer (mkProducer P102 101 0 1 10000000 0 0))
      (replicate 6 zero_shm)
    = stores ++ publish_tail TB (slot_of 0) ++ rest
    /\ Forall (is_field_store TB (slot_of 0)) stores
    /\ (exists d, EvStore TB (slot_of 0) FData d ∈ stores)
    /\ (exists p, EvStore TB (slot_of 0) FProducerPid p ∈ stores).
Proof.
  apply (publish_order (sample_env 0)
           (Producer (mkProducer P101 101 0 1 10000000 0 0)) _ zero_shm TB 0
           (replicate 6 zero_shm)).
  - reflexivity.
  - rewrite length_replicate. lia.
Defined.

(** ** Worker *)

(** C7.  A worker that has found its slot ready reads the payload [d] and
    the origin [pp], clears [ready] and posts [empty].  If [d] is -1 its
    next and last event is [exit(0)]: nothing follows, in particular no
    access to the log buffer.  Otherwise it waits for a free log slot,
    claims the log cursor and publishes [d], [pp] and its own pid there,
    before it returns to the head of its loop. *)
Theorem worker_forwards_or_exits (e : os_env)
    (self prevOut d0 wp0 pp0 pi0 : Z)
    (v1 v2 v3 v4 v5 v6 v7 v8 v9 v10 v11 v12 v13 v14 : shm) (views : list shm) :
  let slot := slot_of prevOut in
  let d := load v1 TB slot FData in
  let pp := load v3 TB slot FProducerPid in
  let prev := lb_in (lb v8) in
  local_run e (Worker (mkWorker W133 self prevOut d0 wp0 pp0 pi0))
    (v1 :: v2 :: v3 :: v4 :: v5 :: v6 :: v7 :: v8 :: v9 :: v10 :: v11 :: v12
     :: v13 :: v14 :: views)
  = consume_events slot d pp
    ++ (if d =? -1 then [EvExit 0]
        else forward_events self d pp prev
             ++ local_run e (Worker (mkWorker W124 self prevOut d self pp prev))
                  views).
Proof.
  intros slot d pp prev. subst slot d pp prev.
  cbn [local_run code_step worker_step w_pc fmap option_fmap option_map
         prod_map fst snd id w_goto w_self w_prevOut w_data w_workerPid
         w_producerPid w_prevIn consume_events forward_events app].
  destruct (load v1 TB (slot_of prevOut) FData =? -1); reflexivity.
Qed.

(** ** Local runs *)

(** Only a process that has exited has no step, whatever the memory. *)
Lemma code_step_none (e : os_env) (c : code) (m m' : shm) :
  code_step e c m = None -> code_step e c m' = None.
Proof.
  by_program_point c; congruence.
Qed.

Lemma local_run_app (e : os_env) (v1 v2 : list shm) (c : code) :
  local_run e c (v1 ++ v2)
  = local_run e c v1 ++ local_run e (local_end e c v1) v2.
Proof.
  revert c. induction v1 as [|m v1 IH]; intros c; [reflexivity|].
  simpl. destruct (code_step e c m) as [[ev c']|] eqn:Hstep.
  - simpl. now rewrite IH.
  - destruct v2 as [|m' v2]; [reflexivity|].
    simpl. now rewrite (code_step_none e c m m' Hstep).
Qed.

Lemma local_end_app (e : os_env) (v1 v2 : list shm) (c : code) :
  local_end e c (v1 ++ v2) = local_end e (local_end e c v1) v2.
Proof.
  revert c. induction v1 as [|m v1 IH]; intros c; [reflexivity|].
  simpl. destruct (code_step e c m) as [[ev c']|] eqn:Hstep; [apply IH|].
  destruct v2 as [|m' v2]; [reflexivity|].
  simpl. now rewrite (code_step_none e c m m' Hstep).
Qed.

Lemma local_run_exited (e : os_env) (c : code) (views : list shm) :
  exited c = true -> local_run e c views = [].
Proof.
  intros Hex. destruct views as [|m views]; [reflexivity|].
  destruct c as [st|st|st|st]; simpl in *;
    [unfold producer_step; destruct (p_pc st)
    |unfold worker_step; destruct (w_pc st)
    |unfold logger_step; destruct (l_pc st)
    |unfold main_step; destruct (m_pc st)]; try discriminate; reflexivity.
Qed.

(** ** Producer *)

Lemma same_progress_init (e : os_env) (pid1 pid2 : Z) :
  os_time e pid1 = os_time e pid2 ->
  same_progress e (producer_init pid1) (producer_init pid2).
Proof. intros Ht. repeat split. exact Ht. Qed.

(** One step keeps two producers in step with each other and stores the
    same payload, whatever memory each of them sees. *)
Lemma producer_step_sim (e : os_env) (a b : producer_st) (ma mb : shm) :
  same_progress e a b ->
  match producer_step e a ma, producer_step e b mb with
  | Some (ea, a'), Some (eb, b') =>
      payload_of_event ea = payload_of_event eb /\ same_progress e a' b'
  | None, None => True
  | _, _ => False
  end.
Proof.
  intros (Hpc & Hseed & Hcalls & Hts & Hi & Ht).
  unfold producer_step, same_progress. rewrite <- Hpc.
  destruct (p_pc a); simpl;
    rewrite <- ?Hseed, <- ?Hcalls, <- ?Hts, <- ?Hi, <- ?Ht;
    repeat split; try assumption; try reflexivity.
Qed.

Lemma producer_run_sim (e : os_env) (va vb : list shm) (a b : producer_st) :
  same_progress e a b ->
  length va = length vb ->
  payloads (local_run e (Producer a) va) = payloads (local_run e (Producer b) vb)
  /\ exists a' b',
       local_end e (Producer a) va = Producer a'
       /\ local_end e (Producer b) vb = Producer b'
       /\ same_progress e a' b'.
Proof.
  revert vb a b. induction va as [|ma va IH]; intros [|mb vb] a b Hsim Hlen;
    try discriminate.
  - split; [reflexivity|]. now exists a, b.
  - simpl in Hlen. injection Hlen as Hlen.
    pose proof (producer_step_sim e a b ma mb Hsim) as Hstep.
    simpl.
    destruct (producer_step e a ma) as [[ea a']|],
             (producer_step e b mb) as [[eb b']|]; simpl; try contradiction.
    + destruct Hstep as [Hev Hsim'].
      destruct (IH vb a' b' Hsim' Hlen) as [Hpay Hend].
      split; [|exact Hend].
      unfold payloads in *. simpl. rewrite Hev, Hpay. reflexivity.
    + split; [reflexivity|]. now exists a, b.
Qed.

(** Once drawn at line 88, the task size stays. *)
Lemma producer_taskSize_stable (e : os_env) (views : list shm) (st : producer_st) :
  p_pc st <> P86 -> p_pc st <> P88 ->
  taskSize_in (local_end e (Producer st) views) = p_taskSize st.
Proof.
  revert st. induction views as [|m views IH]; intros st H86 H88; [reflexivity|].
  simpl. unfold producer_step.
  destruct (p_pc st) eqn:Hpc; try contradiction; simpl;
    try (rewrite IH; [reflexivity| |]; simpl;
         try destruct (_ <? _); discriminate).
  reflexivity.
Qed.

Lemma producer_taskSize_drawn (e : os_env) (pid : Z) (views : list shm) :
  (2 <= length views)%nat ->
  taskSize_in (local_end e (Producer (producer_init pid)) views)
  = taskSize_of (os_rand e (to_uint (os_time e pid)) 0).
Proof.
  intros Hlen.
  destruct views as [|m1 [|m2 views]]; [simpl in Hlen; lia..|].
  simpl. rewrite producer_taskSize_stable; [reflexivity| |];
    simpl; destruct (_ <? _); discriminate.
Qed.

(** C10.  Two producers for which [time(NULL)] returned the same value
    draw the same task size, and the payloads the one that has taken fewer
    steps has stored so far open the other's sequence of payloads; when
    the first has finished the two sequences are the same.  Neither the
    pid nor the memory the producers see makes a difference. *)
Theorem producer_deterministic_in_seed (e : os_env) (pid1 pid2 : Z)
    (va vb : list shm) :
  os_time e pid1 = os_time e pid2 ->
  (length va <= length vb)%nat ->
  let a := Producer (producer_init pid1) in
  let b := Producer (producer_init pid2) in
  payloads (local_run e a va) `prefix_of` payloads (local_run e b vb)
  /\ ((2 <= length va)%nat ->
      taskSize_in (local_end e a va) = taskSize_in (local_end e b vb))
  /\ (exited (local_end e a va) = true ->
      payloads (local_run e a va) = payloads (local_run e b vb)).
Proof.
  intros Ht Hlen a b.
  rewrite <- (take_drop (length va) vb).
  assert (Hl : length va = length (take (length va) vb))
    by (rewrite length_take; lia).
  destruct (producer_run_sim e va (take (length va) vb) _ _
              (same_progress_init e pid1 pid2 Ht) Hl)
    as (Hpay & a' & b' & Ha & Hb & Hsim).
  fold a in Hpay, Ha. fold b in Hpay, Hb.
  rewrite local_run_app. unfold payloads at 2. rewrite omap_app.
  fold (payloads (local_run e b (take (length va) vb))). rewrite <- Hpay.
  split; [eexists; reflexivity|]. split.
  - intros H2. subst a b.
    rewrite !producer_taskSize_drawn; [now rewrite Ht|..].
    + rewrite length_app, length_take, length_drop. lia.
    + exact H2.
  - intros Hex. rewrite Hb. rewrite Ha in Hex.
    rewrite (local_run_exited e (Producer b')).
    + simpl. now rewrite app_nil_r.
    + simpl in *. destruct Hsim as (Hpc & _). now rewrite <- Hpc.
Qed.

Lemma producer_deterministic_in_seed_witness :
  let a := Producer (producer_init 101) in
  let b := Producer (producer_init 102) in
  let va := replicate 9 zero_shm in
  let vb := replicate 16 zero_shm in
  payloads (local_run (sample_env 7) a va)
    `prefix_of` payloads (local_run (sample_env 7) b vb)
  /\ ((2 <= length va)%nat ->
      taskSize_in (local_end (sample_env 7) a va)
      = taskSize_in (local_end (sample_env 7) b vb))
  /\ (exited (local_end (sample_env 7) a va) = true ->
      payloads (local_run (sample_env 7) a va)
      = payloads (local_run (sample_env 7) b vb)).
Proof.
  apply (producer_deterministic_in_seed (sample_env 7) 101 102
           (replicate 9 zero_shm) (replicate 16 zero_shm)).
  - reflexivity.
  - rewrite !length_replicate. lia.
Defined.

(** ** Cursors *)

Lemma mod_inj_window (M a b : Z) :
  0 < M -> a mod M = b mod M -> - M < a - b < M -> a = b.
Proof.
  intros HM Hmod Hwin.
  pose proof (Z.div_mod a M ltac:(lia)) as Ha.
  pose proof (Z.div_mod b M ltac:(lia)) as Hb.
  rewrite Hmod in Ha.
  assert (Hq : a - b = M * (a / M - b / M)) by lia.
  assert (H0 : a / M - b / M = 0) by nia.
  rewrite H0 in Hq. lia.
Qed.

Lemma to_ull_idem (x : Z) : to_ull (to_ull x) = to_ull x.
Proof. unfold to_ull. apply Z.mod_mod. discriminate. Qed.

(** The kth claim on a cursor that holds [cur] returns [cur + k], reduced
    to 64 bits. *)
Lemma claims_closed_form (n : nat) (cur : Z) :
  to_ull cur = cur ->
  claims n cur = (fun k => to_ull (cur + Z.of_nat k)) <$> seq 0 n.
Proof.
  revert cur. induction n as [|n IH]; intros cur Hcur; [reflexivity|].
  simpl. rewrite Z.add_0_r, Hcur. f_equal.
  rewrite IH by apply to_ull_idem.
  rewrite <- fmap_S_seq, <- list_fmap_compose.
  apply list_fmap_ext. intros _ k _. simpl. unfold to_ull.
  rewrite Zplus_mod_idemp_l. f_equal. lia.
Qed.

Lemma slot_of_to_ull (x : Z) : slot_of (to_ull x) = slot_of x.
Proof.
  unfold slot_of, to_ull, BUFFER_SIZE.
  apply Z.mod_mod_divide. exists (2 ^ 54). reflexivity.
Qed.

Lemma claims_NoDup (n : nat) (cur : Z) :
  to_ull cur = cur -> Z.of_nat n <= 2 ^ 64 -> NoDup (claims n cur).
Proof.
  intros Hcur Hn. rewrite claims_closed_form by exact Hcur.
  apply NoDup_fmap_2_strong; [|apply NoDup_seq].
  intros j k Hj Hk Heq.
  apply elem_of_seq in Hj, Hk. unfold to_ull in Heq.
  change (2 ^ 64) with 18446744073709551616 in *.
  apply mod_inj_window in Heq; lia.
Qed.

Lemma claims_window_NoDup (n i : nat) (cur : Z) :
  to_ull cur = cur ->
  NoDup (slot_of <$> take (Z.to_nat BUFFER_SIZE) (drop i (claims n cur))).
Proof.
  intros Hcur. rewrite claims_closed_form by exact Hcur.
  rewrite <- fmap_drop, <- fmap_take, <- list_fmap_compose.
  rewrite drop_seq, take_seq.
  apply NoDup_fmap_2_strong; [|apply NoDup_seq].
  intros j k Hj Hk Heq.
  apply elem_of_seq in Hj, Hk. simpl in Heq.
  rewrite !slot_of_to_ull in Heq. unfold slot_of in Heq.
  unfold BUFFER_SIZE in *.
  apply mod_inj_window in Heq; lia.
Qed.

(** ** Runs of the system *)

Lemma sys_step_inv (e : os_env) (pid : Z) (s s1 : sys) (ev : event) :
  sys_step e pid s = Some (ev, s1) ->
  exists p c',
    procs s !! pid = Some p
    /\ code_step e (pr_code p) (mem s) = Some (ev, c')
    /\ enabled ev p s = true
    /\ s1 = mkSys (mem_apply ev (mem s))
              (spawn ev p (<[pid := proc_after ev p c']> (procs s))).
Proof.
  unfold sys_step. intros Hstep.
  destruct (procs s !! pid) as [p|]; [|discriminate].
  destruct (code_step e (pr_code p) (mem s)) as [[ev' c']|] eqn:Hcode;
    [|discriminate].
  destruct (enabled ev' p s) eqn:Hen; [|discriminate].
  injection Hstep as <- <-. now exists p, c'.
Qed.

Lemma run_cons_inv (e : os_env) (pid : Z) (sched : list Z) (s s' : sys)
    (tr : list (Z * event)) :
  run e (pid :: sched) s = Some (tr, s') ->
  exists ev s1 tr',
    sys_step e pid s = Some (ev, s1)
    /\ run e sched s1 = Some (tr', s')
    /\ tr = (pid, ev) :: tr'.
Proof.
  simpl. intros Hrun.
  destruct (sys_step e pid s) as [[ev s1]|]; [|discriminate].
  destruct (run e sched s1) as [[tr' s'']|] eqn:Hrest; [|discriminate].
  injection Hrun as <- <-. now exists ev, s1, tr'.
Qed.

(** A fetch-and-add returns what the cursor holds. *)
Lemma code_step_fetch (e : os_env) (c c' : code) (m : shm) (b : buf)
    (cu : cursor) (prev : Z) :
  code_step e c m = Some (EvFetchAdd b cu prev, c') ->
  prev = get_cursor m b cu.
Proof.
  by_program_point c; intros Hstep;
    try discriminate; injection Hstep as <- <- <- _; reflexivity.
Qed.

(** Only a fetch-and-add on a cursor changes it. *)
Lemma mem_apply_cursor (ev : event) (m : shm) (b : buf) (cu : cursor) (pid : Z) :
  get_cursor (mem_apply ev m) b cu
  = match claim_of b cu (pid, ev) with
    | Some _ => snd (fetch_and_add (get_cursor m b cu))
    | None => get_cursor m b cu
    end.
Proof.
  destruct ev as [| |b' s'|b' s'|b' c' ?|? ? ? ?|b' ? ? ?| | | | | |b' s' ? ? r| | |];
    unfold claim_of; simpl; try reflexivity.
  - destruct b', s', b, cu; reflexivity.
  - destruct b', s', b, cu; reflexivity.
  - destruct b', c', b, cu; reflexivity.
  - destruct b', b, cu; reflexivity.
  - destruct (r =? 0); [|reflexivity]. destruct b', s', b, cu; reflexivity.
Qed.

(** The write or read claims of a run are the successive values of the
    cursor from its value at the start. *)
Lemma run_claimed (e : os_env) (b : buf) (cu : cursor) (sched : list Z) :
  forall s tr s',
    run e sched s = Some (tr, s') ->
    claimed b cu tr
    = claims (length (claimed b cu tr)) (get_cursor (mem s) b cu).
Proof.
  induction sched as [|pid sched IH]; intros s tr s' Hrun.
  - injection Hrun as <- <-. reflexivity.
  - apply run_cons_inv in Hrun as (ev & s1 & tr' & Hstep & Hrun & ->).
    apply sys_step_inv in Hstep as (p & c' & _ & Hcode & _ & ->).
    specialize (IH _ _ _ Hrun). cbn [mem] in IH.
    rewrite (mem_apply_cursor ev (mem s) b cu pid) in IH.
    unfold claimed in *. cbn [omap list_omap].
    destruct (claim_of b cu (pid, ev)) as [prev|] eqn:Hclaim; [|exact IH].
    cbn [length claims]. f_equal; [|exact IH].
    unfold claim_of in Hclaim. cbn [snd] in Hclaim.
    destruct ev; try discriminate.
    destruct (buf_eqb b0 b) eqn:Hb, (cursor_eqb c cu) eqn:Hc; try discriminate.
    injection Hclaim as <-.
    apply code_step_fetch in Hcode.
    destruct b0, b, c, cu; try discriminate; exact Hcode.
Qed.

(** ** The number of write claims of a run *)

Lemma MAXB_value : MAXB = 109999999.
Proof. reflexivity. Qed.

Lemma budget_nonneg (b : buf) (c : code) : code_ok c -> 0 <= budget b c.
Proof.
  destruct c as [st|st|st|st]; simpl.
  - unfold producer_ok, producer_budget. rewrite MAXB_value.
    destruct (p_pc st), b; lia.
  - intros _. unfold worker_budget. destruct b, (w_pc st); lia.
  - lia.
  - unfold main_ok, main_budget, PRODUCERS, WORKERS, LOGGERS.
    rewrite MAXB_value. destruct (m_pc st), b; lia.
Qed.

Lemma m_next_cases (n : nat) (again after : main_pc) (st : main_st) :
  (m_pc (m_next n again after st) = again
   /\ m_i (m_next n again after st) = S (m_i st) /\ (S (m_i st) < n)%nat)
  \/ (m_pc (m_next n again after st) = after
      /\ m_i (m_next n again after st) = 0%nat /\ (n <= S (m_i st))%nat).
Proof.
  unfold m_next. destruct (decide (S (m_i st) < n)%nat); simpl; [left|right];
    repeat split; try reflexivity; lia.
Qed.

Lemma producer_step_budget (e : os_env) (b : buf) (st st' : producer_st)
    (m : shm) (ev : event) :
  rand_nonneg e ->
  producer_ok st ->
  producer_step e st m = Some (ev, st') ->
  producer_ok st'
  /\ producer_budget b st' + claim_gain b ev + full_gain b ev + fork_gain ev
     <= producer_budget b st
  /\ event_wf ev.
Proof.
  intros Hrand Hok Hstep. unfold producer_step in Hstep.
  unfold producer_ok, producer_budget in *. rewrite MAXB_value in *.
  destruct (p_pc st) eqn:Hpc; try discriminate;
    injection Hstep as <- <-; cbn [p_pc p_i p_taskSize p_goto].
  - destruct b; simpl; repeat split; lia.
  - pose proof (taskSize_of_range _ (Hrand (p_seed st) (p_calls st))) as Hn.
    unfold MIN_TASK_SIZE, MAX_TASK_SIZE in Hn.
    destruct (0 <? _) eqn:Hlt; destruct b; simpl; repeat split; lia.
  - destruct b; simpl; repeat split; lia.
  - destruct b; simpl; repeat split; lia.
  - destruct b; simpl; repeat split; lia.
  - destruct b; simpl; repeat split; lia.
  - destruct b; simpl; repeat split; lia.
  - destruct b; simpl; repeat split; lia.
  - rewrite to_ull_small by (change (2 ^ 64) with 18446744073709551616; lia).
    destruct (_ <? _) eqn:Hlt; destruct b; simpl; repeat split; lia.
  - destruct b; simpl; repeat split; lia.
Qed.

Lemma worker_step_budget (b : buf) (st st' : worker_st) (m : shm) (ev : event) :
  worker_step st m = Some (ev, st') ->
  worker_budget b st' + claim_gain b ev + full_gain b ev + fork_gain ev
  <= worker_budget b st
  /\ event_wf ev.
Proof.
  intros Hstep. unfold worker_step in Hstep. unfold worker_budget.
  destruct (w_pc st) eqn:Hpc; try discriminate;
    injection Hstep as <- <-; cbn [w_pc w_goto];
    try destruct (_ =? _); destruct b; simpl; split; (lia || exact I).
Qed.

Lemma logger_step_budget (b : buf) (st st' : logger_st) (m : shm) (ev : event) :
  logger_step st m = Some (ev, st') ->
  claim_gain b ev + full_gain b ev + fork_gain ev <= 0 /\ event_wf ev.
Proof.
  intros Hstep. unfold logger_step in Hstep.
  destruct (l_pc st) eqn:Hpc; try discriminate;
    injection Hstep as <- <-; destruct b; simpl; split; (lia || exact I).
Qed.

Lemma main_step_budget (e : os_env) (b : buf) (st st' : main_st) (m : shm)
    (ev : event) :
  main_ok st ->
  main_step e st m = Some (ev, st') ->
  main_ok st'
  /\ main_budget b st' + claim_gain b ev + full_gain b ev + fork_gain ev
     <= main_budget b st
  /\ event_wf ev.
Proof.
  intros Hok Hstep. unfold main_step in Hstep.
  unfold main_ok, main_budget in *.
  unfold PRODUCERS, WORKERS, LOGGERS in *. rewrite MAXB_value in *.
  destruct (m_pc st) eqn:Hpc; try discriminate;
    injection Hstep as <- <-;
    cbn [m_pc m_i m_goto m_set_producer m_set_worker m_set_logger m_set_prevIn];
    try (destruct b; simpl; rewrite ?Hpc; repeat split; (lia || reflexivity)).
  all: match goal with
       | |- context [m_next ?n ?a ?c ?s] =>
           destruct (m_next_cases n a c s) as [(Hp & Hj & Hi)|(Hp & Hj & Hi)];
           rewrite Hp, ?Hj
       end; simpl in Hi; destruct b; simpl; rewrite ?MAXB_value;
       repeat split; try lia; try reflexivity.
Qed.

Lemma code_step_budget (e : os_env) (b : buf) (c c' : code) (m : shm)
    (ev : event) :
  rand_nonneg e ->
  code_ok c ->
  code_step e c m = Some (ev, c') ->
  code_ok c'
  /\ budget b c' + claim_gain b ev + full_gain b ev + fork_gain ev <= budget b c
  /\ event_wf ev.
Proof.
  intros Hrand Hok Hstep. destruct c as [st|st|st|st]; simpl in Hstep.
  - destruct (producer_step e st m) as [[ev' st']|] eqn:Hs; [|discriminate].
    injection Hstep as <- <-.
    exact (producer_step_budget e b st st' m ev' Hrand Hok Hs).
  - destruct (worker_step st m) as [[ev' st']|] eqn:Hs; [|discriminate].
    injection Hstep as <- <-. split; [exact I|].
    exact (worker_step_budget b st st' m ev' Hs).
  - destruct (logger_step st m) as [[ev' st']|] eqn:Hs; [|discriminate].
    injection Hstep as <- <-. split; [exact I|].
    destruct (logger_step_budget b st st' m ev' Hs). simpl. split; [lia|assumption].
  - destruct (main_step e st m) as [[ev' st']|] eqn:Hs; [|discriminate].
    injection Hstep as <- <-.
    exact (main_step_budget e b st st' m ev' Hok Hs).
Qed.

(** Sums over the process table. *)
Lemma total_budget_insert (b : buf) (pid : Z) (p : proc) (ps : gmap Z proc) :
  total_budget b (<[pid := p]> ps)
  = budget b (pr_code p) + total_budget b (delete pid ps).
Proof.
  unfold total_budget. rewrite <- insert_delete_eq.
  apply (map_fold_insert_L (fun _ p acc => budget b (pr_code p) + acc)).
  - intros. lia.
  - apply lookup_delete_eq.
Qed.

Lemma total_budget_lookup (b : buf) (pid : Z) (p : proc) (ps : gmap Z proc) :
  ps !! pid = Some p ->
  total_budget b ps = budget b (pr_code p) + total_budget b (delete pid ps).
Proof.
  intros Hp. unfold total_budget.
  apply (map_fold_delete_L (fun _ p acc => budget b (pr_code p) + acc));
    [intros; lia | exact Hp].
Qed.

Lemma total_budget_delete_le (b : buf) (pid : Z) (ps : gmap Z proc) :
  (forall k p, ps !! k = Some p -> code_ok (pr_code p)) ->
  total_budget b (delete pid ps) <= total_budget b ps.
Proof.
  intros Hok. destruct (ps !! pid) as [p|] eqn:Hp.
  - rewrite (total_budget_lookup b pid p ps Hp).
    pose proof (budget_nonneg b _ (Hok _ _ Hp)). lia.
  - rewrite delete_id by exact Hp. lia.
Qed.

Lemma pr_code_proc_after (ev : event) (p : proc) (c' : code) :
  pr_code (proc_after ev p c') = c'.
Proof. destruct ev; try reflexivity; destruct b; reflexivity. Qed.

Lemma mem_apply_tb_full (ev : event) (m : shm) :
  event_wf ev ->
  0 <= tb_full (tb m) ->
  tb_full (tb (mem_apply ev m)) <= tb_full (tb m) + full_gain LB ev.
Proof.
  intros Hwf Hfull.
  destruct ev as [| |b' s'|b' s'|b' c' ?|? ? ? ?|b' ? ? ?| | | | | |b' s' ? v r| | |];
    simpl in *; try lia.
  - destruct b', s'; simpl; lia.
  - destruct b', s'; simpl; lia.
  - destruct b', c'; simpl; lia.
  - destruct b'; simpl; lia.
  - destruct (r =? 0); [|lia]. destruct b', s'; simpl; lia.
Qed.

Lemma mem_apply_tb_full_nonneg (ev : event) (p : proc) (s : sys) :
  event_wf ev ->
  enabled ev p s = true ->
  0 <= tb_full (tb (mem s)) ->
  0 <= tb_full (tb (mem_apply ev (mem s))).
Proof.
  intros Hwf Hen Hfull.
  destruct ev as [| |b' s'|b' s'|b' c' ?|? ? ? ?|b' ? ? ?| | | | | |b' s' ? v r| | |];
    simpl in *; try lia.
  - apply andb_true_iff in Hen as [_ Hpos]. apply Z.ltb_lt in Hpos.
    destruct b', s'; simpl in *; lia.
  - destruct b', s'; simpl; lia.
  - destruct b', c'; simpl; lia.
  - destruct b'; simpl; lia.
  - destruct (r =? 0); [|lia]. destruct b', s'; simpl; lia.
Qed.

Lemma child_budget (b : buf) (p : proc) (r : role) (child : Z) :
  budget b (pr_code (child_of p r child)) = fork_gain (EvFork r child).
Proof. destruct r, b; reflexivity. Qed.

Lemma child_ok (p : proc) (r : role) (child : Z) :
  code_ok (pr_code (child_of p r child)).
Proof. destruct r; exact I. Qed.

(** A step keeps the loop invariants and pays for its claim out of the
    potential. *)
Lemma sys_step_budget (e : os_env) (b : buf) (pid : Z) (s s1 : sys) (ev : event) :
  rand_nonneg e ->
  sys_ok s ->
  sys_step e pid s = Some (ev, s1) ->
  sys_ok s1 /\ potential b s1 + claim_gain b ev <= potential b s.
Proof.
  intros Hrand [Hok Hfull] Hstep.
  apply sys_step_inv in Hstep as (p & c' & Hp & Hcode & Hen & ->).
  destruct (code_step_budget e b _ _ _ _ Hrand (Hok pid p Hp) Hcode)
    as (Hok' & Hbud & Hwf).
  set (X := <[pid := proc_after ev p c']> (procs s)).
  assert (HX : forall k q, X !! k = Some q -> code_ok (pr_code q)).
  { intros k q Hq. apply lookup_insert_Some in Hq as [[_ <-]|[_ Hq]].
    - now rewrite pr_code_proc_after.
    - exact (Hok k q Hq). }
  assert (HS : forall k q, spawn ev p X !! k = Some q -> code_ok (pr_code q)).
  { intros k q. destruct ev; simpl; try apply HX.
    intros Hq. apply lookup_insert_Some in Hq as [[_ <-]|[_ Hq]].
    - apply child_ok.
    - exact (HX k q Hq). }
  assert (HtX : total_budget b X
                = budget b c' + total_budget b (delete pid (procs s))).
  { unfold X. now rewrite total_budget_insert, pr_code_proc_after. }
  assert (HtS : total_budget b (spawn ev p X) <= total_budget b X + fork_gain ev).
  { destruct ev; simpl; try lia.
    rewrite total_budget_insert, child_budget.
    pose proof (total_budget_delete_le b child X HX). simpl. lia. }
  pose proof (total_budget_lookup b pid p (procs s) Hp) as Ht.
  split.
  - split; [exact HS|]. simpl. now apply (mem_apply_tb_full_nonneg ev p s).
  - unfold potential. simpl. fold X.
    pose proof (mem_apply_tb_full ev (mem s) Hwf Hfull) as Hf.
    destruct b; simpl in *; lia.
Qed.

Lemma run_budget (e : os_env) (b : buf) (sched : list Z) :
  rand_nonneg e ->
  forall s tr s',
    sys_ok s ->
    run e sched s = Some (tr, s') ->
    sys_ok s'
    /\ potential b s' + Z.of_nat (length (claimed b CIn tr)) <= potential b s.
Proof.
  intros Hrand. induction sched as [|pid sched IH]; intros s tr s' Hok Hrun.
  - injection Hrun as <- <-. split; [exact Hok|]. simpl. lia.
  - apply run_cons_inv in Hrun as (ev & s1 & tr' & Hstep & Hrun & ->).
    destruct (sys_step_budget e b pid s s1 ev Hrand Hok Hstep) as [Hok1 Hpot].
    destruct (IH s1 tr' s' Hok1 Hrun) as [Hok' Hpot'].
    split; [exact Hok'|].
    assert (Hlen : Z.of_nat (length (claimed b CIn ((pid, ev) :: tr')))
                   = claim_gain b ev + Z.of_nat (length (claimed b CIn tr'))).
    { unfold claimed. cbn [omap list_omap]. fold (omap (claim_of b CIn) tr').
      unfold claim_of at 1. unfold claim_gain. cbn [snd].
      destruct ev as [| | | |b' c' prev| | | | | | | | | | |]; try reflexivity.
      destruct c'; rewrite ?andb_false_r, ?andb_true_r; [|reflexivity].
      destruct (buf_eqb b' b); [|reflexivity].
      cbn [length]. lia. }
    lia.
Qed.

Lemma potential_nonneg (b : buf) (s : sys) : sys_ok s -> 0 <= potential b s.
Proof.
  intros [Hok Hfull]. unfold potential.
  assert (0 <= total_budget b (procs s)).
  { unfold total_budget.
    apply (map_fold_weak_ind (fun acc ps =>
             (forall k q, ps !! k = Some q -> code_ok (pr_code q)) -> 0 <= acc));
      [lia| |exact Hok].
    intros k q ps acc Hk IH Hall.
    pose proof (budget_nonneg b _ (Hall k q ltac:(apply lookup_insert_eq))).
    assert (0 <= acc); [|lia].
    apply IH. intros k' q' Hq'. apply (Hall k' q').
    rewrite lookup_insert_ne; [exact Hq'|]. intros <-. congruence. }
  destruct b; lia.
Qed.

Lemma init_sys_ok (e : os_env) : sys_ok (init_sys e).
Proof.
  split; [|simpl; lia].
  intros pid p Hp. unfold init_sys in Hp. cbn [procs] in Hp.
  apply lookup_singleton_Some in Hp as [_ <-]. reflexivity.
Qed.

Lemma init_potential (e : os_env) (b : buf) :
  potential b (init_sys e) <= 550000007.
Proof.
  unfold potential, init_sys, total_budget. simpl.
  rewrite map_fold_singleton. destruct b; vm_compute; congruence.
Qed.

Lemma run_claims_bounded (e : os_env) (b : buf) (sched : list Z)
    (tr : list (Z * event)) (s : sys) :
  rand_nonneg e ->
  run e sched (init_sys e) = Some (tr, s) ->
  Z.of_nat (length (claimed b CIn tr)) <= 550000007.
Proof.
  intros Hrand Hrun.
  destruct (run_budget e b sched Hrand _ _ _ (init_sys_ok e) Hrun) as [Hok Hpot].
  pose proof (potential_nonneg b s Hok).
  pose proof (init_potential e b). lia.
Qed.

Lemma weyl_nonneg (t : Z) : rand_nonneg (sample_env t).
Proof.
  intros seed k. simpl. unfold weyl.
  apply Z.mod_pos_bound. reflexivity.
Qed.

(** C5.  In every run of the system the cursor values handed out to the
    writers of a buffer are pairwise distinct, and the slots of any
    [BUFFER_SIZE] consecutive ones are pairwise distinct.  (A run makes at
    most 550000007 write claims on a buffer, far fewer than the 2^64 values
    of the cursor; [rand] is taken to return no negative value.) *)
Theorem write_claims_distinct (e : os_env) (sched : list Z)
    (tr : list (Z * event)) (s : sys) (b : buf) :
  rand_nonneg e ->
  run e sched (init_sys e) = Some (tr, s) ->
  NoDup (claimed b CIn tr)
  /\ forall i,
       NoDup (slot_of <$> take (Z.to_nat BUFFER_SIZE) (drop i (claimed b CIn tr))).
Proof.
  intros Hrand Hrun.
  pose proof (run_claims_bounded e b sched tr s Hrand Hrun) as Hlen.
  rewrite (run_claimed e b CIn sched _ _ _ Hrun).
  assert (Hcur : to_ull (get_cursor (mem (init_sys e)) b CIn)
                 = get_cursor (mem (init_sys e)) b CIn)
    by (destruct b; reflexivity).
  split.
  - apply claims_NoDup; [exact Hcur|].
    change (2 ^ 64) with 18446744073709551616. lia.
  - intros i. now apply claims_window_NoDup.
Qed.

Lemma write_claims_distinct_witness :
  NoDup (claimed TB CIn race_trace)
  /\ forall i,
       NoDup (slot_of <$> take (Z.to_nat BUFFER_SIZE)
                            (drop i (claimed TB CIn race_trace))).
Proof.
  eapply (write_claims_distinct (sample_env 0) race_schedule).
  - apply weyl_nonneg.
  - vm_compute. reflexivity.
Defined.

(** The run of [race_schedule] makes 1025 write claims on the task buffer,
    the cursors 0 to 1024, one more than a window holds: cursors 0 and
    1024 fall on the same slot. *)
Example race_trace_claims :
  claimed TB CIn race_trace = Z.of_nat <$> seq 0 1025
  /\ slot_of 0 = slot_of 1024.
Proof. split; vm_compute; reflexivity. Qed.

(** ** From the system to one process *)

(** Only the orchestrator forks, and the pid of a child is one the
    environment's [fork] gives. *)
Lemma code_step_fork (e : os_env) (c c' : code) (m : shm) (r : role) (child : Z) :
  code_step e c m = Some (EvFork r child, c') ->
  exists k, child = os_fork e k.
Proof.
  by_program_point c; intros Hstep;
    try discriminate; injection Hstep as _ <- _; eexists; reflexivity.
Qed.

Lemma events_of_cons (pid q : Z) (ev : event) (tr : list (Z * event)) :
  events_of pid ((q, ev) :: tr)
  = if q =? pid then ev :: events_of pid tr else events_of pid tr.
Proof.
  unfold events_of. cbn [omap list_omap]. unfold event_by at 1. cbn [fst snd].
  now destruct (q =? pid).
Qed.

(** In a run the events of a process whose pid no [fork] reuses are a local
    run of its code, on the memories it found at its steps. *)
Lemma run_local (e : os_env) (pid : Z) (sched : list Z) :
  forall s tr s' p,
    run e sched s = Some (tr, s') ->
    procs s !! pid = Some p ->
    (forall q r, (q, EvFork r pid) ∉ tr) ->
    exists views p',
      events_of pid tr = local_run e (pr_code p) views
      /\ length views = length (events_of pid tr)
      /\ procs s' !! pid = Some p'
      /\ pr_code p' = local_end e (pr_code p) views.
Proof.
  induction sched as [|q sched IH]; intros s tr s' p Hrun Hp Hfork.
  - injection Hrun as <- <-. exists [], p. now repeat split.
  - apply run_cons_inv in Hrun as (ev & s1 & tr' & Hstep & Hrun & ->).
    apply sys_step_inv in Hstep as (pq & c' & Hq & Hcode & _ & ->).
    assert (Hfork' : forall q' r, (q', EvFork r pid) ∉ tr').
    { intros q' r Hin. apply (Hfork q' r). now apply list_elem_of_further. }
    assert (Hspawn : forall X : gmap Z proc, spawn ev pq X !! pid = X !! pid).
    { intros X. destruct ev; try reflexivity. simpl.
      apply lookup_insert_ne. intros ->.
      apply (Hfork q r). apply list_elem_of_here. }
    rewrite events_of_cons.
    destruct (q =? pid) eqn:Hqp.
    + apply Z.eqb_eq in Hqp. subst q. rewrite Hp in Hq. injection Hq as <-.
      destruct (IH _ tr' s' (proc_after ev p c') Hrun)
        as (views & p' & He & Hl & Hp' & Hc').
      { cbn [procs]. rewrite Hspawn. apply lookup_insert_eq. }
      { exact Hfork'. }
      rewrite pr_code_proc_after in He, Hc'.
      exists (mem s :: views), p'. cbn [local_run local_end length].
      rewrite Hcode.
      repeat split; [now rewrite He | now rewrite Hl | exact Hp' | exact Hc'].
    + apply Z.eqb_neq in Hqp.
      apply (IH _ tr' s' p Hrun); [|exact Hfork'].
      cbn [procs]. rewrite Hspawn. now rewrite lookup_insert_ne.
Qed.

Lemma run_fork_pid (e : os_env) (sched : list Z) :
  forall s tr s' q r child,
    run e sched s = Some (tr, s') ->
    (q, EvFork r child) ∈ tr ->
    exists k, child = os_fork e k.
Proof.
  induction sched as [|q' sched IH]; intros s tr s' q r child Hrun Hin.
  - injection Hrun as <- <-. inversion Hin.
  - apply run_cons_inv in Hrun as (ev & s1 & tr' & Hstep & Hrun & ->).
    apply elem_of_cons in Hin as [Heq|Hin]; [|exact (IH _ _ _ _ _ _ Hrun Hin)].
    injection Heq as <- <-.
    apply sys_step_inv in Hstep as (pq & c' & _ & Hcode & _).
    exact (code_step_fork e _ _ _ _ _ Hcode).
Qed.

(** X13.  In every run of the system in which [fork] never returns the
    orchestrator's own pid, the orchestrator's events are a prefix of
    [main_trace]: the six setup calls, the forks, the waits for the
    producers, the task sentinels, the log sentinels, the waits for the
    workers, the waits for the loggers and the teardown, in this order. *)
Lemma main_events_in_run (e : os_env) (sched : list Z) (tr : list (Z * event))
    (s : sys) :
  (forall k, os_fork e k <> os_pid e) ->
  run e sched (init_sys e) = Some (tr, s) ->
  exists views,
    events_of (os_pid e) tr
    = take (length views) (main_trace e (tin_of views) (lin_of views)).
Proof.
  intros Hpid Hrun.
  destruct (run_local e (os_pid e) sched _ _ _
              (mkProc false false (main_code e)) Hrun)
    as (views & p' & Hev & _).
  - apply lookup_singleton_eq.
  - intros q r Hin.
    destruct (run_fork_pid e sched _ _ _ _ _ _ Hrun Hin) as [k Hk].
    exact (Hpid k (eq_sym Hk)).
  - exists views. rewrite Hev. apply main_local_run.
Qed.

(** ** The race on a slot *)

(** What does hold: a fresh mapping has every [ready] at 0, and a consumer
    that clears a slot's [ready] posts [empty] as its next step. *)
Lemma zero_shm_unready (b : buf) (idx : Z) : load zero_shm b idx FReady = 0.
Proof.
  destruct b; unfold load, zero_shm, zero_TaskBuffer, zero_LogBuffer;
    cbn [tb lb tb_buffer lb_buffer].
  - destruct (replicate (Z.to_nat BUFFER_SIZE) zero_task !! Z.to_nat idx)
      as [t|] eqn:Ht; [|reflexivity].
    apply lookup_replicate in Ht as [-> _]. reflexivity.
  - destruct (replicate (Z.to_nat BUFFER_SIZE) zero_log !! Z.to_nat idx)
      as [t|] eqn:Ht; [|reflexivity].
    apply lookup_replicate in Ht as [-> _]. reflexivity.
Qed.

Lemma release_order (e : os_env) (c c' : code) (m m' : shm) (b : buf)
    (slot : Z) :
  code_step e c m = Some (EvStore b slot FReady 0, c') ->
  exists c'', code_step e c' m' = Some (EvSemPost b SEmpty, c'').
Proof.
  by_program_point c; intros Hstep;
    try discriminate; injection Hstep as <- <- <-; eexists; reflexivity.
Qed.

(** C8 (the code departs from it).  On [race_schedule] producer 101 is
    handed cursor 1024, that is slot 0, while that slot's [ready] is still
    1: worker 106 holds cursor 0 and has not read the slot yet, and the
    [empty] count the producer consumed was posted by worker 107 for slot
    1.  On [race_schedule_lost] the producer then overwrites the payload
    of slot 0 before worker 106 loads it: the payload published under
    cursor 0 is never read. *)
Theorem producer_claims_ready_slot :
  (fun x : list (Z * event) * sys =>
     (last x.1, load (mem x.2) TB (slot_of 1024) FReady,
      pr_code <$> procs x.2 !! 106))
    <$> run (sample_env 0) race_schedule (init_sys (sample_env 0))
  = Some (Some (101, EvFetchAdd TB CIn 1024), 1,
          Some (Worker (mkWorker W129 106 0 0 0 0 0)))
  /\ (fun x : list (Z * event) * sys => payload_accesses 0 x.1)
       <$> run (sample_env 0) race_schedule_lost (init_sys (sample_env 0))
     = Some [(101, EvStore TB 0 FData 59546842);
             (101, EvStore TB 0 FData 482758874);
             (106, EvLoad TB 0 FData 482758874)].
Proof. split; vm_compute; reflexivity. Qed.

(** * Invariants of runs *)

(** ** Token accounting *)

Lemma total_with_insert (w : code -> Z) (pid : Z) (p : proc) (ps : gmap Z proc) :
  total_with w (<[pid := p]> ps) = w (pr_code p) + total_with w (delete pid ps).
Proof.
  unfold total_with. rewrite <- insert_delete_eq.
  apply (map_fold_insert_L (fun _ p acc => w (pr_code p) + acc)).
  - intros. lia.
  - apply lookup_delete_eq.
Qed.

Lemma total_with_lookup (w : code -> Z) (pid : Z) (p : proc) (ps : gmap Z proc) :
  ps !! pid = Some p ->
  total_with w ps = w (pr_code p) + total_with w (delete pid ps).
Proof.
  intros Hp. unfold total_with.
  apply (map_fold_delete_L (fun _ p acc => w (pr_code p) + acc));
    [intros; lia | exact Hp].
Qed.

Lemma total_with_nonneg (w : code -> Z) (ps : gmap Z proc) :
  (forall c, 0 <= w c) -> 0 <= total_with w ps.
Proof.
  intros Hw. unfold total_with.
  apply (map_fold_weak_ind (fun acc _ => 0 <= acc)); [lia|].
  intros k p m acc _ Hacc. pose proof (Hw (pr_code p)). lia.
Qed.

Lemma total_with_delete_le (w : code -> Z) (pid : Z) (ps : gmap Z proc) :
  (forall c, 0 <= w c) ->
  total_with w (delete pid ps) <= total_with w ps.
Proof.
  intros Hw. destruct (ps !! pid) as [p|] eqn:Hp.
  - rewrite (total_with_lookup w pid p ps Hp). pose proof (Hw (pr_code p)). lia.
  - rewrite delete_id by exact Hp. lia.
Qed.

(** The semaphore counts stay non-negative: [sem_wait] returns only on a
    positive count, and [sem_init] is given 0 or [BUFFER_SIZE]. *)
Lemma code_step_sem_init (e : os_env) (c c' : code) (m : shm) (b : buf) (s : sem)
    (pshared value ret : Z) :
  code_step e c m = Some (EvSemInit b s pshared value ret, c') ->
  value = match s with SEmpty => BUFFER_SIZE | SFull => 0 end.
Proof.
  by_program_point c; intros Hstep; try discriminate;
    injection Hstep as <- <- _ <- _ _; reflexivity.
Qed.

Lemma sys_step_sems (e : os_env) (pid : Z) (s s1 : sys) (ev : event) :
  sems_nonneg (mem s) ->
  sys_step e pid s = Some (ev, s1) ->
  sems_nonneg (mem s1).
Proof.
  intros (He & Hf & Hle & Hlf) Hstep.
  apply sys_step_inv in Hstep as (p & c' & _ & Hcode & Hen & ->).
  unfold sems_nonneg. cbn [mem].
  destruct ev as [| |b' s'|b' s'|b' c'' ?|? ? ? ?|b' ? ? ?| | | | | |b' s' ? v r| | |];
    cbn [mem_apply]; try (repeat split; assumption).
  - simpl in Hen. apply andb_true_iff in Hen as [_ Hpos]. apply Z.ltb_lt in Hpos.
    destruct b', s'; simpl in *; repeat split; lia.
  - destruct b', s'; simpl; repeat split; lia.
  - destruct b', c''; simpl; repeat split; lia.
  - destruct b'; simpl; repeat split; lia.
  - apply code_step_sem_init in Hcode. subst v.
    destruct (r =? 0); [|repeat split; assumption].
    unfold BUFFER_SIZE. destruct b', s'; simpl; repeat split; lia.
Qed.

Lemma run_sems (e : os_env) (sched : list Z) :
  forall s tr s',
    sems_nonneg (mem s) -> run e sched s = Some (tr, s') -> sems_nonneg (mem s').
Proof.
  induction sched as [|pid sched IH]; intros s tr s' Hs Hrun.
  - now injection Hrun as <- <-.
  - apply run_cons_inv in Hrun as (ev & s1 & tr' & Hstep & Hrun & ->).
    exact (IH _ _ _ (sys_step_sems e pid s s1 ev Hs Hstep) Hrun).
Qed.

Section Potential.

Variable e : os_env.
Variable q : shm -> Z.
Variable w : code -> Z.
Variable g : event -> Z.

Hypothesis w_nonneg : forall c, 0 <= w c.
Hypothesis w_child : forall p r pid, w (pr_code (child_of p r pid)) = 0.
Hypothesis step_pays : forall c m ev c',
  sems_nonneg m ->
  code_step e c m = Some (ev, c') ->
  q (mem_apply ev m) + w c' + g ev <= q m + w c.

Lemma sys_step_potential (pid : Z) (s s1 : sys) (ev : event) :
  sems_nonneg (mem s) ->
  sys_step e pid s = Some (ev, s1) ->
  q (mem s1) + total_with w (procs s1) + g ev
  <= q (mem s) + total_with w (procs s).
Proof.
  intros Hs Hstep.
  apply sys_step_inv in Hstep as (p & c' & Hp & Hcode & _ & ->).
  pose proof (step_pays _ _ _ _ Hs Hcode) as Hpay.
  cbn [mem procs].
  set (X := <[pid := proc_after ev p c']> (procs s)).
  assert (HtX : total_with w X = w c' + total_with w (delete pid (procs s))).
  { unfold X. now rewrite total_with_insert, pr_code_proc_after. }
  assert (HtS : total_with w (spawn ev p X) <= total_with w X).
  { destruct ev; simpl; try lia.
    rewrite total_with_insert, w_child.
    pose proof (total_with_delete_le w child X w_nonneg). lia. }
  pose proof (total_with_lookup w pid p (procs s) Hp). lia.
Qed.

Lemma run_potential (sched : list Z) :
  forall s tr s',
    sems_nonneg (mem s) ->
    run e sched s = Some (tr, s') ->
    q (mem s') + total_with w (procs s') + sum_gain g tr
    <= q (mem s) + total_with w (procs s).
Proof.
  induction sched as [|pid sched IH]; intros s tr s' Hs Hrun.
  - injection Hrun as <- <-. simpl. lia.
  - apply run_cons_inv in Hrun as (ev & s1 & tr' & Hstep & Hrun & ->).
    pose proof (sys_step_potential pid s s1 ev Hs Hstep).
    pose proof (IH _ _ _ (sys_step_sems e pid s s1 ev Hs Hstep) Hrun).
    cbn [sum_gain foldr snd] in *. fold (sum_gain g tr'). lia.
Qed.

End Potential.

Lemma empty_hold_nonneg (b : buf) (c : code) : 0 <= empty_hold b c.
Proof.
  unfold empty_hold, BUFFER_SIZE.
  destruct b, c as [st|st|st|st]; try lia;
    [destruct (p_pc st)|destruct (w_pc st)|destruct (m_pc st)
    |destruct (w_pc st)|destruct (l_pc st)|destruct (m_pc st)]; lia.
Qed.

Lemma full_hold_nonneg (b : buf) (c : code) : 0 <= full_hold b c.
Proof.
  unfold full_hold.
  destruct b, c as [st|st|st|st]; try lia;
    [destruct (p_pc st)|destruct (w_pc st)|destruct (m_pc st)
    |destruct (w_pc st)|destruct (l_pc st)|destruct (m_pc st)]; lia.
Qed.

Lemma hold_child (b : buf) (p : proc) (r : role) (pid : Z) :
  empty_hold b (pr_code (child_of p r pid)) = 0
  /\ full_hold b (pr_code (child_of p r pid)) = 0.
Proof. destruct b, r; split; reflexivity. Qed.

(** Every step pays for what it takes out of [empty]. *)
Lemma step_pays_empty (e : os_env) (b : buf) (c c' : code) (m : shm) (ev : event) :
  sems_nonneg m ->
  code_step e c m = Some (ev, c') ->
  get_sem (mem_apply ev m) b SEmpty + empty_hold b c'
  + (claim_gain b ev - read_gain b ev)
  <= get_sem m b SEmpty + empty_hold b c.
Proof.
  intros (He & Hf & Hle & Hlf).
  unfold empty_hold, BUFFER_SIZE.
  destruct c as [st|st|st|st]; cbn [code_step].
  - unfold producer_step. destruct (p_pc st) eqn:Hpc; cbn [fmap option_fmap option_map prod_map];
      intros Hstep; try discriminate; injection Hstep as <- <-;
      cbn [p_pc p_goto]; try destruct (_ <? _); destruct b; simpl; lia.
  - unfold worker_step. destruct (w_pc st) eqn:Hpc; cbn [fmap option_fmap option_map prod_map];
      intros Hstep; try discriminate; injection Hstep as <- <-;
      cbn [w_pc w_goto]; try destruct (_ =? _); destruct b; simpl; lia.
  - unfold logger_step. destruct (l_pc st) eqn:Hpc; cbn [fmap option_fmap option_map prod_map];
      intros Hstep; try discriminate; injection Hstep as <- <-;
      cbn [l_pc l_goto]; try destruct (_ =? _); destruct b; simpl; lia.
  - unfold main_step. destruct (m_pc st) eqn:Hpc; cbn [fmap option_fmap option_map prod_map];
      intros Hstep; try discriminate; injection Hstep as <- <-;
      cbn [id];
      try match goal with
          | |- context [m_next ?n ?a ?c ?s] =>
              destruct (m_next_cases n a c s) as [(Hp & _ & _)|(Hp & _ & _)];
              rewrite Hp
          end;
      cbn [m_pc m_goto m_set_prevIn];
      destruct b; simpl; try destruct (_ =? 0); simpl; unfold BUFFER_SIZE; lia.
Qed.

(** Every step pays for what it takes out of [full]. *)
Lemma step_pays_full (e : os_env) (b : buf) (c c' : code) (m : shm) (ev : event) :
  sems_nonneg m ->
  code_step e c m = Some (ev, c') ->
  get_sem (mem_apply ev m) b SFull + full_hold b c'
  + (read_gain b ev - claim_gain b ev)
  <= get_sem m b SFull + full_hold b c.
Proof.
  intros (He & Hf & Hle & Hlf).
  unfold full_hold.
  destruct c as [st|st|st|st]; cbn [code_step].
  - unfold producer_step. destruct (p_pc st) eqn:Hpc; cbn [fmap option_fmap option_map prod_map];
      intros Hstep; try discriminate; injection Hstep as <- <-;
      cbn [p_pc p_goto]; try destruct (_ <? _); destruct b; simpl; lia.
  - unfold worker_step. destruct (w_pc st) eqn:Hpc; cbn [fmap option_fmap option_map prod_map];
      intros Hstep; try discriminate; injection Hstep as <- <-;
      cbn [w_pc w_goto]; try destruct (_ =? _); destruct b; simpl; lia.
  - unfold logger_step. destruct (l_pc st) eqn:Hpc; cbn [fmap option_fmap option_map prod_map];
      intros Hstep; try discriminate; injection Hstep as <- <-;
      cbn [l_pc l_goto]; try destruct (_ =? _); destruct b; simpl; lia.
  - unfold main_step. destruct (m_pc st) eqn:Hpc; cbn [fmap option_fmap option_map prod_map];
      intros Hstep; try discriminate; injection Hstep as <- <-;
      cbn [id];
      try match goal with
          | |- context [m_next ?n ?a ?c ?s] =>
              destruct (m_next_cases n a c s) as [(Hp & _ & _)|(Hp & _ & _)];
              rewrite Hp
          end;
      cbn [m_pc m_goto m_set_prevIn];
      destruct b; simpl; try destruct (_ =? 0); simpl; unfold BUFFER_SIZE; lia.
Qed.

Lemma claimed_cons (b : buf) (pid : Z) (ev : event) (tr : list (Z * event)) :
  Z.of_nat (length (claimed b CIn ((pid, ev) :: tr)))
  = claim_gain b ev + Z.of_nat (length (claimed b CIn tr))
  /\ Z.of_nat (length (claimed b COut ((pid, ev) :: tr)))
     = read_gain b ev + Z.of_nat (length (claimed b COut tr)).
Proof.
  split; unfold claimed; cbn [omap list_omap]; unfold claim_of at 1;
    unfold claim_gain, read_gain; cbn [snd];
    destruct ev as [| | | |b' c' prev| | | | | | | | | | |]; try reflexivity;
    destruct c', (buf_eqb b' b); cbn [andb cursor_eqb length]; lia.
Qed.

Lemma sum_gain_claims (b : buf) (tr : list (Z * event)) :
  sum_gain (fun ev => claim_gain b ev - read_gain b ev) tr
  = Z.of_nat (length (claimed b CIn tr)) - Z.of_nat (length (claimed b COut tr)).
Proof.
  induction tr as [|[pid ev] tr IH]; [reflexivity|].
  destruct (claimed_cons b pid ev tr) as [-> ->].
  cbn [sum_gain foldr snd]. fold (sum_gain (fun ev => claim_gain b ev - read_gain b ev) tr).
  lia.
Qed.

Lemma sum_gain_reads (b : buf) (tr : list (Z * event)) :
  sum_gain (fun ev => read_gain b ev - claim_gain b ev) tr
  = Z.of_nat (length (claimed b COut tr)) - Z.of_nat (length (claimed b CIn tr)).
Proof.
  induction tr as [|[pid ev] tr IH]; [reflexivity|].
  destruct (claimed_cons b pid ev tr) as [-> ->].
  cbn [sum_gain foldr snd]. fold (sum_gain (fun ev => read_gain b ev - claim_gain b ev) tr).
  lia.
Qed.

Lemma init_sems (e : os_env) : sems_nonneg (mem (init_sys e)).
Proof. repeat split; simpl; lia. Qed.

Lemma init_holds (e : os_env) (b : buf) :
  total_with (empty_hold b) (procs (init_sys e)) = BUFFER_SIZE
  /\ total_with (full_hold b) (procs (init_sys e)) = 0.
Proof.
  unfold total_with, init_sys. cbn [procs].
  rewrite !map_fold_singleton. destruct b; split; reflexivity.
Qed.

(** The two balances of a run: what is in [empty], held towards it, or
    claimed for writing and not yet for reading never exceeds
    [BUFFER_SIZE]; what is in [full] or held towards it never exceeds the
    write claims not yet matched by a read claim. *)
Lemma run_balance (e : os_env) (sched : list Z) (tr : list (Z * event)) (s : sys)
    (b : buf) :
  run e sched (init_sys e) = Some (tr, s) ->
  let nin := Z.of_nat (length (claimed b CIn tr)) in
  let nout := Z.of_nat (length (claimed b COut tr)) in
  sems_nonneg (mem s)
  /\ get_sem (mem s) b SEmpty + total_with (empty_hold b) (procs s) + (nin - nout)
     <= BUFFER_SIZE
  /\ get_sem (mem s) b SFull + total_with (full_hold b) (procs s) <= nin - nout.
Proof.
  intros Hrun nin nout.
  destruct (init_holds e b) as [Hie Hif].
  split; [exact (run_sems e sched _ _ _ (init_sems e) Hrun)|]. split.
  - pose proof (run_potential e (fun m => get_sem m b SEmpty) (empty_hold b)
                  (fun ev => claim_gain b ev - read_gain b ev)
                  (empty_hold_nonneg b)
                  (fun p r pid => proj1 (hold_child b p r pid))
                  (fun c m ev c' => step_pays_empty e b c c' m ev)
                  sched _ _ _ (init_sems e) Hrun) as Hpot.
    rewrite sum_gain_claims, Hie in Hpot.
    assert (get_sem (mem (init_sys e)) b SEmpty = 0) as H0 by (destruct b; reflexivity).
    rewrite H0 in Hpot. subst nin nout. lia.
  - pose proof (run_potential e (fun m => get_sem m b SFull) (full_hold b)
                  (fun ev => read_gain b ev - claim_gain b ev)
                  (full_hold_nonneg b)
                  (fun p r pid => proj2 (hold_child b p r pid))
                  (fun c m ev c' => step_pays_full e b c c' m ev)
                  sched _ _ _ (init_sems e) Hrun) as Hpot.
    rewrite sum_gain_reads, Hif in Hpot.
    assert (get_sem (mem (init_sys e)) b SFull = 0) as H0 by (destruct b; reflexivity).
    rewrite H0 in Hpot. subst nin nout. lia.
Qed.

Lemma get_sem_nonneg (m : shm) (b : buf) (sm : sem) :
  sems_nonneg m -> 0 <= get_sem m b sm.
Proof. intros (? & ? & ? & ?). destruct b, sm; assumption. Qed.

(** X1.  In every state a run of the system reaches, and for each buffer,
    the counts of [empty] and [full] are not negative and their sum is at
    most [BUFFER_SIZE]: the slots accounted free and those accounted filled
    never exceed the capacity, whatever [sem_init] returned and however the
    processes interleave. *)
Theorem semaphores_bounded (e : os_env) (sched : list Z) (tr : list (Z * event))
    (s : sys) (b : buf) :
  run e sched (init_sys e) = Some (tr, s) ->
  0 <= get_sem (mem s) b SEmpty
  /\ 0 <= get_sem (mem s) b SFull
  /\ get_sem (mem s) b SEmpty + get_sem (mem s) b SFull <= BUFFER_SIZE.
Proof.
  intros Hrun.
  destruct (run_balance e sched tr s b Hrun) as (Hs & HA & HB).
  pose proof (get_sem_nonneg (mem s) b SEmpty Hs).
  pose proof (get_sem_nonneg (mem s) b SFull Hs).
  pose proof (total_with_nonneg (empty_hold b) (procs s) (empty_hold_nonneg b)).
  pose proof (total_with_nonneg (full_hold b) (procs s) (full_hold_nonneg b)).
  repeat split; lia.
Qed.

Lemma semaphores_bounded_witness :
  0 <= get_sem (mem sample_pipeline_state) TB SEmpty
  /\ 0 <= get_sem (mem sample_pipeline_state) TB SFull
  /\ get_sem (mem sample_pipeline_state) TB SEmpty
     + get_sem (mem sample_pipeline_state) TB SFull <= BUFFER_SIZE.
Proof.
  eapply (semaphores_bounded (sample_env 0) sample_pipeline_schedule).
  vm_compute. reflexivity.
Defined.

(** Any prefix of the trace of a run is the trace of a run. *)
Lemma run_prefix (e : os_env) (sched : list Z) :
  forall s tr1 tr2 s',
    run e sched s = Some (tr1 ++ tr2, s') ->
    exists sched1 s1, run e sched1 s = Some (tr1, s1).
Proof.
  induction sched as [|pid sched IH]; intros s tr1 tr2 s' Hrun.
  - injection Hrun as Htr _. symmetry in Htr.
    apply app_eq_nil in Htr as [-> _]. now exists [], s.
  - destruct tr1 as [|x tr1]; [now exists [], s|].
    apply run_cons_inv in Hrun as (ev & s1 & tr' & Hstep & Hrun & Htr).
    injection Htr as -> <-.
    destruct (IH _ _ _ _ Hrun) as (sched1 & s2 & Hrun1).
    exists (pid :: sched1), s2. simpl. now rewrite Hstep, Hrun1.
Qed.

Lemma run_claims_window (e : os_env) (sched : list Z) (tr : list (Z * event))
    (s : sys) (b : buf) :
  run e sched (init_sys e) = Some (tr, s) ->
  (length (claimed b COut tr) <= length (claimed b CIn tr)
   <= length (claimed b COut tr) + Z.to_nat BUFFER_SIZE)%nat.
Proof.
  intros Hrun.
  destruct (run_balance e sched tr s b Hrun) as (Hs & HA & HB).
  pose proof (get_sem_nonneg (mem s) b SEmpty Hs).
  pose proof (get_sem_nonneg (mem s) b SFull Hs).
  pose proof (total_with_nonneg (empty_hold b) (procs s) (empty_hold_nonneg b)).
  pose proof (total_with_nonneg (full_hold b) (procs s) (full_hold_nonneg b)).
  unfold BUFFER_SIZE in *. lia.
Qed.

(** X2.  At every point of a run, the read claims made on a buffer are
    at most the write claims made on it, and the write claims are at most
    [BUFFER_SIZE] more than the read claims: [sem_wait] on [full] keeps a
    reader from claiming a cursor no writer has claimed, and [sem_wait] on
    [empty] keeps the writers within one lap of the readers' claims. *)
Theorem cursor_window (e : os_env) (sched : list Z) (tr1 tr2 : list (Z * event))
    (s : sys) (b : buf) :
  run e sched (init_sys e) = Some (tr1 ++ tr2, s) ->
  (length (claimed b COut tr1) <= length (claimed b CIn tr1)
   <= length (claimed b COut tr1) + Z.to_nat BUFFER_SIZE)%nat.
Proof.
  intros Hrun.
  destruct (run_prefix e sched _ _ _ _ Hrun) as (sched1 & s1 & Hrun1).
  exact (run_claims_window e sched1 tr1 s1 b Hrun1).
Qed.

Lemma cursor_window_witness :
  (length (claimed TB COut sample_pipeline_trace)
   <= length (claimed TB CIn sample_pipeline_trace)
   <= length (claimed TB COut sample_pipeline_trace) + Z.to_nat BUFFER_SIZE)%nat.
Proof.
  eapply (cursor_window (sample_env 0) sample_pipeline_schedule
            sample_pipeline_trace []).
  vm_compute. reflexivity.
Defined.

Lemma run_cursor (e : os_env) (b : buf) (cu : cursor) (sched : list Z) :
  forall s tr s',
    to_ull (get_cursor (mem s) b cu) = get_cursor (mem s) b cu ->
    run e sched s = Some (tr, s') ->
    get_cursor (mem s') b cu
    = to_ull (get_cursor (mem s) b cu + Z.of_nat (length (claimed b cu tr))).
Proof.
  induction sched as [|pid sched IH]; intros s tr s' Hcur Hrun.
  - injection Hrun as <- <-. simpl. now rewrite Z.add_0_r.
  - apply run_cons_inv in Hrun as (ev & s1 & tr' & Hstep & Hrun & ->).
    apply sys_step_inv in Hstep as (p & c' & _ & _ & _ & ->).
    assert (Hcur1 : to_ull (get_cursor (mem_apply ev (mem s)) b cu)
                    = get_cursor (mem_apply ev (mem s)) b cu).
    { rewrite (mem_apply_cursor ev (mem s) b cu pid).
      destruct (claim_of b cu (pid, ev)); [apply to_ull_idem | exact Hcur]. }
    rewrite (IH (mkSys _ _) _ _ Hcur1 Hrun). cbn [mem].
    rewrite (mem_apply_cursor ev (mem s) b cu pid).
    unfold claimed. cbn [omap list_omap].
    destruct (claim_of b cu (pid, ev)); [|reflexivity].
    cbn [length fetch_and_add snd]. unfold to_ull.
    rewrite Zplus_mod_idemp_l. f_equal. lia.
Qed.

Lemma of_nat_seq_claims (n : nat) :
  Z.of_nat n <= 550000007 ->
  claims n 0 = Z.of_nat <$> seq 0 n.
Proof.
  intros Hn. rewrite claims_closed_form by reflexivity.
  apply list_fmap_ext. intros i k Hk.
  apply lookup_seq in Hk as [Hk Hi]. subst k. cbn [Nat.add].
  apply to_ull_small. change (2 ^ 64) with 18446744073709551616. lia.
Qed.

(** X3.  When [rand()] is never negative, the cursor values a run hands
    out on a buffer, in either direction, are 0, 1, 2, ... in the order of
    the claims, and the cursor holds the number of claims made: the 64-bit
    cursor never wraps around within a run. *)
Theorem claims_in_order (e : os_env) (sched : list Z) (tr : list (Z * event))
    (s : sys) (b : buf) (cu : cursor) :
  rand_nonneg e ->
  run e sched (init_sys e) = Some (tr, s) ->
  claimed b cu tr = Z.of_nat <$> seq 0 (length (claimed b cu tr))
  /\ get_cursor (mem s) b cu = Z.of_nat (length (claimed b cu tr)).
Proof.
  intros Hrand Hrun.
  pose proof (run_claims_bounded e b sched tr s Hrand Hrun) as Hin.
  assert (Hn : Z.of_nat (length (claimed b cu tr)) <= 550000007).
  { destruct cu; [exact Hin|].
    pose proof (run_claims_window e sched tr s b Hrun) as Hw. lia. }
  assert (H0 : get_cursor (mem (init_sys e)) b cu = 0) by (destruct b, cu; reflexivity).
  split.
  - rewrite (run_claimed e b cu sched _ _ _ Hrun) at 1. rewrite H0.
    now apply of_nat_seq_claims.
  - rewrite (run_cursor e b cu sched _ _ _ ltac:(now rewrite H0) Hrun), H0.
    apply to_ull_small. change (2 ^ 64) with 18446744073709551616. lia.
Qed.

Lemma claims_in_order_witness :
  claimed LB CIn sample_pipeline_trace
  = Z.of_nat <$> seq 0 (length (claimed LB CIn sample_pipeline_trace))
  /\ get_cursor (mem sample_pipeline_state) LB CIn
     = Z.of_nat (length (claimed LB CIn sample_pipeline_trace)).
Proof.
  apply (claims_in_order (sample_env 0) sample_pipeline_schedule).
  - apply weyl_nonneg.
  - vm_compute. reflexivity.
Defined.

(** ** Logger *)

(** X4.  A logger that has found its slot ready reads the payload [d], the
    processor [w] and the origin [pp], clears [ready] and posts [empty].
    If [d] is -1 its next and last event is [exit(0)] and it prints
    nothing; otherwise it prints one line with [w], [d] and [pp] on the
    standard output and returns to the head of its loop. *)
Theorem logger_prints_or_exits (e : os_env) (self prevOut d0 w0 pp0 : Z)
    (v1 v2 v3 v4 v5 v6 v7 : shm) (views : list shm) :
  let slot := slot_of prevOut in
  let d := load v1 LB slot FData in
  let w := load v2 LB slot FWorkerPid in
  let pp := load v3 LB slot FProducerPid in
  local_run e (Logger (mkLogger L167 self prevOut d0 w0 pp0))
    (v1 :: v2 :: v3 :: v4 :: v5 :: v6 :: v7 :: views)
  = log_consume_events slot d w pp
    ++ (if d =? -1 then [EvExit 0]
        else EvWrite STDOUT w d pp
             :: local_run e (Logger (mkLogger L162 self prevOut d w pp)) views).
Proof.
  intros slot d w pp. subst slot d w pp.
  cbn [local_run code_step logger_step l_pc fmap option_fmap option_map
         prod_map fst snd id l_goto l_self l_prevOut l_data l_workerPid
         l_producerPid log_consume_events app].
  destruct (load v1 LB (slot_of prevOut) FData =? -1); [|reflexivity].
  do 6 f_equal. cbn. now rewrite local_run_exited.
Qed.

(** ** The readiness poll *)

Lemma data_load_follows_ready_step (e : os_env) (c c' c'' : code) (m m' : shm)
    (ev : event) (b : buf) (slot d : Z) :
  code_step e c m = Some (ev, c') ->
  code_step e c' m' = Some (EvLoad b slot FData d, c'') ->
  ev = EvLoad b slot FReady (load m b slot FReady)
  /\ load m b slot FReady <> 0.
Proof.
  destruct c as [st|st|st|st]; cbn [code_step].
  - unfold producer_step. destruct (p_pc st); cbn; intros Hs; try discriminate;
      injection Hs as <- <-; cbn; unfold producer_step; cbn;
      try destruct (_ <? _); cbn; discriminate.
  - unfold worker_step. destruct (w_pc st); cbn; intros Hs; try discriminate;
      injection Hs as <- <-; cbn; unfold worker_step; cbn;
      try destruct (_ =? _) eqn:Hr; cbn; intros Hd; try discriminate.
    injection Hd as <- <- _. split; [reflexivity|]. now apply Z.eqb_neq.
  - unfold logger_step. destruct (l_pc st); cbn; intros Hs; try discriminate;
      injection Hs as <- <-; cbn; unfold logger_step; cbn;
      try destruct (_ =? _) eqn:Hr; cbn; intros Hd; try discriminate.
    injection Hd as <- <- _. split; [reflexivity|]. now apply Z.eqb_neq.
  - unfold main_step. destruct (m_pc st); cbn; intros Hs; try discriminate;
      injection Hs as <- <-;
      try match goal with
          | |- context [m_next ?n ?a ?c ?s] =>
              let Hp := fresh "Hp" in
              destruct (m_next_cases n a c s) as [(Hp & _ & _)|(Hp & _ & _)];
              cbn [code_step]; unfold main_step; rewrite Hp
          end; cbn; unfold main_step; cbn; discriminate.
Qed.

(** X5.  Whatever the other processes do to the memory, a process loads
    the payload of a slot only directly after it has loaded that slot's
    [ready] flag and found it not 0 (lines 129-133 and 164-167). *)
Theorem data_load_after_ready (e : os_env) (c : code) (views : list shm)
    (i : nat) (b : buf) (slot d : Z) :
  local_run e c views !! S i = Some (EvLoad b slot FData d) ->
  exists m,
    views !! i = Some m
    /\ local_run e c views !! i = Some (EvLoad b slot FReady (load m b slot FReady))
    /\ load m b slot FReady <> 0.
Proof.
  revert c views. induction i as [|i IH]; intros c views Hd.
  - destruct views as [|m1 [|m2 views]]; simpl in Hd; try discriminate.
    + destruct (code_step e c m1) as [[ev1 c1]|]; discriminate.
    + destruct (code_step e c m1) as [[ev1 c1]|] eqn:H1; [|discriminate].
      simpl in Hd.
      destruct (code_step e c1 m2) as [[ev2 c2]|] eqn:H2; [|discriminate].
      injection Hd as ->.
      destruct (data_load_follows_ready_step e _ _ _ _ _ _ _ _ _ H1 H2) as [-> Hr].
      exists m1. simpl. rewrite H1. now repeat split.
  - destruct views as [|m1 views]; [discriminate|].
    simpl in Hd. destruct (code_step e c m1) as [[ev1 c1]|] eqn:H1; [|discriminate].
    destruct (IH c1 views Hd) as (m & Hm & Hev & Hr).
    exists m. simpl. rewrite H1. now repeat split.
Qed.

Lemma data_load_after_ready_witness :
  exists m,
    [ready_shm; ready_shm] !! 0%nat = Some m
    /\ local_run (sample_env 0) (Worker (mkWorker W129 106 0 0 0 0 0))
         [ready_shm; ready_shm] !! 0%nat
       = Some (EvLoad TB 0 FReady (load m TB 0 FReady))
    /\ load m TB 0 FReady <> 0.
Proof.
  apply (data_load_after_ready (sample_env 0)
           (Worker (mkWorker W129 106 0 0 0 0 0)) [ready_shm; ready_shm]
           0 TB 0 7).
  vm_compute. reflexivity.
Defined.

(** ** The producer's loop *)

Lemma producer_loop (e : os_env) (k : nat) :
  forall (self seed : Z) (calls : nat) (ts i prevIn : Z) (views : list shm),
    0 <= i -> ts < 2 ^ 64 -> ts - i = Z.of_nat (S k) ->
    (7 * S k + 1 <= length views)%nat ->
    let st := Producer (mkProducer P92 self seed calls ts i prevIn) in
    payloads (local_run e st views)
    = (fun j => payload_of (os_rand e seed (calls + j))) <$> seq 0 (S k)
    /\ exited (local_end e st views) = true
    /\ last (local_run e st views) = Some (EvExit 0).
Proof.
  induction k as [|k IH]; intros self seed calls ts i prevIn views Hi Hts Hk Hlen st;
    subst st;
    do 7 (destruct views as [|? views]; [simpl in Hlen; lia|]);
    cbn [local_run local_end code_step producer_step p_pc fmap option_fmap
           option_map prod_map fst snd id p_goto p_self p_seed p_calls
           p_taskSize p_i p_prevIn fetch_and_add];
    rewrite (to_ull_small (i + 1)) by lia.
  - destruct (i + 1 <? ts) eqn:Hlt; [apply Z.ltb_lt in Hlt; lia|].
    destruct views as [|? views]; [simpl in Hlen; lia|].
    cbn [local_run local_end code_step producer_step p_pc fmap option_fmap
           option_map prod_map fst snd id p_goto].
    rewrite local_run_exited by reflexivity.
    repeat split.
    + cbn. now rewrite Nat.add_0_r.
    + destruct views; reflexivity.
  - destruct (i + 1 <? ts) eqn:Hlt; [|apply Z.ltb_ge in Hlt; lia].
    destruct (IH self seed (S calls) ts (i + 1) (fst (fetch_and_add (tb_in (tb s0)))) views)
      as (Hpay & Hex & Hlast); try lia.
    { simpl in Hlen. lia. }
    cbn [fetch_and_add fst] in *.
    repeat split.
    + unfold payloads in *. cbn [omap list_omap payload_of_event].
      rewrite Hpay. change (seq 0 (S (S k))) with (0%nat :: seq 1 (S k)).
      rewrite fmap_cons, Nat.add_0_r. f_equal.
      rewrite <- (fmap_S_seq 0 (S k)), <- list_fmap_compose.
      apply list_fmap_ext. intros ? j _. cbn. do 2 f_equal. lia.
    + exact Hex.
    + rewrite <- Hlast.
      remember (local_run e _ views) as rest eqn:Hrest.
      destruct rest as [|x rest]; [discriminate Hlast|].
      reflexivity.
Qed.

Lemma taskSize_of_ull (r : Z) : 0 <= taskSize_of r < 2 ^ 64.
Proof. unfold taskSize_of, to_ull. apply Z.mod_pos_bound. reflexivity. Qed.

(** X7.  A producer that is given enough steps publishes exactly
    [taskSize] payloads, the values [rand() % INT_MAX] of its second and
    later calls of [rand()] in order, and then exits with status 0,
    whatever the other processes do to the memory (blocking apart). *)
Theorem producer_publishes_taskSize_payloads (e : os_env) (pid : Z)
    (views : list shm) :
  let n := Z.to_nat (producer_taskSize e pid) in
  let p := Producer (producer_init pid) in
  (3 + 7 * n <= length views)%nat ->
  payloads (local_run e p views) = producer_payload e pid <$> seq 0 n
  /\ exited (local_end e p views) = true
  /\ last (local_run e p views) = Some (EvExit 0).
Proof.
  intros n p Hlen. subst p.
  pose proof (taskSize_of_ull (os_rand e (to_uint (os_time e pid)) 0)) as Hts.
  fold (producer_taskSize e pid) in Hts.
  do 2 (destruct views as [|? views]; [simpl in Hlen; lia|]).
  cbn [local_run local_end code_step producer_step producer_init p_pc fmap
         option_fmap option_map prod_map fst snd id p_goto p_self p_seed
         p_calls p_taskSize p_i p_prevIn].
  fold (producer_taskSize e pid).
  destruct (0 <? producer_taskSize e pid) eqn:Hpos.
  - apply Z.ltb_lt in Hpos.
    destruct n as [|k] eqn:Hn; [lia|].
    destruct (producer_loop e k pid (to_uint (os_time e pid)) 1
                (producer_taskSize e pid) 0 0 views) as (Hpay & Hex & Hlast);
      try lia.
    { simpl in Hlen. lia. }
    cbn zeta in Hpay, Hex, Hlast.
    unfold payloads in *. cbn [omap list_omap payload_of_event].
    rewrite Hpay, Hex. repeat split.
    remember (local_run e _ views) as rest eqn:Hrest.
    destruct rest as [|x rest]; [discriminate Hlast|]. exact Hlast.
  - apply Z.ltb_ge in Hpos.
    assert (n = 0%nat) as -> by lia.
    destruct views as [|? views]; [simpl in Hlen; lia|].
    cbn [local_run local_end code_step producer_step p_pc fmap option_fmap
           option_map prod_map fst snd id p_goto].
    rewrite local_run_exited by reflexivity.
    repeat split. destruct views; reflexivity.
Qed.

Lemma producer_publishes_taskSize_payloads_witness :
  let n := Z.to_nat (producer_taskSize (sample_env 0) 101) in
  let p := Producer (producer_init 101) in
  let views := replicate (3 + 7 * n) zero_shm in
  payloads (local_run (sample_env 0) p views)
  = producer_payload (sample_env 0) 101 <$> seq 0 n
  /\ exited (local_end (sample_env 0) p views) = true
  /\ last (local_run (sample_env 0) p views) = Some (EvExit 0).
Proof.
  intros n p views.
  apply (producer_publishes_taskSize_payloads (sample_env 0) 101 views).
  unfold views. rewrite length_replicate. apply Nat.le_refl.
Defined.

(** ** Waiting in the poll loop *)

(** X6.  A worker or logger polling a slot stays in its poll loop for as
    long as the slot's [ready] flag reads 0: each of its steps is a load of
    that flag or a [usleep], and it touches nothing else. *)
Theorem poll_waits_while_unready (e : os_env) (c : code) (b : buf) (slot : Z)
    (views : list shm) :
  polling c = Some (b, slot) ->
  Forall (fun m => load m b slot FReady = 0) views ->
  polling (local_end e c views) = Some (b, slot)
  /\ length (local_run e c views) = length views
  /\ Forall (fun ev => ev = EvLoad b slot FReady 0 \/ ev = EvUsleep)
       (local_run e c views).
Proof.
  intros Hpoll Hviews. revert c Hpoll.
  induction Hviews as [|m views Hm _ IH]; intros c Hpoll.
  - repeat split; [exact Hpoll | constructor].
  - assert (Hstep : exists ev c',
               code_step e c m = Some (ev, c')
               /\ polling c' = Some (b, slot)
               /\ (ev = EvLoad b slot FReady 0 \/ ev = EvUsleep)).
    { destruct c as [st|st|st|st]; try discriminate; cbn in Hpoll |- *.
      - unfold worker_step.
        destruct (w_pc st) eqn:Hpc; try discriminate;
          injection Hpoll as <- <-; cbv zeta; rewrite ?Hm;
          eexists _, _; (split; [reflexivity|]); cbn; rewrite ?Hpc; auto.
      - unfold logger_step.
        destruct (l_pc st) eqn:Hpc; try discriminate;
          injection Hpoll as <- <-; cbv zeta; rewrite ?Hm;
          eexists _, _; (split; [reflexivity|]); cbn; rewrite ?Hpc; auto. }
    destruct Hstep as (ev & c' & Hcode & Hpoll' & Hev).
    destruct (IH c' Hpoll') as (Hend & Hlen & Hall).
    cbn [local_run local_end]. rewrite Hcode.
    repeat split; [exact Hend | cbn; now rewrite Hlen | now constructor].
Qed.

Lemma poll_waits_while_unready_witness :
  polling (local_end (sample_env 0) (Worker (mkWorker W129 106 0 0 0 0 0))
             [zero_shm; zero_shm; zero_shm]) = Some (TB, 0)
  /\ length (local_run (sample_env 0) (Worker (mkWorker W129 106 0 0 0 0 0))
               [zero_shm; zero_shm; zero_shm])
     = length [zero_shm; zero_shm; zero_shm]
  /\ Forall (fun ev => ev = EvLoad TB 0 FReady 0 \/ ev = EvUsleep)
       (local_run (sample_env 0) (Worker (mkWorker W129 106 0 0 0 0 0))
          [zero_shm; zero_shm; zero_shm]).
Proof.
  apply (poll_waits_while_unready (sample_env 0)
           (Worker (mkWorker W129 106 0 0 0 0 0)) TB 0
           [zero_shm; zero_shm; zero_shm]).
  - reflexivity.
  - repeat constructor.
Defined.

(** ** Invariants of the processes of a run *)

Section ProcessInvariant.

Variable e : os_env.
Variable P : Z -> code -> Prop.
Variable Q : Z * event -> Prop.

Hypothesis step_keeps : forall pid c m ev c',
  P pid c -> code_step e c m = Some (ev, c') -> P pid c' /\ Q (pid, ev).
Hypothesis child_starts : forall p r pid, P pid (pr_code (child_of p r pid)).

Lemma run_process_invariant (sched : list Z) :
  forall s tr s',
    (forall pid p, procs s !! pid = Some p -> P pid (pr_code p)) ->
    run e sched s = Some (tr, s') ->
    Forall Q tr.
Proof.
  induction sched as [|pid sched IH]; intros s tr s' Hall Hrun.
  - injection Hrun as <- <-. constructor.
  - apply run_cons_inv in Hrun as (ev & s1 & tr' & Hstep & Hrun & ->).
    apply sys_step_inv in Hstep as (p & c' & Hp & Hcode & _ & ->).
    destruct (step_keeps pid _ _ _ _ (Hall pid p Hp) Hcode) as [Hc' Hq].
    constructor; [exact Hq|].
    refine (IH _ _ _ _ Hrun). clear IH Hrun.
    intros k q. cbn [procs].
    assert (HX : forall k q, <[pid := proc_after ev p c']> (procs s) !! k = Some q ->
                             P k (pr_code q)).
    { intros k0 q0 Hq0. apply lookup_insert_Some in Hq0 as [[<- <-]|[_ Hq0]].
      - now rewrite pr_code_proc_after.
      - exact (Hall k0 q0 Hq0). }
    destruct ev; simpl; try apply HX.
    intros Hk. apply lookup_insert_Some in Hk as [[<- <-]|[_ Hk]].
    + apply child_starts.
    + exact (HX k q Hk).
Qed.

End ProcessInvariant.

Lemma code_inv_step (e : os_env) (pid : Z) (c c' : code) (m : shm) (ev : event) :
  code_inv e pid c ->
  code_step e c m = Some (ev, c') ->
  code_inv e pid c'
  /\ (clean_output (pid, ev) /\ (rand_nonneg e -> sentinel_from_main e (pid, ev))).
Proof.
  unfold clean_output, sentinel_from_main. cbn [fst snd].
  destruct c as [st|st|st|st]; cbn [code_step code_inv].
  - unfold producer_step. intros _.
    destruct (p_pc st); cbn; intros Hs; try discriminate;
      injection Hs as <- <-; cbn; repeat split; try exact I; try reflexivity.
    intros Hrand Hv.
    pose proof (payload_of_range _ (Hrand (p_seed st) (p_calls st))). lia.
  - unfold worker_step.
    destruct (w_pc st) eqn:Hpc; cbn; intros Hinv Hs; try discriminate;
      injection Hs as <- <-; cbn; rewrite ?Hpc;
      try (destruct (_ =? _) eqn:Hd; [|apply Z.eqb_neq in Hd]);
      cbn; repeat split; try exact I; try reflexivity; try assumption;
      try (intros _ Hv; contradiction).
  - unfold logger_step.
    destruct (l_pc st) eqn:Hpc; cbn; intros Hinv Hs; try discriminate;
      injection Hs as <- <-; cbn; rewrite ?Hpc;
      try (destruct (_ =? _) eqn:Hd; [|apply Z.eqb_neq in Hd]);
      cbn; repeat split; try exact I; try reflexivity; try assumption.
  - unfold main_step.
    destruct (m_pc st) eqn:Hpc; cbn; intros Hinv Hs; try discriminate;
      injection Hs as <- <-; cbn; repeat split; try exact I; try reflexivity;
      try assumption; try (intros _ _; assumption).
Qed.

Lemma code_inv_child (e : os_env) (p : proc) (r : role) (pid : Z) :
  code_inv e pid (pr_code (child_of p r pid)).
Proof. destruct r; exact I. Qed.

Lemma code_inv_init (e : os_env) (pid : Z) (p : proc) :
  procs (init_sys e) !! pid = Some p -> code_inv e pid (pr_code p).
Proof.
  unfold init_sys. cbn [procs]. intros Hp.
  apply lookup_singleton_Some in Hp as [<- <-]. reflexivity.
Qed.

Lemma run_clean (e : os_env) (sched : list Z) (tr : list (Z * event)) (s : sys) :
  run e sched (init_sys e) = Some (tr, s) ->
  Forall (fun x => clean_output x /\ (rand_nonneg e -> sentinel_from_main e x)) tr.
Proof.
  apply (run_process_invariant e (code_inv e)).
  - intros pid c m ev c'. apply code_inv_step.
  - apply code_inv_child.
  - apply code_inv_init.
Qed.

(** X10.  In every run of the system, every line printed goes to the
    standard output and carries a payload other than the sentinel -1, and
    every process that exits does so with status 0. *)
Theorem run_output_clean (e : os_env) (sched : list Z) (tr : list (Z * event))
    (s : sys) :
  run e sched (init_sys e) = Some (tr, s) ->
  Forall clean_output tr.
Proof.
  intros Hrun. eapply Forall_impl; [exact (run_clean e sched tr s Hrun)|].
  intros x [Hc _]. exact Hc.
Qed.

Lemma run_output_clean_witness : Forall clean_output sample_pipeline_trace.
Proof.
  eapply (run_output_clean (sample_env 0) sample_pipeline_schedule).
  vm_compute. reflexivity.
Defined.

(** X11.  When [rand()] is never negative, every store of the sentinel -1
    into a payload field, in any run, is made by the orchestrator: no
    producer and no worker ever writes the sentinel into a buffer. *)
Theorem run_sentinel_from_main (e : os_env) (sched : list Z)
    (tr : list (Z * event)) (s : sys) :
  rand_nonneg e ->
  run e sched (init_sys e) = Some (tr, s) ->
  Forall (sentinel_from_main e) tr.
Proof.
  intros Hrand Hrun. eapply Forall_impl; [exact (run_clean e sched tr s Hrun)|].
  intros x [_ Hs]. exact (Hs Hrand).
Qed.

Lemma run_sentinel_from_main_witness :
  Forall (sentinel_from_main (sample_env 0)) sample_pipeline_trace.
Proof.
  eapply (run_sentinel_from_main (sample_env 0) sample_pipeline_schedule).
  - apply weyl_nonneg.
  - vm_compute. reflexivity.
Defined.

(** ** Setup failure within the system *)

Lemma clean_output_quiet (x : Z * event) : clean_output x -> quiet x.
Proof.
  unfold clean_output, quiet. destruct x as [q ev]. cbn [snd].
  destruct ev; try (intros _; split; reflexivity).
  - intros [-> _]. split; reflexivity.
  - intros ->. split; reflexivity.
Qed.

Lemma run_quiet (e : os_env) (sched : list Z) (tr : list (Z * event)) (s : sys) :
  run e sched (init_sys e) = Some (tr, s) -> Forall quiet tr.
Proof.
  intros Hrun. eapply Forall_impl; [exact (run_clean e sched tr s Hrun)|].
  intros x [Hc _]. now apply clean_output_quiet.
Qed.

(** A step of the system during the setup is the orchestrator's next setup
    call; [sem_init] on a buffer needs its mapping. *)
Lemma setup_step (e : os_env) (k : nat) (q : Z) (s s1 : sys) (ev : event) :
  (k < 6)%nat ->
  in_setup e k s ->
  sys_step e q s = Some (ev, s1) ->
  q = os_pid e
  /\ is_fork (q, ev) = false
  /\ in_setup e (S k) s1
  /\ ((2 <= k < 4)%nat -> os_mmap e 0 = true)
  /\ ((4 <= k)%nat -> os_mmap e 1 = true).
Proof.
  intros Hk Hin Hstep.
  apply sys_step_inv in Hstep as (p & c' & Hp & Hcode & Hen & ->).
  rewrite Hin in Hp. apply lookup_singleton_Some in Hp as [<- <-].
  unfold in_setup. cbn [procs]. rewrite Hin.
  do 6 (destruct k as [|k];
        [cbn in Hcode; injection Hcode as <- <-; cbn in Hen |- *;
         rewrite insert_singleton_eq;
         repeat split; try reflexivity; try lia;
         try (intros _; rewrite ?andb_true_l in Hen; exact Hen)|]).
  lia.
Qed.

Lemma failed_mmap_stops (e : os_env) (sched : list Z) :
  os_mmap e 0 = false \/ os_mmap e 1 = false ->
  forall k s tr s',
    (k <= 4)%nat ->
    ((3 <= k)%nat -> os_mmap e 0 = true) ->
    in_setup e k s ->
    run e sched s = Some (tr, s') ->
    (length tr + k <= 4)%nat /\ Forall (fun x => is_fork x = false) tr.
Proof.
  intros Hfail. induction sched as [|q sched IH]; intros k s tr s' Hk H0 Hin Hrun.
  - injection Hrun as <- <-. split; [simpl; lia|constructor].
  - apply run_cons_inv in Hrun as (ev & s1 & tr' & Hstep & Hrun & ->).
    destruct (setup_step e k q s s1 ev ltac:(lia) Hin Hstep)
      as (-> & Hnf & Hin1 & Ha & Hb).
    destruct (decide (k = 4%nat)) as [->|Hk4].
    { rewrite H0, Hb in Hfail by lia. destruct Hfail; discriminate. }
    destruct (IH (S k) s1 tr' s') as [Hlen Hall]; try assumption; try lia.
    + intros H3. destruct (decide (k = 2%nat)) as [->|]; [apply Ha; lia|apply H0; lia].
    + split; [simpl; lia|]. constructor; assumption.
Qed.

(** A step of the orchestrator that needs nothing of the memory, followed
    by a run from wherever it leads. *)
Lemma main_chain_step (e : os_env) (sched : list Z) (tr : list (Z * event))
    (p : proc) (ev : event) (c' : code) :
  (forall m, code_step e (pr_code p) m = Some (ev, c')) ->
  (forall s, enabled ev p s = true) ->
  (forall r child, ev = EvFork r child -> child <> os_pid e) ->
  (forall s1, procs s1 !! os_pid e = Some (proc_after ev p c') ->
              exists s2, run e sched s1 = Some (tr, s2)) ->
  forall s, procs s !! os_pid e = Some p ->
            exists s2, run e (os_pid e :: sched) s
                       = Some ((os_pid e, ev) :: tr, s2).
Proof.
  intros Hcode Hen Hchild Hrest s Hp.
  destruct (Hrest (mkSys (mem_apply ev (mem s))
                     (spawn ev p (<[os_pid e := proc_after ev p c']> (procs s)))))
    as [s2 Hrun].
  { cbn [procs]. destruct ev; cbn [spawn]; try apply lookup_insert_eq.
    rewrite lookup_insert_ne by (apply (Hchild r child); reflexivity).
    apply lookup_insert_eq. }
  exists s2. cbn [run]. unfold sys_step. now rewrite Hp, Hcode, Hen, Hrun.
Qed.

(** With both mappings in place the orchestrator goes through its setup
    and forks every child, whatever [sem_init] returns. *)
Lemma setup_and_spawn_run (e : os_env) :
  os_mmap e 0 = true -> os_mmap e 1 = true ->
  (forall k, os_fork e k <> os_pid e) ->
  exists s,
    run e (replicate 23 (os_pid e)) (init_sys e)
    = Some ((fun ev => (os_pid e, ev)) <$> (setup_calls e ++ spawn_calls e), s).
Proof.
  intros Hm0 Hm1 Hfork.
  assert (Hgo : forall s,
             procs s !! os_pid e
             = Some (mkProc false false (Main (main_init (os_pid e)))) ->
             exists s2,
               run e (replicate 23 (os_pid e)) s
               = Some ((fun ev => (os_pid e, ev))
                         <$> (setup_calls e ++ spawn_calls e), s2)).
  { unfold setup_calls.
    cbn [replicate fmap list_fmap app spawn_calls producer_pids worker_pids
           logger_pids seq PRODUCERS WORKERS LOGGERS Nat.add].
    do 23 (eapply main_chain_step;
           [intros m; cbv -[os_mmap os_fork os_pid os_sem_init]; reflexivity
           |intros s0; cbn [enabled has_buf pr_tb pr_lb];
            rewrite ?Hm0, ?Hm1; reflexivity
           |intros r child Hev;
            first [discriminate Hev | injection Hev as _ <-; apply Hfork]
           |match goal with
            | |- forall s1, _ = Some ?P -> _ =>
                let P' := eval cbv -[os_mmap os_fork os_pid os_sem_init] in P in
                change P with P'
            end]).
    intros s1 _. eexists. reflexivity. }
  apply Hgo. unfold init_sys. cbn [procs]. apply lookup_singleton_eq.
Qed.



(** With the log buffer unmapped the orchestrator has no fifth step; with
    both buffers unmapped it has no third. *)
Example stuck_after_failed_mmap :
  run lb_unmapped_env (replicate 5 100) (init_sys lb_unmapped_env) = None
  /\ fst <$> run unmapped_env (replicate 2 100) (init_sys unmapped_env)
     = Some [(100, EvMmap TB false); (100, EvMmap LB false)]
  /\ run unmapped_env (replicate 3 100) (init_sys unmapped_env) = None.
Proof. repeat split; vm_compute; reflexivity. Qed.

(** ** The orchestrator's children and sentinels *)

(** X9.  The orchestrator, run to its end, forks
    [PRODUCERS + WORKERS + LOGGERS] children, waits for exactly the pids
    that [fork] returned, in the order it forked them, and stores one
    sentinel per worker into the task buffer and one per logger into the
    log buffer. *)
Theorem main_waits_for_its_children (e : os_env) (views : list shm) :
  (127 <= length views)%nat ->
  let tr := local_run e (main_code e) views in
  forked tr = os_fork e <$> seq 0 (PRODUCERS + WORKERS + LOGGERS)
  /\ waited tr = forked tr
  /\ length (sentinel_stores TB tr) = WORKERS
  /\ length (sentinel_stores LB tr) = LOGGERS.
Proof.
  intros Hlen tr. subst tr. rewrite main_local_run.
  rewrite take_ge by (rewrite main_trace_length; lia).
  repeat split; reflexivity.
Qed.

Lemma main_waits_for_its_children_witness :
  let tr := local_run (sample_env 0) (main_code (sample_env 0))
              (replicate 127 zero_shm) in
  forked tr = os_fork (sample_env 0) <$> seq 0 (PRODUCERS + WORKERS + LOGGERS)
  /\ waited tr = forked tr
  /\ length (sentinel_stores TB tr) = WORKERS
  /\ length (sentinel_stores LB tr) = LOGGERS.
Proof.
  apply (main_waits_for_its_children (sample_env 0) (replicate 127 zero_shm)).
  rewrite length_replicate. lia.
Defined.

(** X8.  When the first [rand()] of a producer is not negative, the task
    size it draws on line 88 lies between [MIN_TASK_SIZE] and
    [MIN_TASK_SIZE + MAX_TASK_SIZE - 1]. *)
Theorem producer_taskSize_bounds (e : os_env) (pid : Z) (views : list shm) :
  0 <= os_rand e (to_uint (os_time e pid)) 0 ->
  (2 <= length views)%nat ->
  MIN_TASK_SIZE
  <= taskSize_in (local_end e (Producer (producer_init pid)) views)
  <= MIN_TASK_SIZE + MAX_TASK_SIZE - 1.
Proof.
  intros Hr Hlen. rewrite producer_taskSize_drawn by exact Hlen.
  now apply taskSize_of_range.
Qed.

Lemma producer_taskSize_bounds_witness :
  MIN_TASK_SIZE
  <= taskSize_in (local_end (sample_env 0) (Producer (producer_init 101))
                    [zero_shm; zero_shm])
  <= MIN_TASK_SIZE + MAX_TASK_SIZE - 1.
Proof.
  apply (producer_taskSize_bounds (sample_env 0) 101 [zero_shm; zero_shm]).
  - vm_compute. congruence.
  - simpl. lia.
Defined.

(** ** One item through the pipeline *)

Lemma run_app (e : os_env) (sched1 sched2 : list Z) :
  forall s tr1 s1 tr2 s2,
    run e sched1 s = Some (tr1, s1) ->
    run e sched2 s1 = Some (tr2, s2) ->
    run e (sched1 ++ sched2) s = Some (tr1 ++ tr2, s2).
Proof.
  induction sched1 as [|pid sched1 IH]; intros s tr1 s1 tr2 s2 H1 H2.
  - injection H1 as <- <-. exact H2.
  - apply run_cons_inv in H1 as (ev & s' & tr' & Hstep & Hrun & ->).
    simpl. rewrite Hstep, (IH _ _ _ _ _ Hrun H2). reflexivity.
Qed.

Lemma solo_enabled_enabled (ev : event) (p : proc) (s : sys) :
  solo_enabled ev p (mem s) = true ->
  enabled ev p s = true /\ forall ps, spawn ev p ps = ps.
Proof. destruct ev; simpl; intros H; try discriminate; now split. Qed.

(** A solo run is a run of the system under the schedule that moves this
    process only. *)
Lemma run_solo (e : os_env) (pid : Z) (n : nat) :
  forall p m ps evs p' m',
    solo e n p m = Some (evs, p', m') ->
    ps !! pid = Some p ->
    run e (replicate n pid) (mkSys m ps)
    = Some ((fun ev => (pid, ev)) <$> evs, mkSys m' (<[pid := p']> ps)).
Proof.
  induction n as [|n IH]; intros p m ps evs p' m' Hsolo Hp.
  - injection Hsolo as <- <- <-. simpl. now rewrite insert_id.
  - simpl in Hsolo.
    destruct (code_step e (pr_code p) m) as [[ev c']|] eqn:Hcode; [|discriminate].
    destruct (solo_enabled ev p m) eqn:Hen; [|discriminate].
    destruct (solo e n (proc_after ev p c') (mem_apply ev m))
      as [[[evs1 p1] m1]|] eqn:Hrest; [|discriminate].
    injection Hsolo as <- <- <-.
    destruct (solo_enabled_enabled ev p (mkSys m ps) Hen) as [Hen' Hspawn].
    cbn [replicate run]. unfold sys_step. cbn [procs mem].
    rewrite Hp, Hcode, Hen', Hspawn.
    rewrite (IH _ _ _ _ _ _ Hrest (lookup_insert_eq _ _ _)).
    now rewrite insert_insert_eq.
Qed.

Lemma solo_producer_iteration (e : os_env) (self seed : Z) (calls : nat)
    (ts i prevIn : Z) (tbuf : list TaskEntity) (tin tout tfull tempty : Z)
    (lbm : LogBuffer) :
  0 < tempty ->
  let slot := slot_of tin in
  let d := payload_of (os_rand e seed calls) in
  solo e 7 (mkProc true true (Producer (mkProducer P92 self seed calls ts i prevIn)))
    (mkShm (mkTaskBuffer tbuf tin tout tfull tempty) lbm)
  = Some ([EvSemWait TB SEmpty; EvFetchAdd TB CIn tin;
           EvStore TB slot FProducerPid self; EvStore TB slot FData d;
           EvBarrier; EvStore TB slot FReady 1; EvSemPost TB SFull],
          mkProc true true
            (Producer (mkProducer (if to_ull (i + 1) <? ts then P92 else P204)
                         self seed (S calls) ts (to_ull (i + 1)) tin)),
          mkShm
            (mkTaskBuffer
               (alter (te_set FReady 1) (Z.to_nat slot)
                  (alter (te_set FData d) (Z.to_nat slot)
                     (alter (te_set FProducerPid self) (Z.to_nat slot) tbuf)))
               (to_ull (tin + 1)) tout (tfull + 1) (tempty - 1))
            lbm).
Proof.
  intros Hempty slot d. apply Z.ltb_lt in Hempty.
  cbn. rewrite Hempty. reflexivity.
Qed.

Lemma solo_worker_iteration (e : os_env) (self prevOut0 d0 wp0 pp0 pi0 : Z)
    (tbuf : list TaskEntity) (tin tout tfull tempty : Z)
    (lbuf : list LogEntity) (lin lout lfull lempty : Z) (t : TaskEntity) :
  0 < tfull -> 0 < lempty ->
  tbuf !! Z.to_nat (slot_of tout) = Some t ->
  te_ready t <> 0 -> te_data t <> -1 ->
  let slot := slot_of tout in
  let lslot := slot_of lin in
  let d := te_data t in
  let pp := te_producerPid t in
  solo e 17 (mkProc true true (Worker (mkWorker W124 self prevOut0 d0 wp0 pp0 pi0)))
    (mkShm (mkTaskBuffer tbuf tin tout tfull tempty)
       (mkLogBuffer lbuf lin lout lfull lempty))
  = Some ([EvSemWait TB SFull; EvFetchAdd TB COut tout;
           EvLoad TB slot FReady (te_ready t)]
          ++ consume_events slot d pp ++ forward_events self d pp lin,
          mkProc true true (Worker (mkWorker W124 self tout d self pp lin)),
          mkShm
            (mkTaskBuffer (alter (te_set FReady 0) (Z.to_nat slot) tbuf)
               tin (to_ull (tout + 1)) (tfull - 1) (tempty + 1))
            (mkLogBuffer
               (alter (le_set FReady 1) (Z.to_nat lslot)
                  (alter (le_set FWorkerPid self) (Z.to_nat lslot)
                     (alter (le_set FProducerPid pp) (Z.to_nat lslot)
                        (alter (le_set FData d) (Z.to_nat lslot) lbuf))))
               (to_ull (lin + 1)) lout (lfull + 1) (lempty - 1))).
Proof.
  intros Hfull Hempty Ht Hready Hdata slot lslot d pp.
  apply Z.ltb_lt in Hfull, Hempty. apply Z.eqb_neq in Hready, Hdata.
  cbn. rewrite Hfull. cbn. rewrite Ht. cbn. rewrite Hready. cbn.
  rewrite Ht. cbn. rewrite Hdata. cbn. rewrite Hempty. reflexivity.
Qed.

Lemma solo_logger_iteration (e : os_env) (self prevOut0 d0 w0 pp0 : Z)
    (tbm : TaskBuffer) (lbuf : list LogEntity) (lin lout lfull lempty : Z)
    (l : LogEntity) :
  0 < lfull ->
  lbuf !! Z.to_nat (slot_of lout) = Some l ->
  le_ready l <> 0 -> le_data l <> -1 ->
  let slot := slot_of lout in
  solo e 10 (mkProc true true (Logger (mkLogger L162 self prevOut0 d0 w0 pp0)))
    (mkShm tbm (mkLogBuffer lbuf lin lout lfull lempty))
  = Some ([EvSemWait LB SFull; EvFetchAdd LB COut lout;
           EvLoad LB slot FReady (le_ready l)]
          ++ log_consume_events slot (le_data l) (le_workerPid l) (le_producerPid l)
          ++ [EvWrite STDOUT (le_workerPid l) (le_data l) (le_producerPid l)],
          mkProc true true
            (Logger (mkLogger L162 self lout (le_data l) (le_workerPid l)
                       (le_producerPid l))),
          mkShm tbm
            (mkLogBuffer (alter (le_set FReady 0) (Z.to_nat slot) lbuf)
               lin (to_ull (lout + 1)) (lfull - 1) (lempty + 1))).
Proof.
  intros Hfull Hl Hready Hdata slot.
  apply Z.ltb_lt in Hfull. apply Z.eqb_neq in Hready, Hdata.
  cbn. rewrite Hfull. cbn. rewrite Hl. cbn. rewrite Hready. cbn.
  rewrite Hl. cbn. rewrite Hdata. reflexivity.
Qed.

Lemma slot_in_range (c : Z) (n : nat) :
  Z.of_nat n = BUFFER_SIZE -> (Z.to_nat (slot_of c) < n)%nat.
Proof.
  unfold slot_of. intros Hn.
  pose proof (Z.mod_pos_bound c BUFFER_SIZE eq_refl). lia.
Qed.

(** X12.  One item through the pipeline.  From any state in which the
    buffers have no claimed slot pending ([out = in]), a free slot is
    available in each, and a producer, a worker and a logger stand at the
    head of their loops, the producer's iteration followed by the worker's
    and by the logger's goes through without blocking and ends with the
    logger's line: the worker's pid, the payload the producer drew, and the
    producer's pid.  Afterwards every semaphore has its former count, each
    of the four cursors has advanced by one, and the [ready] flag of both
    slots used is 0 again. *)
Theorem pipeline_round_trip (e : os_env) (s : sys) (kp kw kl : Z)
    (selfp seed : Z) (calls : nat) (ts i prevIn : Z)
    (selfw wo wd ww wpp wi : Z) (selfl lo ld lw lpp : Z) :
  procs s !! kp
  = Some (mkProc true true (Producer (mkProducer P92 selfp seed calls ts i prevIn))) ->
  procs s !! kw
  = Some (mkProc true true (Worker (mkWorker W124 selfw wo wd ww wpp wi))) ->
  procs s !! kl
  = Some (mkProc true true (Logger (mkLogger L162 selfl lo ld lw lpp))) ->
  kp <> kw -> kp <> kl -> kw <> kl ->
  Z.of_nat (length (tb_buffer (tb (mem s)))) = BUFFER_SIZE ->
  Z.of_nat (length (lb_buffer (lb (mem s)))) = BUFFER_SIZE ->
  tb_out (tb (mem s)) = tb_in (tb (mem s)) ->
  lb_out (lb (mem s)) = lb_in (lb (mem s)) ->
  0 < tb_empty (tb (mem s)) -> 0 <= tb_full (tb (mem s)) ->
  0 < lb_empty (lb (mem s)) -> 0 <= lb_full (lb (mem s)) ->
  payload_of (os_rand e seed calls) <> -1 ->
  exists tr s',
    run e (pipeline_schedule kp kw kl) s = Some (tr, s')
    /\ last tr
       = Some (kl, EvWrite STDOUT selfw (payload_of (os_rand e seed calls)) selfp)
    /\ (forall b sm, get_sem (mem s') b sm = get_sem (mem s) b sm)
    /\ (forall b cu, get_cursor (mem s') b cu = to_ull (get_cursor (mem s) b cu + 1))
    /\ load (mem s') TB (slot_of (tb_in (tb (mem s)))) FReady = 0
    /\ load (mem s') LB (slot_of (lb_in (lb (mem s)))) FReady = 0.
Proof.
  destruct s as [[[tbuf tin tout tfull tempty] [lbuf lin lout lfull lempty]] ps].
  cbn [mem procs tb lb tb_buffer lb_buffer tb_in tb_out tb_full tb_empty
         lb_in lb_out lb_full lb_empty].
  intros Hp Hw Hl Hpw Hpl Hwl Htlen Hllen -> -> Hte Htf Hle Hlf Hd.
  set (d := payload_of (os_rand e seed calls)) in *.
  destruct (lookup_lt_is_Some_2 tbuf _ (slot_in_range tin _ Htlen)) as [t0 Ht0].
  destruct (lookup_lt_is_Some_2 lbuf _ (slot_in_range lin _ Hllen)) as [l0 Hl0].
  pose proof (solo_producer_iteration e selfp seed calls ts i prevIn tbuf tin tin
                tfull tempty (mkLogBuffer lbuf lin lin lfull lempty) Hte) as Hsp.
  cbn zeta in Hsp. fold d in Hsp.
  pose proof (run_solo e kp 7 _ _ ps _ _ _ Hsp Hp) as Hr1.
  set (tbuf1 := alter (te_set FReady 1) (Z.to_nat (slot_of tin))
                  (alter (te_set FData d) (Z.to_nat (slot_of tin))
                     (alter (te_set FProducerPid selfp) (Z.to_nat (slot_of tin)) tbuf)))
    in *.
  assert (Ht1 : tbuf1 !! Z.to_nat (slot_of tin)
                = Some (mkTaskEntity selfp d 1)).
  { unfold tbuf1. rewrite !list_lookup_alter_eq, Ht0. reflexivity. }
  pose proof (solo_worker_iteration e selfw wo wd ww wpp wi tbuf1 (to_ull (tin + 1))
                tin (tfull + 1) (tempty - 1) lbuf lin lin lfull lempty _
                ltac:(lia) Hle Ht1 ltac:(discriminate) Hd) as Hsw.
  cbn zeta in Hsw. cbn [te_data te_producerPid te_ready] in Hsw.
  set (ps1 := <[kp := _]> ps) in Hr1.
  assert (Hw1 : ps1 !! kw
                = Some (mkProc true true (Worker (mkWorker W124 selfw wo wd ww wpp wi)))).
  { unfold ps1. now rewrite lookup_insert_ne. }
  pose proof (run_solo e kw 17 _ _ ps1 _ _ _ Hsw Hw1) as Hr2.
  set (lbuf2 := alter (le_set FReady 1) (Z.to_nat (slot_of lin)) _) in *.
  assert (Hl2 : lbuf2 !! Z.to_nat (slot_of lin)
                = Some (mkLogEntity selfw selfp d 1)).
  { unfold lbuf2. rewrite !list_lookup_alter_eq, Hl0. reflexivity. }
  pose proof (solo_logger_iteration e selfl lo ld lw lpp
                (mkTaskBuffer (alter (te_set FReady 0) (Z.to_nat (slot_of tin)) tbuf1)
                   (to_ull (tin + 1)) (to_ull (tin + 1)) (tfull + 1 - 1)
                   (tempty - 1 + 1))
                lbuf2 (to_ull (lin + 1)) lin (lfull + 1) (lempty - 1) _
                ltac:(lia) Hl2 ltac:(discriminate) Hd) as Hsl.
  cbn zeta in Hsl. cbn [le_data le_workerPid le_producerPid le_ready] in Hsl.
  set (ps2 := <[kw := _]> ps1) in Hr2.
  assert (Hl3 : ps2 !! kl
                = Some (mkProc true true (Logger (mkLogger L162 selfl lo ld lw lpp)))).
  { unfold ps2, ps1. now rewrite !lookup_insert_ne. }
  pose proof (run_solo e kl 10 _ _ ps2 _ _ _ Hsl Hl3) as Hr3.
  pose proof (run_app e _ _ _ _ _ _ _ Hr2 Hr3) as Hr23.
  pose proof (run_app e _ _ _ _ _ _ _ Hr1 Hr23) as Hr.
  eexists _, _. split; [exact Hr|].
  split; [reflexivity|].
  split; [intros [] []; cbn; lia|].
  split; [intros [] []; reflexivity|].
  split; cbn.
  - rewrite list_lookup_alter_eq, Ht1. reflexivity.
  - rewrite list_lookup_alter_eq, Hl2. reflexivity.
Qed.

Lemma pipeline_round_trip_witness :
  exists tr s',
    run (sample_env 0) (pipeline_schedule 101 106 116) spawned_state
    = Some (tr, s')
    /\ last tr
       = Some (116, EvWrite STDOUT 106
                      (payload_of (os_rand (sample_env 0) 0 1)) 101)
    /\ (forall b sm,
          get_sem (mem s') b sm = get_sem (mem spawned_state) b sm)
    /\ (forall b cu,
          get_cursor (mem s') b cu
          = to_ull (get_cursor (mem spawned_state) b cu + 1))
    /\ load (mem s') TB (slot_of (tb_in (tb (mem spawned_state)))) FReady = 0
    /\ load (mem s') LB (slot_of (lb_in (lb (mem spawned_state)))) FReady = 0.
Proof.
  apply (pipeline_round_trip (sample_env 0) spawned_state 101 106 116
           101 0 1 (taskSize_of (weyl 0 0)) 0 0
           106 0 0 0 0 0
           116 0 0 0 0);
    try (vm_compute; reflexivity); try (vm_compute; congruence).
Defined.

(** ** The orchestrator within the system *)

Lemma main_events_in_run_witness :
  exists views,
    events_of (os_pid (sample_env 0)) sample_pipeline_trace
    = take (length views)
        (main_trace (sample_env 0) (tin_of views) (lin_of views)).
Proof.
  apply (main_events_in_run (sample_env 0) sample_pipeline_schedule
           sample_pipeline_trace sample_pipeline_state).
  - intros k. simpl. lia.
  - vm_compute. reflexivity.
Defined.

(** * The shells *)

(** ** Strings *)

Lemma str_eqb_eq (a b : str) : str_eqb a b = true <-> a = b.
Proof.
  revert b. induction a as [|x a IH]; intros [|y b]; simpl; try easy.
  rewrite andb_true_iff, Ascii.eqb_eq, IH. split.
  - now intros [-> ->].
  - intros H. now injection H.
Qed.

Lemma str_eqb_refl (a : str) : str_eqb a a = true.
Proof. now apply str_eqb_eq. Qed.

Lemma str_eqb_neq (a b : str) : a <> b -> str_eqb a b = false.
Proof.
  intros H. destruct (str_eqb a b) eqn:E; [|reflexivity].
  now apply str_eqb_eq in E.
Qed.

Lemma is_delim_space (c : ascii) : is_delim SPACE c = false <-> c <> " "%char.
Proof.
  unfold is_delim, SPACE. simpl. rewrite orb_false_r. apply Ascii.eqb_neq.
Qed.

Lemma shell_word_word (w : str) : shell_word w -> word SPACE w.
Proof.
  intros [Hne Hall]. split; [exact Hne|].
  eapply Forall_impl; [exact Hall|]. intros c [Hc _]. now apply is_delim_space.
Qed.

(** ** [strtok] *)

Lemma skip_delims_word (delim w s : str) :
  word delim w -> skip_delims delim (w ++ s) = w ++ s.
Proof.
  intros [Hne Hall]. destruct w as [|c w]; [contradiction|].
  apply Forall_cons in Hall as [Hc _]. simpl. now rewrite Hc.
Qed.

Lemma token_end_app (delim w s : str) :
  Forall (fun c => is_delim delim c = false) w ->
  token_end delim (w ++ s) = (w ++ (token_end delim s).1, (token_end delim s).2).
Proof.
  induction 1 as [|c w Hc _ IH]; simpl.
  - now destruct (token_end delim s).
  - rewrite Hc, IH. reflexivity.
Qed.

Lemma strtok_unfold (delim s : str) :
  s <> [] -> skip_delims delim s = s ->
  strtok delim s = (Some (token_end delim s).1, (token_end delim s).2).
Proof.
  intros Hne Hskip. unfold strtok. rewrite Hskip.
  destruct s as [|c s]; [contradiction|].
  now destruct (token_end delim (c :: s)).
Qed.

Lemma strtok_word_end (delim w : str) :
  word delim w -> strtok delim w = (Some w, []).
Proof.
  intros Hw. pose proof (skip_delims_word delim w [] Hw) as Hskip.
  pose proof (token_end_app delim w [] (proj2 Hw)) as Ht.
  rewrite app_nil_r in Hskip, Ht. simpl in Ht. rewrite app_nil_r in Ht.
  rewrite strtok_unfold, Ht; [reflexivity|apply Hw|exact Hskip].
Qed.

Lemma strtok_word_delim (delim w s : str) (d : ascii) :
  word delim w -> is_delim delim d = true ->
  strtok delim (w ++ d :: s) = (Some w, s).
Proof.
  intros Hw Hd.
  pose proof (token_end_app delim w (d :: s) (proj2 Hw)) as Ht.
  simpl in Ht. rewrite Hd in Ht. simpl in Ht. rewrite app_nil_r in Ht.
  rewrite strtok_unfold, Ht; [reflexivity| |now apply skip_delims_word].
  destruct w; discriminate.
Qed.

Lemma strtok_blank (delim s : str) :
  Forall (fun c => is_delim delim c = true) s -> strtok delim s = (None, []).
Proof.
  intros Hs. unfold strtok.
  assert (skip_delims delim s = []) as ->; [|reflexivity].
  induction Hs as [|c s Hc _ IH]; simpl; [reflexivity|]. now rewrite Hc.
Qed.

Lemma skip_delims_length (delim s : str) :
  (length (skip_delims delim s) <= length s)%nat.
Proof.
  induction s as [|c s IH]; simpl; [lia|].
  destruct (is_delim delim c); simpl; lia.
Qed.

Lemma skip_delims_head (delim s : str) (c : ascii) (s' : str) :
  skip_delims delim s = c :: s' -> is_delim delim c = false.
Proof.
  induction s as [|x s IH]; simpl; [discriminate|].
  destruct (is_delim delim x) eqn:Hx; [exact IH|].
  intros H. injection H as <- _. exact Hx.
Qed.

Lemma token_end_spec (delim s : str) :
  Forall (fun c => is_delim delim c = false) (token_end delim s).1
  /\ ((length (token_end delim s).1 + 1 + length (token_end delim s).2
       <= length s)%nat
      \/ (token_end delim s).2 = []
         /\ (length (token_end delim s).1 <= length s)%nat).
Proof.
  induction s as [|c s (IHw & IHl)]; simpl.
  - split; [constructor|]. right. split; [reflexivity|lia].
  - destruct (is_delim delim c) eqn:Hc; simpl.
    + split; [constructor|]. left. lia.
    + destruct (token_end delim s) as [t r]. simpl in *.
      split; [now constructor|]. destruct IHl as [IHl|[-> IHl]]; [left|right].
      * lia.
      * split; [reflexivity|lia].
Qed.

(** Every token [strtok] returns is a word, and it leaves less to scan
    than it was given. *)
Lemma strtok_some (delim s t r : str) :
  strtok delim s = (Some t, r) ->
  word delim t
  /\ ((length t + 1 + length r <= length s)%nat
      \/ r = [] /\ (length t <= length s)%nat).
Proof.
  unfold strtok. pose proof (skip_delims_length delim s) as Hlen.
  destruct (skip_delims delim s) as [|c s'] eqn:Hskip; [discriminate|].
  pose proof (skip_delims_head delim s c s' Hskip) as Hc.
  pose proof (token_end_spec delim (c :: s')) as (Hw & Hl).
  destruct (token_end delim (c :: s')) as [t' r'] eqn:Hte.
  intros H. injection H as <- <-. cbn [fst snd length] in Hw, Hl, Hlen.
  split; [split; [|exact Hw]|].
  - simpl in Hte. rewrite Hc in Hte. destruct (token_end delim s').
    injection Hte as <- _. discriminate.
  - destruct Hl as [Hl|[-> Hl]]; [left|right; split; [reflexivity|]]; lia.
Qed.

Lemma strtok_none (delim s r : str) : strtok delim s = (None, r) -> r = [].
Proof.
  unfold strtok. destruct (skip_delims delim s); [now intros [= <-]|].
  destruct (token_end delim _). discriminate.
Qed.

Lemma strtok_join (w : str) (ws : list str) :
  word SPACE w ->
  strtok SPACE (join (w :: ws)) = (Some w, join ws).
Proof.
  intros Hw. destruct ws as [|w' ws].
  - now apply strtok_word_end.
  - change (join (w :: w' :: ws)) with (w ++ " "%char :: join (w' :: ws)).
    now apply strtok_word_delim.
Qed.

(** ** The loop of [getTokens] *)

Lemma tokens_store_in (tokens : list cell) (k : nat) (v : cell) :
  (k < length tokens)%nat ->
  tokens_store tokens (Z.of_nat k) v = Some (<[k := v]> tokens).
Proof.
  intros Hk. unfold tokens_store.
  destruct (0 <=? Z.of_nat k) eqn:H0; [|apply Z.leb_gt in H0; lia].
  destruct (Z.of_nat k <? Z.of_nat (length tokens)) eqn:H1;
    [|apply Z.ltb_ge in H1; lia].
  cbn [andb]. now rewrite Nat2Z.id.
Qed.

Lemma loop_tokens_length (room : nat) (delim : str) :
  forall token saved,
    (length (loop_tokens room delim token saved) <= room)%nat.
Proof.
  induction room as [|room IH]; intros [t|] saved; simpl; try lia.
  destruct (strtok delim saved) as [token' saved'].
  pose proof (IH token' saved'). lia.
Qed.

(** With room for them, the loop stores its tokens from [tokens[k]] on,
    then a null pointer, and returns the index of the null pointer; no
    other cell changes. *)
Lemma getTokens_loop_spec (room : nat) (delim : str) :
  forall token saved (k : nat) tokens,
    (k + room < length tokens)%nat ->
    let ws := loop_tokens room delim token saved in
    getTokens_loop room delim token saved (Z.of_nat k) tokens
    = Some (take k tokens ++ (Ptr <$> ws)
              ++ Null :: drop (S (k + length ws)) tokens,
            Z.of_nat (k + length ws)).
Proof.
  induction room as [|room IH]; intros token saved k tokens Hk ws; subst ws.
  - assert (Hnull : getTokens_loop 0 delim token saved (Z.of_nat k) tokens
                    = Some (<[k := Null]> tokens, Z.of_nat k)).
    { destruct token; simpl; rewrite tokens_store_in by lia; reflexivity. }
    rewrite Hnull, insert_take_drop by lia.
    destruct token; simpl; now rewrite Nat.add_0_r.
  - destruct token as [t|]; simpl.
    + rewrite tokens_store_in by lia.
      destruct (strtok delim saved) as [token' saved'].
      replace (Z.of_nat k + 1) with (Z.of_nat (S k)) by lia.
      rewrite IH by (rewrite length_insert; lia).
      set (ws := loop_tokens room delim token' saved').
      rewrite drop_insert_lt by lia.
      rewrite (take_S_r _ _ (Ptr t)) by (apply list_lookup_insert_eq; lia).
      rewrite take_insert_ge by lia.
      rewrite <- app_assoc. simpl.
      replace (S (k + S (length ws)))%nat with (S (S (k + length ws))) by lia.
      do 2 f_equal. lia.
    + rewrite tokens_store_in, insert_take_drop by lia.
      now rewrite Nat.add_0_r.
Qed.

Lemma argv_of_tokens (ws : list str) (rest : list cell) :
  argv_of ((Ptr <$> ws) ++ Null :: rest) = Some ws.
Proof.
  induction ws as [|w ws IH]; [reflexivity|].
  rewrite fmap_cons. cbn [app argv_of]. now rewrite IH.
Qed.

Lemma strtok_words (delim s : str) (token : option str) (saved : str) (t : str) :
  strtok delim s = (token, saved) -> token = Some t -> word delim t.
Proof. intros Hs ->. exact (proj1 (strtok_some delim s t saved Hs)). Qed.

Lemma loop_tokens_words (room : nat) (delim : str) :
  forall s token saved,
    strtok delim s = (token, saved) ->
    Forall (word delim) (loop_tokens room delim token saved).
Proof.
  induction room as [|room IH]; intros s [t|] saved Hs; simpl;
    try constructor.
  - exact (proj1 (strtok_some delim s t saved Hs)).
  - destruct (strtok delim saved) as [token' saved'] eqn:Hs'.
    exact (IH saved token' saved' Hs').
Qed.

Lemma loop_tokens_join (room : nat) :
  forall ws token saved,
    Forall (word SPACE) ws ->
    strtok SPACE (join ws) = (token, saved) ->
    loop_tokens room SPACE token saved = take room ws.
Proof.
  induction room as [|room IH]; intros ws token saved Hws Hs.
  - now destruct token.
  - destruct ws as [|w ws].
    + simpl in Hs. injection Hs as <- <-. reflexivity.
    + apply Forall_cons in Hws as [Hw Hws].
      rewrite (strtok_join w ws Hw) in Hs. injection Hs as <- <-.
      simpl. f_equal.
      destruct (strtok SPACE (join ws)) as [token' saved'] eqn:Hs'.
      exact (IH ws token' saved' Hws Hs').
Qed.

(** Every token but the last takes its characters and a delimiter. *)
Lemma loop_tokens_bound (room : nat) (delim : str) :
  forall s token saved,
    strtok delim s = (token, saved) ->
    (2 * length (loop_tokens room delim token saved) <= length s + 1)%nat.
Proof.
  induction room as [|room IH]; intros s [t|] saved Hs; simpl; try lia.
  apply strtok_some in Hs as ([Hne _] & Hlen).
  assert (1 <= length t)%nat by (destruct t; [contradiction|simpl; lia]).
  destruct (strtok delim saved) as [token' saved'] eqn:Hs'.
  pose proof (IH saved token' saved' Hs') as Hrest.
  destruct Hlen as [Hlen|[-> Hlen]]; [lia|].
  simpl in Hs'. injection Hs' as <- <-.
  destruct room; simpl; lia.
Qed.

(** ** [getTokens] *)

(** From index 0: the array that results, and the number returned. *)
Lemma getTokens_loop_from_0 (room : nat) (delim : str) (token : option str)
    (saved : str) (tokens : list cell) :
  (room < length tokens)%nat ->
  let ws := loop_tokens room delim token saved in
  getTokens_loop room delim token saved 0 tokens
  = Some ((Ptr <$> ws) ++ Null :: drop (S (length ws)) tokens,
          Z.of_nat (length ws)).
Proof.
  intros Hroom ws.
  exact (getTokens_loop_spec room delim token saved 0 tokens Hroom).
Qed.

Lemma argv_at_0 (ws : list str) (rest : list cell) :
  argv_at ((Ptr <$> ws) ++ Null :: rest) 0 = Some ws.
Proof. unfold argv_at. simpl. apply argv_of_tokens. Qed.

Lemma tokens_shape_length (ws : list str) (tokens : list cell) :
  (length ws < length tokens)%nat ->
  length ((Ptr <$> ws) ++ Null :: drop (S (length ws)) tokens) = length tokens.
Proof.
  intros Hlen. rewrite length_app, length_fmap. simpl.
  rewrite length_drop. lia.
Qed.

Lemma loop_tokens_nonempty (room : nat) (delim : str) (token : option str)
    (saved : str) :
  (forall t, token = Some t -> t <> []) ->
  Forall (fun w => w <> []) (loop_tokens room delim token saved).
Proof.
  intros Hfirst. destruct room as [|room]; destruct token as [t|];
    simpl; try constructor.
  - now apply Hfirst.
  - destruct (strtok delim saved) as [token' saved'] eqn:Hs'.
    eapply Forall_impl; [exact (loop_tokens_words room delim _ _ _ Hs')|].
    intros w [Hne _]. exact Hne.
Qed.

Lemma sample_words : Forall shell_word [LS; DASH_L].
Proof.
  repeat constructor; try discriminate; unfold NUL; discriminate.
Qed.

Lemma sample_space_words : Forall (word SPACE) [LS; DASH_L].
Proof.
  eapply Forall_impl; [exact sample_words|]. exact shell_word_word.
Qed.

(** X14.  shell.c: given an array of at least 20 cells, as [main]
    allocates, [getTokens] stays within it for every line and every
    delimiter set: it stores at most 19 tokens, none of them empty, ends
    them with a null pointer, and leaves the length of the array and the
    cells from index 20 on as they were. *)
Theorem shell_getTokens_fits (tokens : list cell) (line delim : str) :
  (20 <= length tokens)%nat ->
  exists tokens' ws,
    ShellC.getTokens tokens line delim = Some tokens'
    /\ (length ws <= 19)%nat
    /\ Forall (fun w => w <> []) ws
    /\ argv_at tokens' 0 = Some ws
    /\ length tokens' = length tokens
    /\ drop 20 tokens' = drop 20 tokens.
Proof.
  intros Hlen. unfold ShellC.getTokens.
  destruct (strtok SPACE line) as [token saved] eqn:Hs.
  rewrite getTokens_loop_from_0 by lia. cbn [fmap option_fmap option_map fst].
  pose proof (loop_tokens_length 19 delim token saved) as Hws.
  set (ws := loop_tokens 19 delim token saved) in *.
  exists ((Ptr <$> ws) ++ Null :: drop (S (length ws)) tokens), ws.
  split; [reflexivity|]. split; [exact Hws|]. split; [|split; [|split]].
  - apply loop_tokens_nonempty. intros t ->.
    exact (proj1 (proj1 (strtok_some SPACE line t saved Hs))).
  - apply argv_at_0.
  - apply tokens_shape_length. lia.
  - rewrite drop_app_ge by (rewrite length_fmap; lia).
    rewrite length_fmap.
    replace (20 - length ws)%nat with (S (19 - length ws)) by lia.
    simpl. rewrite drop_drop. f_equal. lia.
Qed.

Lemma shell_getTokens_fits_witness :
  exists tokens' ws,
    ShellC.getTokens (replicate 20 Uninit) (join [LS; DASH_L]) SPACE
    = Some tokens'
    /\ (length ws <= 19)%nat
    /\ Forall (fun w => w <> []) ws
    /\ argv_at tokens' 0 = Some ws
    /\ length tokens' = length (replicate 20 Uninit)
    /\ drop 20 tokens' = drop 20 (replicate 20 Uninit).
Proof.
  apply (shell_getTokens_fits (replicate 20 Uninit) (join [LS; DASH_L]) SPACE).
  simpl. lia.
Defined.

(** X15.  part_000: given an array of at least 101 cells, as [main]
    allocates, [getTokens] stays within it for every line and every
    delimiter set: it stores at most 100 tokens, each non-empty and free
    of delimiters, ends them with a null pointer, returns their number,
    and leaves the length of the array and the cells from index 101 on
    as they were. *)
Theorem part000_getTokens_fits (tokens : list cell) (line delim : str) :
  (101 <= length tokens)%nat ->
  exists tokens' ws,
    Part000.getTokens tokens line delim
    = Some (tokens', Z.of_nat (length ws))
    /\ (length ws <= 100)%nat
    /\ Forall (word delim) ws
    /\ argv_at tokens' 0 = Some ws
    /\ length tokens' = length tokens
    /\ drop 101 tokens' = drop 101 tokens.
Proof.
  intros Hlen. unfold Part000.getTokens.
  destruct (strtok delim line) as [token saved] eqn:Hs.
  rewrite getTokens_loop_from_0 by lia.
  pose proof (loop_tokens_length 100 delim token saved) as Hws.
  pose proof (loop_tokens_words 100 delim line token saved Hs) as Hwords.
  set (ws := loop_tokens 100 delim token saved) in *.
  exists ((Ptr <$> ws) ++ Null :: drop (S (length ws)) tokens), ws.
  split; [reflexivity|]. split; [exact Hws|]. split; [exact Hwords|].
  split; [|split].
  - apply argv_at_0.
  - apply tokens_shape_length. lia.
  - rewrite drop_app_ge by (rewrite length_fmap; lia).
    rewrite length_fmap.
    replace (101 - length ws)%nat with (S (100 - length ws)) by lia.
    simpl. rewrite drop_drop. f_equal. lia.
Qed.

Lemma part000_getTokens_fits_witness :
  exists tokens' ws,
    Part000.getTokens (replicate 101 Uninit) (join [LS; DASH_L]) SPACE
    = Some (tokens', Z.of_nat (length ws))
    /\ (length ws <= 100)%nat
    /\ Forall (word SPACE) ws
    /\ argv_at tokens' 0 = Some ws
    /\ length tokens' = length (replicate 101 Uninit)
    /\ drop 101 tokens' = drop 101 (replicate 101 Uninit).
Proof.
  apply (part000_getTokens_fits (replicate 101 Uninit) (join [LS; DASH_L]) SPACE).
  rewrite length_replicate. lia.
Defined.

(** ** Lines of words *)

Lemma shell_getTokens_join (tokens : list cell) (ws : list str) :
  Forall (word SPACE) ws ->
  (20 <= length tokens)%nat ->
  ShellC.getTokens tokens (join ws) SPACE
  = Some ((Ptr <$> take 19 ws) ++ Null :: drop (S (length (take 19 ws))) tokens).
Proof.
  intros Hws Hlen. unfold ShellC.getTokens.
  destruct (strtok SPACE (join ws)) as [token saved] eqn:Hs.
  rewrite getTokens_loop_from_0 by lia.
  now rewrite (loop_tokens_join 19 ws token saved Hws Hs).
Qed.

Lemma part000_getTokens_join (tokens : list cell) (ws : list str) :
  Forall (word SPACE) ws ->
  (101 <= length tokens)%nat ->
  Part000.getTokens tokens (join ws) SPACE
  = Some ((Ptr <$> take 100 ws) ++ Null :: drop (S (length (take 100 ws))) tokens,
          Z.of_nat (length (take 100 ws))).
Proof.
  intros Hws Hlen. unfold Part000.getTokens.
  destruct (strtok SPACE (join ws)) as [token saved] eqn:Hs.
  rewrite getTokens_loop_from_0 by lia.
  now rewrite (loop_tokens_join 100 ws token saved Hws Hs).
Qed.

(** X16.  shell.c: for words that hold no space, joined by single spaces,
    [getTokens] gives back the words, in order, cut off after the 19th. *)
Theorem shell_getTokens_words (tokens : list cell) (ws : list str) :
  Forall (word SPACE) ws ->
  (20 <= length tokens)%nat ->
  exists tokens',
    ShellC.getTokens tokens (join ws) SPACE = Some tokens'
    /\ argv_at tokens' 0 = Some (take 19 ws).
Proof.
  intros Hws Hlen. eexists. split; [now apply shell_getTokens_join|].
  apply argv_at_0.
Qed.

Lemma shell_getTokens_words_witness :
  exists tokens',
    ShellC.getTokens (replicate 20 Uninit) (join [LS; DASH_L]) SPACE
    = Some tokens'
    /\ argv_at tokens' 0 = Some (take 19 [LS; DASH_L]).
Proof.
  apply (shell_getTokens_words (replicate 20 Uninit) [LS; DASH_L]).
  - exact sample_space_words.
  - simpl. lia.
Defined.

(** X17.  part_000: for words that hold no space, joined by single
    spaces, [getTokens] gives back the words, in order, cut off after the
    100th, and returns how many it stored. *)
Theorem part000_getTokens_words (tokens : list cell) (ws : list str) :
  Forall (word SPACE) ws ->
  (101 <= length tokens)%nat ->
  exists tokens',
    Part000.getTokens tokens (join ws) SPACE
    = Some (tokens', Z.of_nat (length (take 100 ws)))
    /\ argv_at tokens' 0 = Some (take 100 ws).
Proof.
  intros Hws Hlen. eexists. split; [now apply part000_getTokens_join|].
  apply argv_at_0.
Qed.

Lemma part000_getTokens_words_witness :
  exists tokens',
    Part000.getTokens (replicate 101 Uninit) (join [LS; DASH_L]) SPACE
    = Some (tokens', Z.of_nat (length (take 100 [LS; DASH_L])))
    /\ argv_at tokens' 0 = Some (take 100 [LS; DASH_L]).
Proof.
  apply (part000_getTokens_words (replicate 101 Uninit) [LS; DASH_L]).
  - exact sample_space_words.
  - rewrite length_replicate. lia.
Defined.

(** ** [main] *)

Lemma token_line_snoc (s : str) (c : ascii) :
  token_line (s ++ [c])
  = if (length (c_string s) <? 100)%nat then Some (c_string s) else None.
Proof.
  unfold token_line. rewrite removelast_last.
  destruct (s ++ [c]) eqn:E; [|reflexivity].
  now apply app_eq_nil in E as [_ E].
Qed.

Lemma token_line_length (input line : str) :
  token_line input = Some line -> (length line < 100)%nat.
Proof.
  unfold token_line. destruct input as [|c input]; [discriminate|].
  destruct (_ <? _)%nat eqn:E; [|discriminate].
  intros [= <-]. now apply Nat.ltb_lt.
Qed.

Lemma c_string_id (s : str) : Forall (fun c => c <> NUL) s -> c_string s = s.
Proof.
  induction 1 as [|c s Hc _ IH]; simpl; [reflexivity|].
  apply Ascii.eqb_neq in Hc. now rewrite Hc, IH.
Qed.

Lemma join_no_NUL (ws : list str) :
  Forall shell_word ws -> Forall (fun c => c <> NUL) (join ws).
Proof.
  induction 1 as [|w ws [_ Hw] Hws IH]; [constructor|].
  assert (Hw' : Forall (fun c => c <> NUL) w)
    by (eapply Forall_impl; [exact Hw|]; now intros c [_ Hc]).
  destruct ws as [|w' ws]; [exact Hw'|].
  change (join (w :: w' :: ws)) with (w ++ " "%char :: join (w' :: ws)).
  apply Forall_app. split; [exact Hw'|]. constructor; [|exact IH].
  unfold NUL. discriminate.
Qed.

Lemma token_line_join (ws : list str) (c : ascii) :
  Forall shell_word ws ->
  (length (join ws) < 100)%nat ->
  token_line (join ws ++ [c]) = Some (join ws).
Proof.
  intros Hws Hlen. rewrite token_line_snoc, c_string_id by now apply join_no_NUL.
  apply Nat.ltb_lt in Hlen. now rewrite Hlen.
Qed.

Lemma shell_words_words (ws : list str) :
  Forall shell_word ws -> Forall (word SPACE) ws.
Proof. intros H. eapply Forall_impl; [exact H|]. exact shell_word_word. Qed.

Lemma join_length (ws : list str) :
  Forall shell_word ws -> (length ws <= length (join ws))%nat.
Proof.
  induction 1 as [|w ws [Hne _] Hws IH]; [simpl; lia|].
  assert (1 <= length w)%nat by (destruct w; [contradiction|simpl; lia]).
  destruct ws as [|w' ws]; [simpl; lia|].
  change (join (w :: w' :: ws)) with (w ++ " "%char :: join (w' :: ws)).
  rewrite length_app. simpl in *. lia.
Qed.

(** The array [main] hands to [processTask] for a line of words. *)
Lemma shell_tokens_of_line (ws : list str) :
  Forall shell_word ws ->
  ShellC.getTokens (replicate 20 Uninit) (join ws) SPACE
  = Some ((Ptr <$> take 19 ws)
            ++ Null :: replicate (19 - length (take 19 ws)) Uninit).
Proof.
  intros Hws.
  rewrite shell_getTokens_join;
    [|now apply shell_words_words|rewrite length_replicate; lia].
  now rewrite drop_replicate.
Qed.

Lemma part000_tokens_of_line (ws : list str) :
  Forall shell_word ws ->
  (length (join ws) < 100)%nat ->
  Part000.getTokens (replicate 101 Uninit) (join ws) SPACE
  = Some ((Ptr <$> ws) ++ Null :: replicate (100 - length ws) Uninit,
          Z.of_nat (length ws)).
Proof.
  intros Hws Hlen. pose proof (join_length ws Hws) as Hn.
  rewrite part000_getTokens_join;
    [|now apply shell_words_words|rewrite length_replicate; lia].
  rewrite take_ge by lia. now rewrite drop_replicate.
Qed.

(** X18.  A line of [k] spaces, the empty line for [k = 0], has no token:
    [getTokens] stores the null pointer into [tokens[0]], and
    [processTask] is undefined on it, in both shells: shell.c passes
    [tokens[0]] to [strcmp] (line 26), part_000 reads [tokens[-1]] (line
    76) and then does the same (line 79).  So is the iteration of [main]
    that reads such a line. *)
Theorem blank_line_undefined (k : nat) (c : ascii) :
  (exists tokens,
     ShellC.getTokens (replicate 20 Uninit) (replicate k " "%char) SPACE
     = Some tokens
     /\ tokens_read tokens 0 = Some Null
     /\ ShellC.processTask tokens = None)
  /\ (exists tokens,
        Part000.getTokens (replicate 101 Uninit) (replicate k " "%char) SPACE
        = Some (tokens, 0)
        /\ tokens_read tokens 0 = Some Null
        /\ Part000.processTask tokens 0 = None)
  /\ ShellC.main_iteration (replicate k " "%char ++ [c]) = None
  /\ Part000.main_iteration (replicate k " "%char ++ [c]) = None.
Proof.
  assert (Hc : c_string (replicate k " "%char) = replicate k " "%char).
  { apply c_string_id. apply Forall_replicate. unfold NUL. discriminate. }
  assert (Hs : strtok SPACE (replicate k " "%char) = (None, [])).
  { apply strtok_blank. now apply Forall_replicate. }
  unfold ShellC.main_iteration, Part000.main_iteration.
  rewrite token_line_snoc, Hc.
  unfold ShellC.getTokens, Part000.getTokens. rewrite Hs.
  split; [|split; [|split]].
  - eexists. split; [reflexivity|]. split; reflexivity.
  - eexists. split; [reflexivity|]. split; reflexivity.
  - destruct (_ <? _)%nat; [|reflexivity]. cbn [mbind option_bind]. now rewrite Hs.
  - destruct (_ <? _)%nat; [|reflexivity]. cbn [mbind option_bind]. now rewrite Hs.
Qed.

(** X19.  part_000: a line that fits the 100 bytes of [token_line] has at
    most 50 tokens, every token but the last taking a character and a
    delimiter, so within [main] the bound [i < 100] of [getTokens] never
    cuts a line short. *)
Theorem part000_token_bound (input line : str) (tokens' : list cell)
    (tokensSize : Z) :
  token_line input = Some line ->
  Part000.getTokens (replicate 101 Uninit) line SPACE
  = Some (tokens', tokensSize) ->
  0 <= tokensSize <= 50.
Proof.
  intros Hline Htok. apply token_line_length in Hline.
  unfold Part000.getTokens in Htok.
  destruct (strtok SPACE line) as [token saved] eqn:Hs.
  rewrite getTokens_loop_from_0 in Htok by (rewrite length_replicate; lia).
  pose proof (loop_tokens_bound 100 SPACE line token saved Hs) as Hb.
  remember (loop_tokens 100 SPACE token saved) as ws eqn:Hws. clear Hws.
  cbv zeta in Htok. injection Htok as _ <-. lia.
Qed.

Lemma part000_token_bound_witness : 0 <= 2 <= 50.
Proof.
  eapply (part000_token_bound sample_input (join [LS; DASH_L])).
  - vm_compute. reflexivity.
  - vm_compute. reflexivity.
Defined.

(** ** [processTask] *)

Lemma tokens_read_ptr (ws : list str) (rest : list cell) (j : nat) (w : str) :
  ws !! j = Some w ->
  tokens_read ((Ptr <$> ws) ++ rest) (Z.of_nat j) = Some (Ptr w).
Proof.
  intros Hw. unfold tokens_read.
  destruct (0 <=? Z.of_nat j) eqn:H0; [|apply Z.leb_gt in H0; lia].
  rewrite Nat2Z.id, lookup_app_l
    by (rewrite length_fmap; now apply lookup_lt_Some in Hw).
  now rewrite list_lookup_fmap, Hw.
Qed.

Lemma tokens_store_null (ws : list str) (w : str) (post rest : list cell) :
  tokens_store ((Ptr <$> ws) ++ Ptr w :: post ++ rest) (Z.of_nat (length ws)) Null
  = Some ((Ptr <$> ws) ++ Null :: post ++ rest).
Proof.
  rewrite tokens_store_in.
  - f_equal. rewrite <- (Nat.add_0_r (length ws)).
    rewrite <- (length_fmap Ptr ws) at 1. now rewrite insert_app_r.
  - rewrite length_app, length_fmap. simpl. lia.
Qed.

(** The search skips the tokens that are not a bar. *)
Lemma find_pipe_skip (l : list str) :
  forall (pre post : list str) (rest : list cell) (n : nat),
    Forall (fun w => w <> BAR) l ->
    Part000.find_pipe ((Ptr <$> pre ++ l ++ post) ++ rest) (length l + n)
      (Z.of_nat (length pre))
    = Part000.find_pipe ((Ptr <$> pre ++ l ++ post) ++ rest) n
        (Z.of_nat (length pre + length l)).
Proof.
  induction l as [|w l IH]; intros pre post rest n Hl.
  - simpl. now rewrite Nat.add_0_r.
  - apply Forall_cons in Hl as [Hw Hl].
    cbn [length Nat.add Part000.find_pipe].
    rewrite (tokens_read_ptr _ _ _ w) by now apply list_lookup_middle.
    cbn [mbind option_bind strcmp0]. rewrite (str_eqb_neq _ _ Hw).
    replace (Z.of_nat (length pre) + 1) with (Z.of_nat (length (pre ++ [w])))
      by (rewrite length_app; simpl; lia).
    replace (pre ++ (w :: l) ++ post) with ((pre ++ [w]) ++ l ++ post)
      by now rewrite <- app_assoc.
    rewrite IH by exact Hl. rewrite length_app. simpl.
    do 2 f_equal. lia.
Qed.

Lemma find_pipe_none (ws : list str) (rest : list cell) :
  Forall (fun w => w <> BAR) ws ->
  Part000.find_pipe ((Ptr <$> ws) ++ rest) (length ws) 0 = Some (-1).
Proof.
  intros Hws.
  pose proof (find_pipe_skip ws [] [] rest 0 Hws) as H.
  rewrite Nat.add_0_r, app_nil_r in H. exact H.
Qed.

Lemma find_pipe_first (l r : list str) (rest : list cell) :
  Forall (fun w => w <> BAR) l ->
  Part000.find_pipe ((Ptr <$> l ++ BAR :: r) ++ rest) (length (l ++ BAR :: r)) 0
  = Some (Z.of_nat (length l)).
Proof.
  intros Hl.
  pose proof (find_pipe_skip l [] (BAR :: r) rest (S (length r)) Hl) as H.
  cbn [app length Nat.add] in H. change (Z.of_nat 0) with 0 in H.
  rewrite length_app. cbn [length]. rewrite H. cbn [Part000.find_pipe].
  rewrite (tokens_read_ptr _ _ _ BAR) by now apply list_lookup_middle.
  reflexivity.
Qed.

Lemma strcmp0_exit (ws : list str) (w : str) :
  head ws = Some w -> w <> EXIT ->
  forall rest,
    tokens_read ((Ptr <$> ws) ++ rest) 0 = Some (Ptr w)
    /\ strcmp0 (Ptr w) EXIT = Some false.
Proof.
  intros Hhd Hne rest. destruct ws as [|w' ws]; [discriminate|].
  injection Hhd as ->. split; [reflexivity|].
  simpl. now rewrite str_eqb_neq.
Qed.

Lemma shell_word_EXIT : shell_word EXIT.
Proof.
  split; [discriminate|]. repeat constructor; unfold NUL; discriminate.
Qed.

Lemma shell_word_BAR : shell_word BAR.
Proof.
  split; [discriminate|]. repeat constructor; unfold NUL; discriminate.
Qed.

Lemma shell_word_AMP : shell_word AMP.
Proof.
  split; [discriminate|]. repeat constructor; unfold NUL; discriminate.
Qed.

(** X20.  Both shells, on an input line that is the word [exit] followed
    by any words [ws], joined by single spaces, with fewer than 100
    characters before its final character (the words are not empty and
    hold neither a space nor a NUL): the iteration of [main] ends in
    [exit(0)], whatever the words [ws] are, a bar or an ampersand among
    them. *)
Theorem exit_first (ws : list str) (c : ascii) :
  Forall shell_word ws ->
  (length (join (EXIT :: ws)) < 100)%nat ->
  ShellC.main_iteration (join (EXIT :: ws) ++ [c]) = Some (Exit 0)
  /\ Part000.main_iteration (join (EXIT :: ws) ++ [c]) = Some (Exit 0).
Proof.
  intros Hws Hlen.
  assert (Hall : Forall shell_word (EXIT :: ws))
    by (constructor; [exact shell_word_EXIT|exact Hws]).
  unfold ShellC.main_iteration, Part000.main_iteration.
  rewrite (token_line_join _ c Hall Hlen). cbn [mbind option_bind].
  rewrite (shell_tokens_of_line _ Hall), (part000_tokens_of_line _ Hall Hlen).
  cbn [mbind option_bind]. split; [reflexivity|].
  unfold Part000.processTask.
  destruct (lookup_lt_is_Some_2 (EXIT :: ws) (length ws)) as [w Hw];
    [simpl; lia|].
  replace (Z.of_nat (length (EXIT :: ws)) - 1) with (Z.of_nat (length ws))
    by (simpl; lia).
  rewrite (tokens_read_ptr _ _ _ w Hw). reflexivity.
Qed.

Lemma exit_first_witness :
  ShellC.main_iteration (join (EXIT :: [LS; BAR; WC; AMP]) ++ ["010"%char])
  = Some (Exit 0)
  /\ Part000.main_iteration (join (EXIT :: [LS; BAR; WC; AMP]) ++ ["010"%char])
     = Some (Exit 0).
Proof.
  apply (exit_first [LS; BAR; WC; AMP] "010"%char).
  - repeat constructor; try discriminate; unfold NUL; discriminate.
  - simpl. lia.
Defined.

(** X21.  part_000, on an input line of words joined by single spaces,
    with fewer than 100 characters before its final character (the words
    are not empty and hold neither a space nor a NUL), that holds a bar as
    a word and whose first word is not [exit]: [processTask] puts a null
    pointer in the place of the first bar and calls [processCommands] with
    the words [l] before that bar as the first argument vector and all the
    words [r] after it, later bars included, as the second. *)
Theorem part000_pipeline (l r : list str) (c : ascii) :
  Forall shell_word l -> Forall shell_word r ->
  Forall (fun w => w <> BAR) l ->
  head (l ++ [BAR]) <> Some EXIT ->
  (length (join (l ++ BAR :: r)) < 100)%nat ->
  exists tokens,
    Part000.main_iteration (join (l ++ BAR :: r) ++ [c])
    = Some (Pipeline tokens (Z.of_nat (length l) + 1))
    /\ argv_at tokens 0 = Some l
    /\ argv_at tokens (Z.of_nat (length l) + 1) = Some r.
Proof.
  intros Hl Hr Hnobar Hhd Hlen.
  assert (Hall : Forall shell_word (l ++ BAR :: r)).
  { apply Forall_app. split; [exact Hl|].
    constructor; [exact shell_word_BAR|exact Hr]. }
  unfold Part000.main_iteration.
  rewrite (token_line_join _ c Hall Hlen). cbn [mbind option_bind].
  rewrite (part000_tokens_of_line _ Hall Hlen). cbn [mbind option_bind].
  set (rest := Null :: replicate (100 - length (l ++ BAR :: r)) Uninit).
  unfold Part000.processTask.
  destruct (lookup_lt_is_Some_2 (l ++ BAR :: r) (length (l ++ r))) as [w Hw];
    [rewrite !length_app; simpl; lia|].
  replace (Z.of_nat (length (l ++ BAR :: r)) - 1) with (Z.of_nat (length (l ++ r)))
    by (rewrite !length_app; simpl; lia).
  rewrite (tokens_read_ptr _ _ _ w Hw). cbn [mbind option_bind].
  destruct (head (l ++ BAR :: r)) as [w0|] eqn:Hw0;
    [|destruct l; discriminate].
  assert (Hne : w0 <> EXIT).
  { intros ->. apply Hhd. destruct l; [discriminate|exact Hw0]. }
  destruct (strcmp0_exit _ w0 Hw0 Hne rest) as [Hcmd Hcmp].
  rewrite Hcmd. cbn [mbind option_bind]. rewrite Hcmp. cbn [mbind option_bind].
  rewrite Nat2Z.id, (find_pipe_first l r rest Hnobar). cbn [mbind option_bind].
  destruct (Z.of_nat (length l) =? -1) eqn:E; [apply Z.eqb_eq in E; lia|].
  cbn [negb]. rewrite fmap_app, fmap_cons, <- app_assoc.
  cbn [app]. rewrite (tokens_store_null l BAR (Ptr <$> r) rest).
  cbn [mbind option_bind].
  eexists. split; [reflexivity|]. split.
  - apply argv_at_0.
  - unfold argv_at.
    destruct (0 <=? Z.of_nat (length l) + 1) eqn:H0; [|apply Z.leb_gt in H0; lia].
    replace (Z.to_nat (Z.of_nat (length l) + 1)) with (S (length l)) by lia.
    rewrite drop_app_ge by (rewrite length_fmap; lia).
    rewrite length_fmap.
    replace (S (length l) - length l)%nat with 1%nat by lia.
    cbn [drop]. apply argv_of_tokens.
Qed.

Lemma part000_pipeline_witness :
  exists tokens,
    Part000.main_iteration (join ([LS] ++ BAR :: [WC]) ++ ["010"%char])
    = Some (Pipeline tokens (Z.of_nat (length [LS]) + 1))
    /\ argv_at tokens 0 = Some [LS]
    /\ argv_at tokens (Z.of_nat (length [LS]) + 1) = Some [WC].
Proof.
  apply (part000_pipeline [LS] [WC] "010"%char).
  - repeat constructor; try discriminate; unfold NUL; discriminate.
  - repeat constructor; try discriminate; unfold NUL; discriminate.
  - repeat constructor. discriminate.
  - simpl. discriminate.
  - simpl. lia.
Defined.

(** Without a bar and without [exit] in front, what is left of
    [processTask] is the test of the last token. *)
Lemma processTask_no_pipe (ws : list str) (w : str) (rest : list cell) :
  Forall (fun w => w <> BAR) (ws ++ [w]) ->
  head (ws ++ [w]) <> Some EXIT ->
  Part000.processTask ((Ptr <$> ws ++ [w]) ++ rest) (Z.of_nat (length (ws ++ [w])))
  = if str_eqb w AMP
    then tokens' ← tokens_store ((Ptr <$> ws ++ [w]) ++ rest)
                     (Z.of_nat (length ws)) Null;
         Some (Run tokens' true)
    else Some (Run ((Ptr <$> ws ++ [w]) ++ rest) false).
Proof.
  intros Hnobar Hhd. unfold Part000.processTask.
  replace (Z.of_nat (length (ws ++ [w])) - 1) with (Z.of_nat (length ws))
    by (rewrite length_app; simpl; lia).
  rewrite (tokens_read_ptr _ _ _ w) by now apply list_lookup_middle.
  cbn [mbind option_bind].
  destruct (head (ws ++ [w])) as [w0|] eqn:Hw0; [|destruct ws; discriminate].
  assert (Hne : w0 <> EXIT) by (intros ->; now apply Hhd).
  destruct (strcmp0_exit _ w0 Hw0 Hne rest) as [Hcmd Hcmp].
  rewrite Hcmd. cbn [mbind option_bind]. rewrite Hcmp. cbn [mbind option_bind].
  rewrite Nat2Z.id, (find_pipe_none _ rest Hnobar). reflexivity.
Qed.

(** X22.  part_000, on an input line of one or more words joined by
    single spaces, with fewer than 100 characters before its final
    character (the words are not empty and hold neither a space nor a
    NUL), none of them a bar, the first not [exit] and the last not an
    ampersand: [processTask] comes to its [fork] with [bgProcess] false
    and all the words as the argument vector. *)
Theorem part000_foreground (ws : list str) (c : ascii) :
  Forall shell_word ws ->
  Forall (fun w => w <> BAR) ws ->
  ws <> [] ->
  head ws <> Some EXIT ->
  last ws <> Some AMP ->
  (length (join ws) < 100)%nat ->
  exists tokens,
    Part000.main_iteration (join ws ++ [c]) = Some (Run tokens false)
    /\ argv_at tokens 0 = Some ws.
Proof.
  intros Hws Hnobar Hne Hhd Hlast Hlen.
  unfold Part000.main_iteration.
  rewrite (token_line_join _ c Hws Hlen). cbn [mbind option_bind].
  rewrite (part000_tokens_of_line _ Hws Hlen). cbn [mbind option_bind].
  destruct (exists_last Hne) as (ws' & w & ->).
  rewrite processTask_no_pipe by assumption.
  rewrite last_snoc in Hlast.
  rewrite str_eqb_neq by congruence.
  eexists. split; [reflexivity|]. apply argv_at_0.
Qed.

Lemma part000_foreground_witness :
  exists tokens,
    Part000.main_iteration (join [LS; DASH_L] ++ ["010"%char])
    = Some (Run tokens false)
    /\ argv_at tokens 0 = Some [LS; DASH_L].
Proof.
  apply (part000_foreground [LS; DASH_L] "010"%char).
  - exact sample_words.
  - repeat constructor; discriminate.
  - discriminate.
  - simpl. discriminate.
  - simpl. discriminate.
  - simpl. lia.
Defined.

(** X23.  part_000, on an input line of words [ws], none of them a bar,
    followed by an ampersand as a word of its own, joined by single
    spaces, with fewer than 100 characters before its final character
    (the words are not empty and hold neither a space nor a NUL), whose
    first word is not [exit]: [processTask] comes to its [fork] with
    [bgProcess] true and the words [ws], without the ampersand, as the
    argument vector. *)
Theorem part000_background (ws : list str) (c : ascii) :
  Forall shell_word ws ->
  Forall (fun w => w <> BAR) ws ->
  head (ws ++ [AMP]) <> Some EXIT ->
  (length (join (ws ++ [AMP])) < 100)%nat ->
  exists tokens,
    Part000.main_iteration (join (ws ++ [AMP]) ++ [c]) = Some (Run tokens true)
    /\ argv_at tokens 0 = Some ws.
Proof.
  intros Hws Hnobar Hhd Hlen.
  assert (Hall : Forall shell_word (ws ++ [AMP])).
  { apply Forall_app. split; [exact Hws|].
    constructor; [exact shell_word_AMP|constructor]. }
  assert (Hnobar' : Forall (fun w => w <> BAR) (ws ++ [AMP])).
  { apply Forall_app. split; [exact Hnobar|].
    constructor; [discriminate|constructor]. }
  unfold Part000.main_iteration.
  rewrite (token_line_join _ c Hall Hlen). cbn [mbind option_bind].
  rewrite (part000_tokens_of_line _ Hall Hlen). cbn [mbind option_bind].
  rewrite processTask_no_pipe by assumption.
  rewrite str_eqb_refl, fmap_app, <- app_assoc.
  change (Ptr <$> [AMP]) with [Ptr AMP]. cbn [app].
  match goal with
  | |- context [tokens_store (_ ++ Ptr AMP :: ?r) _ _] =>
      pose proof (tokens_store_null ws AMP [] r) as Hst
  end.
  cbn [app] in Hst. rewrite Hst. cbn [mbind option_bind].
  eexists. split; [reflexivity|]. apply argv_at_0.
Qed.

Lemma part000_background_witness :
  exists tokens,
    Part000.main_iteration (join ([LS; DASH_L] ++ [AMP]) ++ ["010"%char])
    = Some (Run tokens true)
    /\ argv_at tokens 0 = Some [LS; DASH_L].
Proof.
  apply (part000_background [LS; DASH_L] "010"%char).
  - exact sample_words.
  - repeat constructor; discriminate.
  - simpl. discriminate.
  - simpl. lia.
Defined.

(** X24.  shell.c, on an input line of one or more words joined by single
    spaces, with fewer than 100 characters before its final character
    (the words are not empty and hold neither a space nor a NUL), whose
    first word is not [exit]: [processTask] comes to its [fork], after
    which the parent waits, with the first 19 words as the argument
    vector; a bar or an ampersand is an argument like any other word. *)
Theorem shell_run (ws : list str) (c : ascii) :
  Forall shell_word ws ->
  ws <> [] ->
  head ws <> Some EXIT ->
  (length (join ws) < 100)%nat ->
  exists tokens,
    ShellC.main_iteration (join ws ++ [c]) = Some (Run tokens false)
    /\ argv_at tokens 0 = Some (take 19 ws).
Proof.
  intros Hws Hne Hhd Hlen.
  unfold ShellC.main_iteration.
  rewrite (token_line_join _ c Hws Hlen). cbn [mbind option_bind].
  rewrite (shell_tokens_of_line _ Hws). cbn [mbind option_bind].
  unfold ShellC.processTask.
  destruct ws as [|w ws]; [contradiction|].
  assert (Hw : w <> EXIT) by (intros ->; now apply Hhd).
  change (take 19 (w :: ws)) with (w :: take 18 ws).
  rewrite fmap_cons. cbn [app].
  change (tokens_read (Ptr w :: ?l) 0) with (Some (Ptr w)).
  cbn [mbind option_bind strcmp0]. rewrite (str_eqb_neq _ _ Hw).
  eexists. split; [reflexivity|].
  exact (argv_at_0 (w :: take 18 ws) _).
Qed.

Lemma shell_run_witness :
  exists tokens,
    ShellC.main_iteration (join [LS; DASH_L] ++ ["010"%char])
    = Some (Run tokens false)
    /\ argv_at tokens 0 = Some (take 19 [LS; DASH_L]).
Proof.
  apply (shell_run [LS; DASH_L] "010"%char).
  - exact sample_words.
  - discriminate.
  - simpl. discriminate.
  - simpl. lia.
Defined.
